(** * Record validation and update (src/index.ts): a shallow embedding

    The module has three functions: [deepCopy], [validateRecord] and
    [updateRecordWithValidation].  They work on JavaScript values that live
    in a heap of mutable objects, so the embedding is a state-and-error monad
    over an explicit heap:

    - a [value] is a primitive or a reference to a heap object;
    - an [object] is a plain object (own enumerable properties), frozen or
      not, an array or a [Date];
    - a thrown exception is an [error] result; the heap is kept on a throw,
      as in JavaScript.

    Numbers are IEEE doubles given by sign, mantissa and exponent, so that
    [toFixed(2)] and [parseFloat] are computed exactly.  Strings are held as
    the bytes of their UTF-8 encoding.

    What is left out.  A plain object is ordinary data, extensible and with
    writable data properties, or it is frozen; a single property that cannot
    be written, accessors, proxies and functions as values are left out.
    Prototypes are the standard ones, and [Object.prototype] contributes
    nothing under the keys that the code reads (keys are taken not to be
    names such as [constructor] or [toString]).  A write under the key
    [__proto__] would replace the prototype of the object; the embedding
    has no prototype to replace, and what it proves of the properties of a
    copy is stated for the heaps where no object has this key
    ([proto_free]).  Arrays are dense and have no named properties.  Where
    a builtin is reached outside this range (sorting or serialising an array
    that holds something else than strings, enumerating an array or a
    string, writing a named property of an array or a date), the computation
    stops with the error [Unmodelled] instead of a guess: a theorem on what
    a call returns says nothing there, and the theorems that a call does
    return name the inputs for which they are proved.

    The same three functions, compiled, are the second half of dist/app.js,
    and [deepCopyForTest] of the test suite has the body of [deepCopy]: what
    is proved of the embedding holds of them too.  The first half of
    dist/app.js is an example script that prints what the functions return
    on a few records; it is not modelled. *)

From Stdlib Require Import ZArith Lia Ascii.
From stdpp Require Import base option list strings gmap fin_maps sorting relations.

(** ** Numbers *)

Module Num.

Local Open Scope Z_scope.

(** A JavaScript number.  [Finite neg m e] is (-1)^neg * m * 2^e. *)
Inductive number :=
| NaN
| Infinity (neg : bool)
| Zero (neg : bool)
| Finite (neg : bool) (m : positive) (e : Z).

#[global] Instance number_eq_dec : EqDecision number.
Proof. solve_decision. Defined.

Definition isNaN (x : number) : bool :=
  match x with NaN => true | _ => false end.

Definition is_finite (x : number) : bool :=
  match x with Zero _ | Finite _ _ _ => true | _ => false end.

(** [m1 * 2^e1 ?= m2 * 2^e2], on integers. *)
Definition cmp_scaled (m1 e1 m2 e2 : Z) : comparison :=
  if e1 <=? e2 then m1 ?= m2 * 2 ^ (e2 - e1)
  else m1 * 2 ^ (e1 - e2) ?= m2.

(** [x === y] on numbers: by value, NaN differs from itself and the two
    zeros are equal. *)
Definition strict_eq (x y : number) : bool :=
  match x, y with
  | Infinity s1, Infinity s2 => eqb s1 s2
  | Zero _, Zero _ => true
  | Finite s1 m1 e1, Finite s2 m2 e2 =>
      eqb s1 s2 &&
      match cmp_scaled (Z.pos m1) e1 (Z.pos m2) e2 with Eq => true | _ => false end
  | _, _ => false
  end.

(** *** [toFixed(2)] *)

(** What [toFixed(2)] prints, as data rather than as characters:
    - [DecFixed neg n] is the fixed notation of n hundredths, with a leading
      "-" when [neg] (so [DecFixed true 0] is "-0.00");
    - [DecExact x] is the shortest notation of a number of magnitude at
      least 10^21, which reads back as [x]. *)
Inductive decimal :=
| DecNaN
| DecInfinity (neg : bool)
| DecFixed (neg : bool) (n : Z)
| DecExact (x : number).

(** The integer n for which n / 100 is closest to m * 2^e, the larger one
    of two. *)
Definition hundredths (m e : Z) : Z :=
  if 0 <=? e then 100 * m * 2 ^ e
  else (200 * m + 2 ^ (- e)) / 2 ^ (1 - e).

Definition toFixed2 (x : number) : decimal :=
  match x with
  | NaN => DecNaN
  | Infinity s => DecInfinity s
  | Zero _ => DecFixed false 0
  | Finite s m e =>
      match cmp_scaled (Z.pos m) e (10 ^ 21) 0 with
      | Lt => DecFixed s (hundredths (Z.pos m) e)
      | _ => DecExact x
      end
  end.

(** *** [parseFloat] *)

(** The floor of the binary logarithm of p / q, for positive p and q. *)
Definition floor_log2_ratio (p q : Z) : Z :=
  let d := Z.log2 p - Z.log2 q in
  match cmp_scaled q d p 0 with
  | Gt => d - 1
  | _ => d
  end.

(** a / b rounded to the nearest integer, ties to the even one (b > 0). *)
Definition div_nearest_even (a b : Z) : Z :=
  let q := a / b in
  match 2 * (a mod b) ?= b with
  | Lt => q
  | Gt => q + 1
  | Eq => if Z.even q then q else q + 1
  end.

(** The double nearest to p / q (p >= 0, q > 0), ties to even. *)
Definition nearest_double (neg : bool) (p q : Z) : number :=
  if p =? 0 then Zero neg
  else
    let e := Z.max (floor_log2_ratio p q - 52) (-1074) in
    let m :=
      if 0 <=? e then div_nearest_even p (q * 2 ^ e)
      else div_nearest_even (p * 2 ^ (- e)) q in
    if m =? 0 then Zero neg
    else
      let '(m, e) := if m =? 2 ^ 53 then (2 ^ 52, e + 1) else (m, e) in
      if 971 <? e then Infinity neg
      else Finite neg (Z.to_pos m) e.

Definition parseFloat (d : decimal) : number :=
  match d with
  | DecNaN => NaN
  | DecInfinity s => Infinity s
  | DecFixed s n => nearest_double s n 100
  | DecExact x => x
  end.

(** [parseFloat(x.toFixed(2))]: what both functions call rounding to two
    decimal places. *)
Definition round2 (x : number) : number := parseFloat (toFixed2 x).

(** A zero without its sign; any other number as it is. *)
Definition unsigned_zero (x : number) : number :=
  match x with Zero _ => Zero false | _ => x end.

(** Doubles written as p / q, for examples. *)
Definition of_ratio (neg : bool) (p q : Z) : number := nearest_double neg p q.

End Num.

Import Num.

(** ** Values, objects and the heap *)

Abbreviation loc := nat.

Inductive value :=
| VUndefined
| VNull
| VBool (b : bool)
| VNum (x : number)
| VStr (s : string)
| VRef (l : loc).

#[global] Instance value_eq_dec : EqDecision value.
Proof. solve_decision. Defined.

(** A heap object, by its own enumerable properties.  A [Date] holds its time
    value: milliseconds since the epoch, or [None] for an invalid date.
    Property order is not kept: no result below depends on the order in
    which [for ... in] visits the keys.  Prototypes are not modelled.

    [OFrozen] is a plain object that [Object.freeze] has been applied to:
    its properties are read as those of any plain object, and none of them
    can be written, added or removed. *)
Inductive object :=
| OPlain (props : gmap string value)
| OArray (elems : list value)
| ODate (t : option Z)
| OFrozen (props : gmap string value).

Abbreviation heap := (list object).

(** ** The monad of heap effects and exceptions *)

Inductive error :=
| TypeError          (* property access on null, call of a missing method,
                        write to a frozen object *)
| RangeError         (* maximum call stack size exceeded *)
| Unmodelled.        (* behaviour of a builtin that this embedding leaves out *)

Definition M (A : Type) : Type := heap → heap * (error + A).

Definition ret {A} (a : A) : M A := λ h, (h, inr a).
Definition throw {A} (e : error) : M A := λ h, (h, inl e).
Definition bind {A B} (c : M A) (k : A → M B) : M B :=
  λ h, match c h with
       | (h', inr a) => k a h'
       | (h', inl e) => (h', inl e)
       end.

Notation "'let!' x ':=' c 'in' k" := (bind c (λ x, k))
  (at level 10, x name, c at level 100, k at level 200).
Notation "c ';;' k" := (bind c (λ _, k))
  (at level 100, k at level 200, right associativity).

Fixpoint mapM {A B} (f : A → M B) (l : list A) : M (list B) :=
  match l with
  | [] => ret []
  | a :: l => let! b := f a in let! bs := mapM f l in ret (b :: bs)
  end.

Fixpoint forM {A} (l : list A) (body : A → M unit) : M unit :=
  match l with
  | [] => ret ()
  | a :: l => body a;; forM l body
  end.

Definition deref (l : loc) : M object :=
  λ h, match h !! l with
       | Some o => (h, inr o)
       | None => (h, inl Unmodelled)
       end.

Definition alloc (o : object) : M value :=
  λ h, (h ++ [o], inr (VRef (length h))).

Definition store (l : loc) (o : object) : M unit :=
  λ h, (<[l := o]> h, inr ()).

(** ** Builtins *)

Definition typeof (v : value) : string :=
  match v with
  | VUndefined => "undefined"
  | VNull | VRef _ => "object"
  | VBool _ => "boolean"
  | VNum _ => "number"
  | VStr _ => "string"
  end.

(** [a === b] *)
Definition strict_eq (a b : value) : bool :=
  match a, b with
  | VUndefined, VUndefined | VNull, VNull => true
  | VBool x, VBool y => bool_decide (x = y)
  | VNum x, VNum y => Num.strict_eq x y
  | VStr x, VStr y => bool_decide (x = y)
  | VRef x, VRef y => bool_decide (x = y)
  | _, _ => false
  end.

(** Keys that an array or a string answers by position. *)
Definition is_digit (c : ascii) : bool :=
  (48 <=? nat_of_ascii c)%nat && (nat_of_ascii c <=? 57)%nat.

Definition is_array_key (k : string) : bool :=
  bool_decide (k = "length")
  || (negb (bool_decide (k = EmptyString)) && forallb is_digit (String.list_ascii_of_string k)).

(** [v[k]], reading an own property: what the prototypes would answer is
    left out. *)
Definition get_prop (v : value) (k : string) : M value :=
  match v with
  | VUndefined | VNull => throw TypeError
  | VBool _ | VNum _ => ret VUndefined
  | VStr _ => if is_array_key k then throw Unmodelled else ret VUndefined
  | VRef l =>
      let! o := deref l in
      match o with
      | OPlain props | OFrozen props => ret (default VUndefined (props !! k))
      | OArray _ => if is_array_key k then throw Unmodelled else ret VUndefined
      | ODate _ => ret VUndefined
      end
  end.

(** [v[k] = x], in strict mode (the module is an ES module): a write to a
    primitive, or to a property of a frozen object, throws a [TypeError].
    Named properties on arrays and dates are left out, and so is the key
    [__proto__], which is stored as any other (see [proto_free]). *)
Definition set_prop (v : value) (k : string) (x : value) : M unit :=
  match v with
  | VRef l =>
      let! o := deref l in
      match o with
      | OPlain props => store l (OPlain (<[k := x]> props))
      | OFrozen _ => throw TypeError
      | OArray _ | ODate _ => throw Unmodelled
      end
  | _ => throw TypeError
  end.

(** The keys that [for (const key in v)] visits and [hasOwnProperty] lets
    through. *)
Definition own_keys (v : value) : M (list string) :=
  match v with
  | VRef l =>
      let! o := deref l in
      match o with
      | OPlain props | OFrozen props => ret (map fst (map_to_list props))
      | OArray _ => throw Unmodelled
      | ODate _ => ret []
      end
  | VStr _ => throw Unmodelled
  | _ => ret []
  end.

(** [v instanceof Date] and [Array.isArray(v)] *)
Definition instanceof_Date (v : value) : M bool :=
  λ h, (h, inr match v with
               | VRef l => match h !! l with Some (ODate _) => true | _ => false end
               | _ => false
               end).

Definition isArray (v : value) : M bool :=
  λ h, (h, inr match v with
               | VRef l => match h !! l with Some (OArray _) => true | _ => false end
               | _ => false
               end).

(** The elements of an array, for its methods ([map], [some], spread); a
    value without these methods throws. *)
Definition array_elems (v : value) : M (list value) :=
  match v with
  | VRef l =>
      let! o := deref l in
      match o with
      | OArray elems => ret elems
      | _ => throw TypeError
      end
  | _ => throw TypeError
  end.

(** [v.getTime()] *)
Definition getTime (v : value) : M (option Z) :=
  match v with
  | VRef l =>
      let! o := deref l in
      match o with
      | ODate t => ret t
      | _ => throw TypeError
      end
  | _ => throw TypeError
  end.

(** [new Date(t)] for a time value [t] (what [getTime] and [Date.now]
    return): the time value is stored as it is. *)
Definition new_Date (t : option Z) : M value := alloc (ODate t).

(** [v.trim()].  A string is held as the bytes of its UTF-8 encoding (a
    string with a lone surrogate has none, and is left out).  The characters
    that [trim] strips are the white space and the line terminators of the
    language: U+0009 to U+000D, U+0020, U+00A0, U+1680, U+2000 to U+200A,
    U+2028, U+2029, U+202F, U+205F, U+3000 and U+FEFF, here by their
    encodings. *)
Definition white_space : list (list nat) :=
  [[9]; [10]; [11]; [12]; [13]; [32]; [194; 160]; [225; 154; 128]]
  ++ ((λ b, [226; 128; b]) <$> seq 128 11)
  ++ [[226; 128; 168]; [226; 128; 169]; [226; 128; 175]; [226; 129; 159];
      [227; 128; 128]; [239; 187; 191]].

Fixpoint starts_with (p bs : list nat) : bool :=
  match p, bs with
  | [], _ => true
  | a :: p', b :: bs' => (a =? b)%nat && starts_with p' bs'
  | _ :: _, [] => false
  end.

(** The number of bytes of the character of [ws] that [bs] starts with, 0
    when it starts with none. *)
Definition space_length (ws : list (list nat)) (bs : list nat) : nat :=
  match List.find (λ p, starts_with p bs) ws with
  | Some p => length p
  | None => 0%nat
  end.

(** [bs] without the characters of [ws] at its head; [skip] is the number
    of bytes left of the character being dropped. *)
Fixpoint drop_spaces (ws : list (list nat)) (skip : nat) (bs : list nat)
  : list nat :=
  match bs with
  | [] => []
  | _ :: bs' =>
      match skip with
      | S k => drop_spaces ws k bs'
      | O => match space_length ws bs with
             | S k => drop_spaces ws k bs'
             | O => bs
             end
      end
  end.

Definition bytes_of (s : string) : list nat :=
  nat_of_ascii <$> String.list_ascii_of_string s.

Definition string_of (bs : list nat) : string :=
  String.string_of_list_ascii (ascii_of_nat <$> bs).

(** From the end the bytes of a character come last byte first; a lead byte
    tells the length of its character, so that the bytes found this way are
    a character of the string. *)
Definition trim_string (s : string) : string :=
  string_of
    (rev (drop_spaces (map (@rev nat) white_space) 0
            (rev (drop_spaces white_space 0 (bytes_of s))))).

Definition trim (v : value) : M string :=
  match v with
  | VStr s => ret (trim_string s)
  | _ => throw TypeError
  end.

(** [v.toFixed(2)] *)
Definition toFixed (v : value) : M decimal :=
  match v with
  | VNum x => ret (toFixed2 x)
  | _ => throw TypeError
  end.

(** The global [isNaN(v)]; strings and objects would be converted first. *)
Definition global_isNaN (v : value) : M bool :=
  match v with
  | VNum x => ret (Num.isNaN x)
  | VUndefined => ret true
  | VNull | VBool _ => ret false
  | VStr _ | VRef _ => throw Unmodelled
  end.

(** [/^[a-zA-Z0-9]+$/.test(s)] *)
Definition is_alnum (c : ascii) : bool :=
  let n := nat_of_ascii c in
  ((97 <=? n) && (n <=? 122) || (65 <=? n) && (n <=? 90)
   || (48 <=? n) && (n <=? 57))%nat.

Definition alphanumeric (s : string) : bool :=
  negb (bool_decide (s = EmptyString))
  && forallb is_alnum (String.list_ascii_of_string s).

(** [a || b], [b] evaluated only when [a] is false. *)
Definition or_else (a : bool) (b : M bool) : M bool :=
  if a then ret true else b.

(** [[...v].sort()] and [JSON.stringify] of the result, for arrays of
    strings: a string is serialised between quotes with its escapes, and
    the default order is that of the code units.  On the bytes of UTF-8 the
    order is that of the code points, which is another total order when
    characters beyond U+FFFF are compared with those of U+E000 to U+FFFF;
    the code sorts two arrays only to compare one with the other, which
    comes out the same in every total order ([sort_strings_eq]).  Other
    elements are left out. *)
Definition strings_of (vs : list value) : M (list string) :=
  mapM (λ v, match v with VStr s => ret s | _ => throw Unmodelled end) vs.

Fixpoint insert_sorted (s : string) (l : list string) : list string :=
  match l with
  | [] => [s]
  | t :: l' => if String.leb s t then s :: l else t :: insert_sorted s l'
  end.

Definition sort_strings (l : list string) : list string :=
  foldr insert_sorted [] l.

Definition array_sort (vs : list value) : M (list value) :=
  let! ss := strings_of vs in ret (VStr <$> sort_strings ss).

Definition quote : string := String (ascii_of_nat 34) EmptyString.

Definition hex_digit (n : nat) : string :=
  String (ascii_of_nat (if n <? 10 then 48 + n else 87 + n)%nat) EmptyString.

Definition json_escape (c : ascii) : string :=
  let n := nat_of_ascii c in
  if (n =? 34)%nat then "\" +:+ quote
  else if (n =? 92)%nat then "\\"
  else if (n =? 8)%nat then "\b"
  else if (n =? 9)%nat then "\t"
  else if (n =? 10)%nat then "\n"
  else if (n =? 12)%nat then "\f"
  else if (n =? 13)%nat then "\r"
  else if (n <? 32)%nat then "\u00" +:+ hex_digit (n / 16) +:+ hex_digit (n mod 16)
  else String c EmptyString.

Fixpoint json_string_body (s : string) : string :=
  match s with
  | EmptyString => EmptyString
  | String c s' => json_escape c +:+ json_string_body s'
  end.

Definition json_string (s : string) : string :=
  quote +:+ json_string_body s +:+ quote.

Fixpoint json_items (l : list string) : string :=
  match l with
  | [] => EmptyString
  | [s] => json_string s
  | s :: l' => json_string s +:+ "," +:+ json_items l'
  end.

Definition JSON_stringify (vs : list value) : M string :=
  let! ss := strings_of vs in ret ("[" +:+ json_items ss +:+ "]").

(** ** The module's functions *)

(** src/types.ts: [ValidationResult] and [UpdateResult] have the same
    shape. *)
Record ValidationResult := {
  isValid : bool;
  record : option value;
  errors : option (list string)
}.

Abbreviation UpdateResult := ValidationResult.

(** [deepCopy].  [depth] is the number of nested calls the call stack has
    room for; a value nested deeper than that, or cyclic, ends in the
    [RangeError] of a full stack. *)
Fixpoint deepCopy (depth : nat) (obj : value) : M value :=
  match depth with
  | O => throw RangeError
  | S depth =>
      if bool_decide (obj = VNull) || negb (bool_decide (typeof obj = "object"))
      then ret obj
      else
        let! is_date := instanceof_Date obj in
        if is_date then
          let! t := getTime obj in new_Date t
        else
          let! is_array := isArray obj in
          if is_array then
            let! elems := array_elems obj in
            let! items := mapM (deepCopy depth) elems in
            alloc (OArray items)
          else
            let! copy := alloc (OPlain ∅) in
            let! keys := own_keys obj in
            forM keys (λ key,
              let! x := get_prop obj key in
              let! x' := deepCopy depth x in
              set_prop copy key x');;
            ret copy
  end.

Definition bad_tag (tag : value) : bool :=
  negb (bool_decide (typeof tag = "string"))
  || match tag with VStr s => negb (alphanumeric s) | _ => true end.

Definition validateRecord (record : value) : M ValidationResult :=
  let errors : list string := [] in
  if negb (bool_decide (typeof record = "object")) || bool_decide (record = VNull)
  then
    let errors := errors ++ ["Record must be an object."] in
    ret {| isValid := false; record := None; errors := Some errors |}
  else
    (* Validate ID *)
    let! id := get_prop record "id" in
    let! bad_id :=
      or_else (negb (bool_decide (typeof id = "string")))
              (let! s := trim id in ret (String.length s =? 0)%nat) in
    let errors :=
      if bad_id then errors ++ ["ID is required and must be a string."]
      else errors in
    (* Validate Name *)
    let! name := get_prop record "name" in
    let! bad_name :=
      or_else (negb (bool_decide (typeof name = "string")))
              (let! s := trim name in ret (String.length s =? 0)%nat) in
    let errors :=
      if bad_name
      then errors ++ ["Name is required and must be a non-empty string."]
      else errors in
    (* Validate Price *)
    let! price := get_prop record "price" in
    let! bad_price :=
      or_else (negb (bool_decide (typeof price = "number")))
              (global_isNaN price) in
    let! errors :=
      if bad_price
      then ret (errors ++ ["Price is required and must be a number."])
      else
        let! d := toFixed price in
        set_prop record "price" (VNum (parseFloat d));;
        ret errors in
    (* Validate Tags *)
    let! tags := get_prop record "tags" in
    let! is_array := isArray tags in
    let! errors :=
      if negb is_array
      then ret (errors ++ ["Tags are required and must be an array."])
      else
        let! elems := array_elems tags in
        if existsb bad_tag elems
        then ret (errors ++ ["All tags must be alphanumeric strings."])
        else ret errors in
    if (0 <? length errors)%nat
    then ret {| isValid := false; record := None; errors := Some errors |}
    else ret {| isValid := true; record := Some record; errors := None |}.

(** One turn of the loop over the keys of [updates]. *)
Definition apply_update (updatedRecord updates : value) (key : string) : M unit :=
  let! newValue := get_prop updates key in
  let! oldValue := get_prop updatedRecord key in
  if bool_decide (key = "price")
     && bool_decide (typeof newValue = "number")
     && bool_decide (typeof oldValue = "number")
  then
    let! dn := toFixed newValue in
    let! do := toFixed oldValue in
    if negb (Num.strict_eq (parseFloat dn) (parseFloat do))
    then set_prop updatedRecord key newValue
    else ret ()
  else
    let! new_is_array := isArray newValue in
    let! old_is_array := isArray oldValue in
    if bool_decide (key = "tags") && new_is_array && old_is_array
    then
      let! new_elems := array_elems newValue in
      let! old_elems := array_elems oldValue in
      let! sortedNewValue := array_sort new_elems in
      let! sortedOldValue := array_sort old_elems in
      let! jn := JSON_stringify sortedNewValue in
      let! jo := JSON_stringify sortedOldValue in
      if negb (bool_decide (jn = jo))
      then set_prop updatedRecord key newValue
      else ret ()
    else if negb (strict_eq newValue oldValue)
    then set_prop updatedRecord key newValue
    else ret ().

(** [updateRecordWithValidation].  [now] is what [Date.now()] returns during
    the call, [depth] the room on the call stack for [deepCopy]. *)
Definition updateRecordWithValidation (depth : nat) (now : Z)
    (currentRecord updates : value) : M UpdateResult :=
  let! updatedRecord := deepCopy depth currentRecord in
  let! stamp := new_Date (Some now) in
  set_prop updatedRecord "updatedAt" stamp;;
  let! keys := own_keys updates in
  forM keys (apply_update updatedRecord updates);;
  let! validationResult := validateRecord updatedRecord in
  if negb (isValid validationResult)
  then ret {| isValid := false; record := None;
              errors := errors validationResult |}
  else ret {| isValid := true; record := record validationResult;
              errors := None |}.

(** ** What [validateRecord] computes *)

(** The own properties of an object that [record.id], [record.name],
    [record.price] and [record.tags] can find. *)
Definition fields (o : object) : gmap string value :=
  match o with OPlain ps | OFrozen ps => ps | _ => ∅ end.

Definition field (o : object) (k : string) : value :=
  default VUndefined (fields o !! k).

(** The test on [id] and on [name]. *)
Definition blank (v : value) : bool :=
  match v with
  | VStr s => (String.length (trim_string s) =? 0)%nat
  | _ => true
  end.

(** A price that passes its test. *)
Definition usable_price (v : value) : option number :=
  match v with
  | VNum x => if Num.isNaN x then None else Some x
  | _ => None
  end.

Definition array_at (h : heap) (v : value) : option (list value) :=
  match v with
  | VRef l => match h !! l with Some (OArray es) => Some es | _ => None end
  | _ => None
  end.

(** An object with named properties of its own: a plain object, frozen or
    not. *)
Definition keyed (o : object) : bool :=
  match o with OPlain _ | OFrozen _ => true | _ => false end.

(** An object whose properties cannot be written. *)
Definition read_only (o : object) : bool :=
  match o with OFrozen _ => true | _ => false end.

(** The write of the rounded price throws: the object is frozen, and its
    price passes the test. *)
Definition throws_on_price (o : object) : bool :=
  read_only o
  && match usable_price (field o "price") with Some _ => true | None => false end.

(** The heap once the price of the object [o] at [l] has been tested, when
    the test has not thrown: a price that passes is rounded in place. *)
Definition after_price (l : loc) (o : object) (h : heap) : heap :=
  match usable_price (field o "price") with
  | Some x =>
      if read_only o then h
      else <[l := OPlain (<["price" := VNum (round2 x)]> (fields o))]> h
  | None => h
  end.

Definition field_errors (l : loc) (o : object) (h : heap) : list string :=
  (if blank (field o "id")
   then ["ID is required and must be a string."] else [])
  ++ (if blank (field o "name")
      then ["Name is required and must be a non-empty string."] else [])
  ++ match usable_price (field o "price") with
     | Some _ => []
     | None => ["Price is required and must be a number."]
     end
  ++ match array_at (after_price l o h) (field o "tags") with
     | None => ["Tags are required and must be an array."]
     | Some es =>
         if existsb bad_tag es
         then ["All tags must be alphanumeric strings."] else []
     end.

Definition verdict (v : value) (errs : list string) : ValidationResult :=
  match errs with
  | [] => {| isValid := true; record := Some v; errors := None |}
  | _ => {| isValid := false; record := None; errors := Some errs |}
  end.

(** The two shapes of a result. *)
Definition valid_result (v : value) : ValidationResult :=
  {| isValid := true; record := Some v; errors := None |}.

Definition invalid_result (errs : list string) : ValidationResult :=
  {| isValid := false; record := None; errors := Some errs |}.

(** ** Sample data: the records of the test suite *)

Module Sample.

(** [validRecord] of the tests of [validateRecord], with its tags at
    location 1 and its dates at 2 and 3. *)
Definition validRecord : gmap string value :=
  list_to_map
    [("id", VStr "rec123"); ("name", VStr "Test Product");
     ("price", VNum (of_ratio false 9999 100));
     ("tags", VRef 1); ("createdAt", VRef 2); ("updatedAt", VRef 3)].

Definition heap_of (r : gmap string value) (tags : list value) : heap :=
  [OPlain r; OArray tags;
   ODate (Some 1672531200000%Z); ODate (Some 1672531200000%Z)].

Definition valid_heap : heap :=
  heap_of validRecord [VStr "electronics"; VStr "gadget"].

(** The same record with another price, or another name. *)
Definition priced (x : number) : heap :=
  heap_of (<["price" := VNum x]> validRecord)
          [VStr "electronics"; VStr "gadget"].

Definition named (s : string) (x : number) : heap :=
  heap_of (<["name" := VStr s]> (<["price" := VNum x]> validRecord))
          [VStr "electronics"; VStr "gadget"].

(** A heap for [updateRecordWithValidation]: the valid record at location 0
    as the base, and a change set at location 4, followed by the objects
    that the change set refers to. *)
Definition update_heap (changes : gmap string value) (more : list object) : heap :=
  valid_heap ++ OPlain changes :: more.

(** A change of name, tags and [updatedAt]. *)
Definition renamed : heap :=
  update_heap {["name" := VStr "Updated Product";
                "tags" := VRef 5; "updatedAt" := VRef 6]}
              [OArray [VStr "new"; VStr "tags"]; ODate (Some 0%Z)].

(** The base with the tags ["a", "b"], and the change set
    { tags: ["b", "a"] }. *)
Definition reordered : heap :=
  heap_of validRecord [VStr "a"; VStr "b"]
  ++ [OPlain {["tags" := VRef 5]}; OArray [VStr "b"; VStr "a"]].

(** The valid record with the price 123.4567. *)
Definition long_price : heap := priced (of_ratio false 1234567 10000).

(** March 15, 2023, 12:00:00 UTC: the clock of the test suite. *)
Definition clock : Z := 1678886400000.

(** The property [k] of the record that a run has returned. *)
Definition returned (run : heap * (error + ValidationResult)) (k : string)
    : option value :=
  match run.2 with
  | inr {| record := Some (VRef l) |} => (λ o, field o k) <$> run.1 !! l
  | _ => None
  end.

End Sample.

(** ** Relations between two states of the heap *)

(** Only the object that [v] refers to was written, and nothing was
    allocated. *)
Definition writes_to (v : value) (h h' : heap) : Prop :=
  length h' = length h ∧ ∀ l, v ≠ VRef l → h' !! l = h !! l.

(** ** Deep copies *)

(** [fits depth h v]: the value [v] of the heap [h] is a finite structure,
    without dangling references, that [deepCopy] walks with at most [depth]
    nested calls. *)
Fixpoint fits (depth : nat) (h : heap) (v : value) : bool :=
  match depth with
  | O => false
  | S d =>
      match v with
      | VRef l =>
          match h !! l with
          | Some (OPlain ps) | Some (OFrozen ps) =>
              forallb (fits d h) (map snd (map_to_list ps))
          | Some (OArray es) => forallb (fits d h) es
          | Some (ODate _) => true
          | None => false
          end
      | _ => true
      end
  end.

(** [deep_equal depth h v h' v']: the value [v] of the heap [h] and the value
    [v'] of the heap [h'] are equal in depth: the same primitive, or objects
    of the same kind whose properties, elements or time value are equal in
    depth.  A frozen object is equal in depth to a plain object, frozen or
    not, with properties equal in depth to its own. *)
Fixpoint deep_equal (depth : nat) (h : heap) (v : value)
    (h' : heap) (v' : value) : Prop :=
  match depth with
  | O => False
  | S d =>
      match v with
      | VRef l =>
          match h !! l with
          | Some (OPlain ps) =>
              ∃ l' ps', v' = VRef l' ∧ h' !! l' = Some (OPlain ps')
                ∧ ∀ k, option_Forall2 (λ x x', deep_equal d h x h' x')
                                      (ps !! k) (ps' !! k)
          | Some (OArray es) =>
              ∃ l' es', v' = VRef l' ∧ h' !! l' = Some (OArray es')
                ∧ Forall2 (λ x x', deep_equal d h x h' x') es es'
          | Some (ODate t) => ∃ l', v' = VRef l' ∧ h' !! l' = Some (ODate t)
          | Some (OFrozen ps) =>
              ∃ l' ps', v' = VRef l'
                ∧ (h' !! l' = Some (OPlain ps') ∨ h' !! l' = Some (OFrozen ps'))
                ∧ ∀ k, option_Forall2 (λ x x', deep_equal d h x h' x')
                                      (ps !! k) (ps' !! k)
          | None => False
          end
      | _ => v' = v
      end
  end.

(** [copy_of depth h v h' lo v']: [v'] is equal in depth to [v], and it is
    made of objects of its own: they lie at [lo] or above, and the
    properties of a plain object lie above the object. *)
Fixpoint copy_of (depth : nat) (h : heap) (v : value)
    (h' : heap) (lo : loc) (v' : value) : Prop :=
  match depth with
  | O => False
  | S d =>
      match v with
      | VRef l =>
          match h !! l with
          | Some (OPlain ps) | Some (OFrozen ps) =>
              ∃ l' ps', v' = VRef l' ∧ lo ≤ l' ∧ h' !! l' = Some (OPlain ps')
                ∧ ∀ k, option_Forall2 (λ x x', copy_of d h x h' (S l') x')
                                      (ps !! k) (ps' !! k)
          | Some (OArray es) =>
              ∃ l' es', v' = VRef l' ∧ lo ≤ l' ∧ h' !! l' = Some (OArray es')
                ∧ Forall2 (λ x x', copy_of d h x h' lo x') es es'
          | Some (ODate t) =>
              ∃ l', v' = VRef l' ∧ lo ≤ l' ∧ h' !! l' = Some (ODate t)
          | None => False
          end
      | _ => v' = v
      end
  end.

(** ** The change set *)

(** The own properties of [updates] in the heap [h]: the keys that the loop
    of [updateRecordWithValidation] visits, with their new values. *)
Definition change_set (h : heap) (updates : value) : gmap string value :=
  match updates with
  | VRef l => match h !! l with Some o => fields o | None => ∅ end
  | _ => ∅
  end.

(** [v] is a value of the heap [h]: a primitive, or a reference to one of
    its objects. *)
Definition value_of (h : heap) (v : value) : Prop :=
  ∀ l, v = VRef l → l < length h.

(** ** Heaps without dangling references *)

Definition in_heap (n : nat) (v : value) : bool :=
  match v with VRef l => l <? n | _ => true end.

(** Every reference held by an object of the heap is to an object of the
    heap. *)
Definition closed (h : heap) : bool :=
  forallb (λ o, match o with
                | OPlain ps | OFrozen ps =>
                    forallb (in_heap (length h)) (map snd (map_to_list ps))
                | OArray es => forallb (in_heap (length h)) es
                | ODate _ => true
                end) h.

(** A base record with a nested object, an array in it and a date, for
    [deepCopy]. *)
Definition nested_heap : heap :=
  [OPlain {["details" := VRef 1; "createdAt" := VRef 3; "quantity" := VNull]};
   OPlain {["sizes" := VRef 2; "color" := VStr "blue"]};
   OArray [VNum (Zero false); VStr "xl"];
   ODate (Some 1672531200000%Z)].

(** A change of price to 50.004. *)
Definition repriced : heap :=
  Sample.update_heap {["price" := VNum (of_ratio false 50004 1000)]} [].

(** An empty change set. *)
Definition unchanged : heap := Sample.update_heap ∅ [].

(** Other tags, ["new", "tags"], for the record whose tags are
    ["electronics", "gadget"]. *)
Definition retagged : heap :=
  Sample.update_heap {["tags" := VRef 5]} [OArray [VStr "new"; VStr "tags"]].

(** ** Reading a serialised string back *)

(** The character that an escape of [json_escape] stands for, and what
    follows the escape: the inverse of [json_escape], which shows that no
    two arrays of strings have the same serialised form. *)
Definition hex_value (c : ascii) : nat :=
  let n := nat_of_ascii c in if n <? 58 then n - 48 else n - 87.

Definition json_unescape (s : string) : option (ascii * string) :=
  match s with
  | EmptyString => None
  | String a r =>
      if nat_of_ascii a =? 92 then
        match r with
        | EmptyString => None
        | String b r' =>
            let n := nat_of_ascii b in
            if n =? 34 then Some (ascii_of_nat 34, r')
            else if n =? 92 then Some (ascii_of_nat 92, r')
            else if n =? 98 then Some (ascii_of_nat 8, r')
            else if n =? 116 then Some (ascii_of_nat 9, r')
            else if n =? 110 then Some (ascii_of_nat 10, r')
            else if n =? 102 then Some (ascii_of_nat 12, r')
            else if n =? 114 then Some (ascii_of_nat 13, r')
            else
              match r' with
              | String _ (String _ (String x (String y r''))) =>
                  Some (ascii_of_nat (16 * hex_value x + hex_value y), r'')
              | _ => None
              end
        end
      else Some (a, r)
  end.

(** The valid record with the price 123.4567, frozen. *)
Definition frozen_heap : heap :=
  [OFrozen (<["price" := VNum (of_ratio false 1234567 10000)]> Sample.validRecord);
   OArray [VStr "electronics"; VStr "gadget"];
   ODate (Some 1672531200000%Z); ODate (Some 1672531200000%Z)].


(** ** The key [__proto__] *)

(** No object of the heap has an own property named [__proto__].  Under
    this key [copy[key] = x] makes no property: it replaces the prototype
    of [copy], or does nothing when [x] is a primitive, and what [copy]
    then answers under other keys may come from [x].  [set_prop] has no
    prototype to replace; what is proved of the properties that a copy has
    is proved for the heaps without such a key. *)
Definition proto_free (h : heap) : bool :=
  forallb (λ o, bool_decide (fields o !! "__proto__" = None)) h.

(** ** Cycles *)

(** [child h l l']: the object at [l] holds a reference to the object at
    [l'], as the value of a property or as an element. *)
Definition child (h : heap) (l l' : loc) : Prop :=
  match h !! l with
  | Some (OPlain ps) | Some (OFrozen ps) => ∃ k, ps !! k = Some (VRef l')
  | Some (OArray es) => VRef l' ∈ es
  | _ => False
  end.

(** [v] has a cycle: it refers to an object from which references lead to an
    object that they lead back to. *)
Definition cyclic (h : heap) (v : value) : Prop :=
  ∃ l l', v = VRef l ∧ rtc (child h) l l' ∧ tc (child h) l' l'.

(** The valid record with the tags ["a", "b"] and a reference to itself,
    and the change set { tags: ["b", "a"] }. *)
Definition looped : heap :=
  Sample.heap_of (<["self" := VRef 0]> Sample.validRecord) [VStr "a"; VStr "b"]
  ++ [OPlain {["tags" := VRef 5]}; OArray [VStr "b"; VStr "a"]].

(** * Properties *)

(** ** Rounding: the cases of the tests *)

Example round2_123_4567 :
  round2 (of_ratio false 1234567 10000) = of_ratio false 12346 100.
Proof. vm_compute. reflexivity. Qed.

Example round2_50_004 :
  round2 (of_ratio false 50004 1000) = of_ratio false 50 1.
Proof. vm_compute. reflexivity. Qed.

Example round2_small_negative :
  round2 (of_ratio true 1 1000) = Zero true /\ round2 (Zero true) = Zero false.
Proof. vm_compute. split; reflexivity. Qed.

(** ** Running the monad *)

Section Run.
Context {A B : Type}.
Implicit Types (c : M A) (k : A → M B) (h : heap).

Lemma run_bind c k h h1 a :
  c h = (h1, inr a) → bind c k h = k a h1.
Proof. unfold bind. by intros ->. Qed.

Lemma run_bind_throw c k h h1 e :
  c h = (h1, inl e) → bind c k h = (h1, inl e).
Proof. unfold bind. by intros ->. Qed.

Lemma bind_inv c k h h' r :
  bind c k h = (h', r) →
  (∃ e, c h = (h', inl e) ∧ r = inl e)
  ∨ (∃ h1 a, c h = (h1, inr a) ∧ k a h1 = (h', r)).
Proof.
  unfold bind. destruct (c h) as [h1 [e|a]]; intros Heq.
  - left. exists e. by simplify_eq.
  - right. by exists h1, a.
Qed.
End Run.

(** Pure readings of the type tests. *)
Lemma typeof_is_string v :
  bool_decide (typeof v = "string") = match v with VStr _ => true | _ => false end.
Proof. by destruct v. Qed.

Lemma typeof_is_number v :
  bool_decide (typeof v = "number") = match v with VNum _ => true | _ => false end.
Proof. by destruct v. Qed.

Lemma typeof_is_object v :
  bool_decide (typeof v = "object")
  = match v with VNull | VRef _ => true | _ => false end.
Proof. by destruct v. Qed.

(** ** [validateRecord], step by step *)

Lemma get_prop_run l o k h :
  h !! l = Some o → is_array_key k = false →
  get_prop (VRef l) k h = (h, inr (field o k)).
Proof.
  intros Hl Hk. unfold get_prop, deref, bind. rewrite Hl.
  destruct o; simpl; by rewrite ?Hk.
Qed.

Lemma get_prop_dangling l k h :
  h !! l = None → get_prop (VRef l) k h = (h, inl Unmodelled).
Proof. intros Hl. unfold get_prop, deref, bind. by rewrite Hl. Qed.

Lemma blank_run v h :
  or_else (negb (bool_decide (typeof v = "string")))
          (let! s := trim v in ret (String.length s =? 0)%nat) h
  = (h, inr (blank v)).
Proof. rewrite typeof_is_string. by destruct v. Qed.

Lemma price_test_run v h :
  or_else (negb (bool_decide (typeof v = "number"))) (global_isNaN v) h
  = (h, inr (match usable_price v with Some _ => false | None => true end)).
Proof. rewrite typeof_is_number. destruct v as [| | |x| |]; try done. by destruct x. Qed.

Lemma isArray_run v h :
  isArray v h = (h, inr (match array_at h v with Some _ => true | None => false end)).
Proof.
  unfold isArray, array_at. destruct v as [| | | | |l]; try done.
  by destruct (h !! l) as [[]|].
Qed.

Lemma array_elems_run v h es :
  array_at h v = Some es → array_elems v h = (h, inr es).
Proof.
  unfold array_at, array_elems, deref, bind. destruct v as [| | | | |l]; try done.
  destruct (h !! l) as [[]|]; try done. by intros [= ->].
Qed.

Lemma set_price_run l o x h :
  h !! l = Some o → usable_price (field o "price") = Some x →
  read_only o = false →
  set_prop (VRef l) "price" (VNum (parseFloat (toFixed2 x))) h
  = (after_price l o h, inr ())
  ∧ after_price l o h !! l
    = Some (OPlain (<["price" := VNum (round2 x)]> (fields o))).
Proof.
  intros Hl Hx Hw. unfold after_price. rewrite Hx, Hw.
  assert (∃ ps, o = OPlain ps) as [ps ->].
  { destruct o; eauto; try done; unfold field in Hx; simpl in Hx;
      by rewrite lookup_empty in Hx. }
  split.
  - unfold set_prop, deref, bind, store. by rewrite Hl.
  - apply list_lookup_insert_eq. by eapply lookup_lt_Some.
Qed.

Lemma after_price_lookup l o h :
  h !! l = Some o →
  ∃ o', after_price l o h !! l = Some o'
        ∧ ∀ k, k ≠ "price" → field o' k = field o k.
Proof.
  intros Hl. unfold after_price.
  destruct (usable_price (field o "price")) as [x|] eqn:Hx; [|by eauto].
  destruct (read_only o); [by eauto|].
  eexists. split.
  - apply list_lookup_insert_eq. by eapply lookup_lt_Some.
  - intros k Hk. unfold field. simpl. by rewrite lookup_insert_ne.
Qed.

(** [validateRecord] on an object, in one step: the heap it leaves and the
    result it returns. *)
Lemma validateRecord_run l o h :
  h !! l = Some o → throws_on_price o = false →
  validateRecord (VRef l) h
  = (after_price l o h, inr (verdict (VRef l) (field_errors l o h))).
Proof.
  intros Hl Hw. unfold validateRecord, field_errors.
  rewrite typeof_is_object. simpl.
  rewrite (run_bind _ _ _ _ _ (get_prop_run l o "id" h Hl eq_refl)).
  rewrite (run_bind _ _ _ _ _ (blank_run _ h)).
  rewrite (run_bind _ _ _ _ _ (get_prop_run l o "name" h Hl eq_refl)).
  rewrite (run_bind _ _ _ _ _ (blank_run _ h)).
  rewrite (run_bind _ _ _ _ _ (get_prop_run l o "price" h Hl eq_refl)).
  rewrite (run_bind _ _ _ _ _ (price_test_run _ h)).
  destruct (after_price_lookup l o h Hl) as (o' & Hl' & Hsame).
  assert (∀ (k : list string → M ValidationResult) errs,
    bind (if match usable_price (field o "price") with
                | Some _ => false | None => true end
          then ret (errs ++ ["Price is required and must be a number."])
          else (let! d := toFixed (field o "price") in
                set_prop (VRef l) "price" (VNum (parseFloat d));; ret errs)) k h
    = k (errs ++ match usable_price (field o "price") with
                 | Some _ => []
                 | None => ["Price is required and must be a number."]
                 end)
        (after_price l o h)) as Hprice.
  { intros k errs. destruct (usable_price (field o "price")) as [x|] eqn:Hx.
    - destruct (set_price_run l o x h Hl Hx) as [Hset _].
      { unfold throws_on_price in Hw. rewrite Hx in Hw.
        by destruct (read_only o). }
      destruct (field o "price") as [| | |y| |] eqn:Hp; try done.
      simpl in Hx. destruct (Num.isNaN y); simplify_eq.
      rewrite app_nil_r. unfold bind, toFixed, ret in *. by rewrite Hset.
    - unfold after_price. rewrite Hx. done. }
  rewrite Hprice. clear Hprice.
  rewrite (run_bind _ _ _ _ _ (get_prop_run l o' "tags" _ Hl' eq_refl)).
  rewrite Hsame by done.
  rewrite (run_bind _ _ _ _ _ (isArray_run _ _)).
  destruct (array_at (after_price l o h) (field o "tags")) as [es|] eqn:Harr.
  - unfold bind. cbn [negb]. rewrite (array_elems_run _ _ _ Harr).
    destruct (blank (field o "id")), (blank (field o "name")),
      (usable_price (field o "price")), (existsb bad_tag es); reflexivity.
  - unfold bind. cbn [negb].
    destruct (blank (field o "id")), (blank (field o "name")),
      (usable_price (field o "price")); reflexivity.
Qed.

(** On a frozen object whose price passes the test, the write of the
    rounded price throws, and the heap is as it was. *)
Lemma validateRecord_throws l o h :
  h !! l = Some o → throws_on_price o = true →
  validateRecord (VRef l) h = (h, inl TypeError).
Proof.
  intros Hl Hw. unfold validateRecord.
  rewrite typeof_is_object. simpl.
  rewrite (run_bind _ _ _ _ _ (get_prop_run l o "id" h Hl eq_refl)).
  rewrite (run_bind _ _ _ _ _ (blank_run _ h)).
  rewrite (run_bind _ _ _ _ _ (get_prop_run l o "name" h Hl eq_refl)).
  rewrite (run_bind _ _ _ _ _ (blank_run _ h)).
  rewrite (run_bind _ _ _ _ _ (get_prop_run l o "price" h Hl eq_refl)).
  rewrite (run_bind _ _ _ _ _ (price_test_run _ h)).
  unfold throws_on_price in Hw. apply andb_true_iff in Hw as [Hro Hx].
  destruct o as [| | |ps]; try done.
  destruct (field (OFrozen ps) "price") as [| | |x| |]; try done.
  simpl in Hx |- *. destruct (Num.isNaN x); [done|].
  unfold bind, toFixed, ret, set_prop, deref, throw. by rewrite Hl.
Qed.

(** A call on a reference that has returned. *)
Lemma validateRecord_returned l h h' res :
  validateRecord (VRef l) h = (h', inr res) →
  ∃ o, h !! l = Some o ∧ throws_on_price o = false
       ∧ h' = after_price l o h
       ∧ res = verdict (VRef l) (field_errors l o h).
Proof.
  intros Hrun. destruct (h !! l) as [o|] eqn:Hl.
  - destruct (throws_on_price o) eqn:Hw;
      [by rewrite (validateRecord_throws l o h Hl Hw) in Hrun|].
    rewrite (validateRecord_run l o h Hl Hw) in Hrun. simplify_eq. by exists o.
  - unfold validateRecord in Hrun. rewrite typeof_is_object in Hrun.
    cbn [negb orb] in Hrun. rewrite bool_decide_eq_false_2 in Hrun by done.
    by rewrite (run_bind_throw _ _ _ _ _ (get_prop_dangling l "id" h Hl)) in Hrun.
Qed.

(** A candidate with a price that passes, on which the call has returned,
    is not frozen. *)
Lemma returned_writable l o x h h' res :
  validateRecord (VRef l) h = (h', inr res) →
  h !! l = Some o → usable_price (field o "price") = Some x →
  read_only o = false.
Proof.
  intros Hrun Hl Hx. destruct (read_only o) eqn:Hro; [|done].
  assert (throws_on_price o = true) as Hw
    by (unfold throws_on_price; by rewrite Hro, Hx).
  by rewrite (validateRecord_throws l o h Hl Hw) in Hrun.
Qed.

Lemma validateRecord_not_object v h :
  (∀ l, v ≠ VRef l) →
  validateRecord v h
  = (h, inr {| isValid := false; record := None;
               errors := Some ["Record must be an object."] |}).
Proof. intros Hv. destruct v; try done. by destruct (Hv l). Qed.

Lemma verdict_valid v errs res :
  verdict v errs = res → isValid res = true →
  errs = [] ∧ res = {| isValid := true; record := Some v; errors := None |}.
Proof. destruct errs; intros <-; by simpl. Qed.

Lemma validateRecord_valid_inv v h h' res :
  validateRecord v h = (h', inr res) → isValid res = true →
  ∃ l o, v = VRef l ∧ h !! l = Some o ∧ h' = after_price l o h
         ∧ field_errors l o h = []
         ∧ res = {| isValid := true; record := Some v; errors := None |}.
Proof.
  intros Hrun Hvalid. destruct v as [| | | | |l];
    try (rewrite validateRecord_not_object in Hrun by done; by simplify_eq).
  destruct (h !! l) as [o|] eqn:Hl.
  - destruct (throws_on_price o) eqn:Hw;
      [by rewrite (validateRecord_throws l o h Hl Hw) in Hrun|].
    rewrite (validateRecord_run l o h Hl Hw) in Hrun. simplify_eq.
    destruct (verdict_valid _ _ _ eq_refl Hvalid) as [? ?]. by exists l, o.
  - unfold validateRecord in Hrun. rewrite typeof_is_object in Hrun.
    cbn [negb orb] in Hrun. rewrite bool_decide_eq_false_2 in Hrun by done.
    rewrite (run_bind_throw _ _ _ _ _ (get_prop_dangling l "id" h Hl)) in Hrun.
    simplify_eq.
Qed.

(** The errors of a valid record are none: each test passed. *)
Lemma field_errors_nil l o h :
  field_errors l o h = [] →
  blank (field o "id") = false ∧ blank (field o "name") = false
  ∧ (∃ x, usable_price (field o "price") = Some x)
  ∧ ∃ es, array_at (after_price l o h) (field o "tags") = Some es
          ∧ existsb bad_tag es = false.
Proof.
  unfold field_errors.
  destruct (blank (field o "id")); [done|].
  destruct (blank (field o "name")); [done|].
  destruct (usable_price (field o "price")) as [x|]; [|done].
  destruct (array_at _ _) as [es|]; [|done].
  destruct (existsb bad_tag es) eqn:?; [done|]. eauto 10.
Qed.

Lemma usable_price_Some v x :
  usable_price v = Some x → v = VNum x ∧ Num.isNaN x = false.
Proof.
  destruct v as [| | |y| |]; try done. simpl.
  destruct (Num.isNaN y) eqn:?; [done|]. by intros [= ->].
Qed.

(** ** [validateRecord]: the claims *)

(** C10.  An array is not stopped by the structural test: it goes through the
    four field tests and fails each of them, and is left as it was. *)
Theorem validateRecord_array h l es :
  h !! l = Some (OArray es) →
  validateRecord (VRef l) h
  = (h, inr {| isValid := false; record := None;
               errors := Some ["ID is required and must be a string.";
                               "Name is required and must be a non-empty string.";
                               "Price is required and must be a number.";
                               "Tags are required and must be an array."] |}).
Proof. intros Hl. by rewrite (validateRecord_run l _ h Hl). Qed.

Lemma validateRecord_array_witness :
  validateRecord (VRef 1) Sample.valid_heap
  = (Sample.valid_heap,
     inr (invalid_result
            ["ID is required and must be a string.";
             "Name is required and must be a non-empty string.";
             "Price is required and must be a number.";
             "Tags are required and must be an array."])).
Proof.
  apply (validateRecord_array Sample.valid_heap 1
           [VStr "electronics"; VStr "gadget"]).
  reflexivity.
Defined.




(** C5.  When [validateRecord] succeeds, the result is valid, its record is
    the candidate itself, and the candidate's price is now its former price
    rounded to two decimal places. *)
Theorem validateRecord_rounds_price v h h' res :
  validateRecord v h = (h', inr res) → isValid res = true →
  ∃ l o o' x,
    v = VRef l ∧ record res = Some (VRef l)
    ∧ h !! l = Some o ∧ field o "price" = VNum x
    ∧ h' !! l = Some o' ∧ field o' "price" = VNum (round2 x).
Proof.
  intros Hrun Hvalid.
  destruct (validateRecord_valid_inv _ _ _ _ Hrun Hvalid)
    as (l & o & -> & Hl & -> & Herrs & ->).
  destruct (field_errors_nil _ _ _ Herrs) as (_ & _ & [x Hx] & _).
  destruct (set_price_run l o x h Hl Hx) as [_ Hl'];
    [by eapply returned_writable|].
  destruct (usable_price_Some _ _ Hx) as [Hp _].
  exists l, o, (OPlain (<["price" := VNum (round2 x)]> (fields o))), x.
  repeat split; try done.
  unfold field. simpl. by rewrite lookup_insert_eq.
Qed.

Lemma validateRecord_rounds_price_witness :
  ∃ l o o' x,
    VRef 0 = VRef l ∧ Some (VRef 0) = Some (VRef l)
    ∧ Sample.long_price !! l = Some o
    ∧ field o "price" = VNum x
    ∧ (validateRecord (VRef 0) Sample.long_price).1 !! l = Some o'
    ∧ field o' "price" = VNum (round2 x).
Proof.
  apply (validateRecord_rounds_price (VRef 0) Sample.long_price _
           (valid_result (VRef 0))).
  - vm_compute. reflexivity.
  - reflexivity.
Defined.

(** C6, as stated, fails: a frozen record whose price is a number keeps its
    price as it is, since the write of the rounded price throws. *)
Lemma validateRecord_frozen_price_kept :
  ¬ (∀ l o x h,
       h !! l = Some o → field o "price" = VNum x → Num.isNaN x = false →
       ∃ o', (validateRecord (VRef l) h).1 !! l = Some o'
             ∧ field o' "price" = VNum (round2 x)).
Proof.
  intros Hclaim.
  destruct (Hclaim 0 _ (of_ratio false 1234567 10000) frozen_heap eq_refl)
    as (o' & Hl & Hp).
  - vm_compute. reflexivity.
  - reflexivity.
  - vm_compute in Hl. injection Hl as <-. vm_compute in Hp. discriminate Hp.
Qed.

(** C6, amended.  On a plain object that is not frozen, whose price is a
    number other than NaN, [validateRecord] leaves the heap as it was but
    for the price of the candidate, now rounded to two decimal places, and
    it returns a result, valid or not. *)
Theorem validateRecord_price_in_place l ps x h :
  h !! l = Some (OPlain ps) → ps !! "price" = Some (VNum x) →
  Num.isNaN x = false →
  ∃ res,
    validateRecord (VRef l) h
    = (<[l := OPlain (<["price" := VNum (round2 x)]> ps)]> h, inr res).
Proof.
  intros Hl Hp Hx. rewrite (validateRecord_run l _ h Hl eq_refl).
  eexists. f_equal. unfold after_price, field. simpl. rewrite Hp. simpl.
  by rewrite Hx.
Qed.

Lemma validateRecord_price_in_place_witness :
  ∃ res,
    validateRecord (VRef 0) (Sample.named "   " (of_ratio false 1234567 10000))
    = (<[0 := OPlain (<["price" := VNum (round2 (of_ratio false 1234567 10000))]>
                        (<["name" := VStr "   "]>
                           (<["price" := VNum (of_ratio false 1234567 10000)]>
                              Sample.validRecord)))]>
         (Sample.named "   " (of_ratio false 1234567 10000)),
       inr res).
Proof.
  apply (validateRecord_price_in_place 0 _ (of_ratio false 1234567 10000)).
  - reflexivity.
  - vm_compute. reflexivity.
  - reflexivity.
Defined.

(** The result of that call is a failure, on the name alone. *)
Example price_rounded_on_failure :
  (validateRecord (VRef 0) (Sample.named "   " (of_ratio false 1234567 10000))).2
  = inr (invalid_result
           ["Name is required and must be a non-empty string."]).
Proof. vm_compute. reflexivity. Qed.

(** C3, as stated, fails: a record whose price is infinite is accepted. *)
Lemma validateRecord_accepts_infinite_price :
  ¬ (∀ v h h' res,
       validateRecord v h = (h', inr res) → isValid res = true →
       ∃ l o x, v = VRef l ∧ h !! l = Some o
                ∧ field o "price" = VNum x ∧ Num.is_finite x = true).
Proof.
  intros Hclaim.
  destruct (Hclaim (VRef 0) (Sample.priced (Infinity false))
              (Sample.priced (Infinity false)) (valid_result (VRef 0)))
    as (l & o & x & [= <-] & Hl & Hp & Hfin).
  - vm_compute. reflexivity.
  - reflexivity.
  - vm_compute in Hl. injection Hl as <-. vm_compute in Hp. by simplify_eq.
Qed.

(** C3, amended.  [validateRecord] succeeds only when the price is a number
    other than NaN; the number may be infinite. *)
Theorem validateRecord_valid_price v h h' res :
  validateRecord v h = (h', inr res) → isValid res = true →
  ∃ l o x, v = VRef l ∧ h !! l = Some o
           ∧ field o "price" = VNum x ∧ Num.isNaN x = false.
Proof.
  intros Hrun Hvalid.
  destruct (validateRecord_valid_inv _ _ _ _ Hrun Hvalid)
    as (l & o & -> & Hl & -> & Herrs & ->).
  destruct (field_errors_nil _ _ _ Herrs) as (_ & _ & [x Hx] & _).
  destruct (usable_price_Some _ _ Hx) as [Hp Hnan].
  by exists l, o, x.
Qed.

Lemma validateRecord_valid_price_witness :
  ∃ l o x, VRef 0 = VRef l ∧ Sample.priced (Infinity true) !! l = Some o
           ∧ field o "price" = VNum x ∧ Num.isNaN x = false.
Proof.
  apply (validateRecord_valid_price (VRef 0) (Sample.priced (Infinity true))
           (Sample.priced (Infinity true)) (valid_result (VRef 0))).
  - vm_compute. reflexivity.
  - reflexivity.
Defined.

(** ** Frames: what a computation leaves alone *)

Ltac thrown Heq :=
  lazymatch type of Heq with
  | inr _ = inl _ => discriminate Heq
  | ?r = inl _ => subst r
  end.

Tactic Notation "inv_bind" hyp(H) "as" ident(h1) ident(a) ident(H1) :=
  let Heq := fresh "Heq" in
  apply bind_inv in H as [(? & H1 & Heq)|(h1 & a & H1 & H)]; [thrown Heq|].

Lemma prefix_of_lookups (h h' : heap) :
  length h ≤ length h' → (∀ l o, h !! l = Some o → h' !! l = Some o) →
  h `prefix_of` h'.
Proof.
  intros Hlen Hsame. exists (drop (length h) h').
  rewrite <- (take_drop (length h) h') at 1. f_equal.
  apply list_eq. intros l. destruct (decide (l < length h)) as [Hl|Hl].
  - rewrite lookup_take_lt by done.
    destruct (lookup_lt_is_Some_2 h l Hl) as [o Ho]. by rewrite Ho, (Hsame l o Ho).
  - rewrite lookup_take_ge by lia. by rewrite lookup_ge_None_2 by lia.
Qed.

Lemma prefix_of_alloc (h : heap) o : h `prefix_of` h ++ [o].
Proof. by apply prefix_app_r. Qed.

Lemma prefix_of_store (h0 h : heap) l o :
  h0 `prefix_of` h → length h0 ≤ l → h0 `prefix_of` <[l := o]> h.
Proof.
  intros [k ->] Hl. rewrite insert_app_r_alt by done. by apply prefix_app_r.
Qed.

#[global] Instance writes_to_refl v : Reflexive (writes_to v).
Proof. by intros h. Qed.

#[global] Instance writes_to_trans v : Transitive (writes_to v).
Proof.
  intros h1 h2 h3 [Hlen1 H1] [Hlen2 H2]. split; [congruence|].
  intros l Hl. by rewrite H2, H1.
Qed.

Lemma writes_to_prefix h0 h h' v :
  h0 `prefix_of` h → writes_to v h h' →
  (∀ l, v = VRef l → length h0 ≤ l) → h0 `prefix_of` h'.
Proof.
  intros Hpre [Hlen Hsame] Hv. apply prefix_of_lookups.
  - rewrite Hlen. by apply prefix_length.
  - intros l o Hl. rewrite Hsame.
    + by eapply prefix_lookup_Some.
    + intros ->. apply lookup_lt_Some in Hl. specialize (Hv l eq_refl). lia.
Qed.

(** Loops keep what each of their turns keeps. *)
Lemma forM_invariant {A} (I : heap → Prop) (l : list A) (body : A → M unit) :
  (∀ a h h' r, a ∈ l → I h → body a h = (h', r) → I h') →
  ∀ h h' r, I h → forM l body h = (h', r) → I h'.
Proof.
  induction l as [|a l IH]; intros Hbody h h' r HI Hrun.
  - simpl in Hrun. unfold ret in Hrun. by simplify_eq.
  - simpl in Hrun. inv_bind Hrun as h1 u H1.
    + eapply Hbody; [apply list_elem_of_here|done..].
    + eapply IH; [|by eapply (Hbody a); [apply list_elem_of_here|..]|done].
      intros a' ?????. eapply Hbody; [by apply list_elem_of_further|done..].
Qed.

Lemma mapM_invariant {A B} (I : heap → Prop) (f : A → M B) (l : list A) :
  (∀ a h h' r, a ∈ l → I h → f a h = (h', r) → I h') →
  ∀ h h' r, I h → mapM f l h = (h', r) → I h'.
Proof.
  induction l as [|a l IH]; intros Hf h h' r HI Hrun.
  - simpl in Hrun. unfold ret in Hrun. by simplify_eq.
  - simpl in Hrun. inv_bind Hrun as h1 b H1.
    + eapply Hf; [apply list_elem_of_here|done..].
    + assert (I h1) by (eapply (Hf a); [apply list_elem_of_here|done..]).
      assert (∀ a' h h' r, a' ∈ l → I h → f a' h = (h', r) → I h') as Hf'.
      { intros a' ?????. eapply Hf; [by apply list_elem_of_further|done..]. }
      inv_bind Hrun as h2 bs H2; [by eapply IH|].
      unfold ret in Hrun. simplify_eq. by eapply IH.
Qed.

(** Reads leave the heap as it is. *)
Lemma deref_heap l h h' r : deref l h = (h', r) → h' = h.
Proof. unfold deref. destruct (h !! l); by intros [= <- _]. Qed.

Lemma get_prop_heap v k h h' r : get_prop v k h = (h', r) → h' = h.
Proof.
  unfold get_prop, bind, deref, ret, throw. destruct v as [| | | | |l]; try by intros [= <- _].
  - destruct (is_array_key k); by intros [= <- _].
  - destruct (h !! l) as [[]|]; try destruct (is_array_key k); by intros [= <- _].
Qed.

Lemma own_keys_heap v h h' r : own_keys v h = (h', r) → h' = h.
Proof.
  unfold own_keys, bind, deref, ret, throw. destruct v as [| | | | |l]; try by intros [= <- _].
  destruct (h !! l) as [[]|]; by intros [= <- _].
Qed.

Lemma array_elems_heap v h h' r : array_elems v h = (h', r) → h' = h.
Proof.
  unfold array_elems, bind, deref, ret, throw. destruct v as [| | | | |l]; try by intros [= <- _].
  destruct (h !! l) as [[]|]; by intros [= <- _].
Qed.

Lemma getTime_heap v h h' r : getTime v h = (h', r) → h' = h.
Proof.
  unfold getTime, bind, deref, ret, throw. destruct v as [| | | | |l]; try by intros [= <- _].
  destruct (h !! l) as [[]|]; by intros [= <- _].
Qed.

Lemma toFixed_heap v h h' r : toFixed v h = (h', r) → h' = h.
Proof. destruct v; unfold toFixed, ret, throw; by intros [= <- _]. Qed.

Lemma strings_of_heap vs h h' r : strings_of vs h = (h', r) → h' = h.
Proof.
  intros Hrun. eapply (mapM_invariant (λ h1, h1 = h)); [|done|exact Hrun].
  intros v h1 h2 r2 _ -> H. destruct v; unfold ret, throw in H; by simplify_eq.
Qed.

Lemma array_sort_heap vs h h' r : array_sort vs h = (h', r) → h' = h.
Proof.
  unfold array_sort. intros H. inv_bind H as h1 ss H1.
  - by eapply strings_of_heap.
  - apply strings_of_heap in H1 as ->. unfold ret in H. by simplify_eq.
Qed.

Lemma JSON_stringify_heap vs h h' r : JSON_stringify vs h = (h', r) → h' = h.
Proof.
  unfold JSON_stringify. intros H. inv_bind H as h1 ss H1.
  - by eapply strings_of_heap.
  - apply strings_of_heap in H1 as ->. unfold ret in H. by simplify_eq.
Qed.

(** A write goes to the object written, and to nothing else. *)
Lemma set_prop_writes v k x h h' r :
  set_prop v k x h = (h', r) → writes_to v h h'.
Proof.
  unfold set_prop, bind, deref, store, ret, throw.
  destruct v as [| | | | |l]; try by intros [= <- _].
  destruct (h !! l) as [[ps| | |ps]|]; intros [= <- _]; try done.
  split; [by rewrite length_insert|].
  intros l' Hl'. apply list_lookup_insert_ne. congruence.
Qed.

Lemma validateRecord_writes v h h' r :
  validateRecord v h = (h', r) → writes_to v h h'.
Proof.
  destruct v as [| | | | |l];
    try (rewrite validateRecord_not_object by done; by intros [= <- _]).
  destruct (h !! l) as [o|] eqn:Hl.
  - destruct (throws_on_price o) eqn:Hw;
      [rewrite (validateRecord_throws l o h Hl Hw); by intros [= <- _]|].
    rewrite (validateRecord_run l o h Hl Hw). intros [= <- _].
    unfold after_price. destruct (usable_price _); [|done].
    destruct (read_only o); [done|].
    split; [by rewrite length_insert|].
    intros l' Hl'. apply list_lookup_insert_ne. congruence.
  - unfold validateRecord. rewrite typeof_is_object.
    cbn [negb orb]. rewrite bool_decide_eq_false_2 by done.
    rewrite (run_bind_throw _ _ _ _ _ (get_prop_dangling l "id" h Hl)).
    by intros [= <- _].
Qed.

(** ** [deepCopy] leaves every object of the heap as it is *)

Lemma ref_or_not v : (∃ l, v = VRef l) ∨ (∀ l, v ≠ VRef l).
Proof. destruct v; eauto. Qed.

Lemma deepCopy_S depth obj :
  deepCopy (S depth) obj
  = if bool_decide (obj = VNull) || negb (bool_decide (typeof obj = "object"))
    then ret obj
    else
      let! is_date := instanceof_Date obj in
      if is_date then
        let! t := getTime obj in new_Date t
      else
        let! is_array := isArray obj in
        if is_array then
          let! elems := array_elems obj in
          let! items := mapM (deepCopy depth) elems in
          alloc (OArray items)
        else
          let! copy := alloc (OPlain ∅) in
          let! keys := own_keys obj in
          forM keys (λ key,
            let! x := get_prop obj key in
            let! x' := deepCopy depth x in
            set_prop copy key x');;
          ret copy.
Proof. reflexivity. Qed.

Lemma deepCopy_primitive depth v h :
  (∀ l, v ≠ VRef l) → deepCopy (S depth) v h = (h, inr v).
Proof. intros Hv. rewrite deepCopy_S. destruct v; try done. by destruct (Hv l). Qed.

(** The heap that [deepCopy] leaves starts with the heap it was given; its
    result is the argument itself for a primitive, and a new object
    otherwise. *)
Lemma deepCopy_frame depth v h h' r :
  deepCopy depth v h = (h', r) →
  h `prefix_of` h'
  ∧ ∀ v', r = inr v' →
      (v' = v ∧ ∀ l, v ≠ VRef l) ∨ (∃ lc, v' = VRef lc ∧ length h ≤ lc).
Proof.
  revert v h h' r. induction depth as [|d IH]; intros v h h' r Hrun.
  { unfold deepCopy, throw in Hrun. by simplify_eq. }
  destruct (ref_or_not v) as [[l ->]|Hprim].
  2:{ rewrite deepCopy_primitive in Hrun by done. simplify_eq.
      split; [done|]. intros v' [= <-]. by left. }
  rewrite deepCopy_S in Hrun. rewrite typeof_is_object in Hrun.
  rewrite bool_decide_eq_false_2 in Hrun by done. cbn [negb orb] in Hrun.
  inv_bind Hrun as h1 is_date H1; [by unfold instanceof_Date in H1|].
  assert (h1 = h) as -> by (unfold instanceof_Date in H1; by simplify_eq).
  clear H1. destruct is_date.
  { inv_bind Hrun as h1 t H1.
    - apply getTime_heap in H1 as ->. by split.
    - apply getTime_heap in H1 as ->. unfold new_Date, alloc in Hrun.
      simplify_eq. split; [apply prefix_of_alloc|].
      intros v' [= <-]. right. by exists (length h). }
  inv_bind Hrun as h1 is_array H1; [by unfold isArray in H1|].
  assert (h1 = h) as -> by (unfold isArray in H1; by simplify_eq).
  clear H1. destruct is_array.
  { inv_bind Hrun as h1 elems H1.
    { apply array_elems_heap in H1 as ->. by split. }
    apply array_elems_heap in H1 as ->.
    assert (∀ h2 r2, mapM (deepCopy d) elems h = (h2, r2) → h `prefix_of` h2)
      as Hitems.
    { intros h2 r2. apply (mapM_invariant (λ h1, h `prefix_of` h1)); [|done].
      intros x h3 h4 r4 _ Hpre Hx. etrans; [done|]. by eapply IH. }
    inv_bind Hrun as h2 items H2.
    { split; [by eapply Hitems|done]. }
    apply Hitems in H2. unfold alloc in Hrun. simplify_eq. split.
    - etrans; [done|]. apply prefix_of_alloc.
    - intros v' [= <-]. right. exists (length h2). split; [done|].
      by apply prefix_length. }
  inv_bind Hrun as h1 copy H1; [by unfold alloc in H1|].
  unfold alloc in H1. simplify_eq.
  inv_bind Hrun as h1 keys H1.
  { apply own_keys_heap in H1 as ->. split; [apply prefix_of_alloc|done]. }
  apply own_keys_heap in H1 as ->.
  assert (∀ h2 r2,
    forM keys (λ key,
      let! x := get_prop (VRef l) key in
      let! x' := deepCopy d x in
      set_prop (VRef (length h)) key x') (h ++ [OPlain ∅]) = (h2, r2) →
    h `prefix_of` h2) as Hloop.
  { intros h2 r2.
    apply (forM_invariant (λ h1, h `prefix_of` h1)); [|apply prefix_of_alloc].
    intros key h3 h4 r4 _ Hpre Hbody.
    inv_bind Hbody as h5 x H5; [by apply get_prop_heap in H5 as ->|].
    apply get_prop_heap in H5 as ->.
    inv_bind Hbody as h5 x' H5.
    { etrans; [done|]. by eapply IH. }
    apply IH in H5 as [H5 _]. apply set_prop_writes in Hbody.
    eapply writes_to_prefix; [by etrans|done|]. by intros ? [= <-]. }
  inv_bind Hrun as h2 u H2.
  { split; [by eapply Hloop|done]. }
  apply Hloop in H2. unfold ret in Hrun. simplify_eq. split; [done|].
  intros v' [= <-]. right. by exists (length h).
Qed.

(** ** [updateRecordWithValidation] writes to the copy alone *)

Lemma isArray_heap v h h' r : isArray v h = (h', r) → h' = h.
Proof. unfold isArray. by intros [= <- _]. Qed.

Ltac read_heap H :=
  first [ apply get_prop_heap in H | apply own_keys_heap in H
        | apply array_elems_heap in H | apply getTime_heap in H
        | apply toFixed_heap in H | apply isArray_heap in H
        | apply array_sort_heap in H | apply JSON_stringify_heap in H ].

(** One step of a computation that reads: the heap is the same after it. *)
Ltac read_step H :=
  let h1 := fresh "h" in
  let a := fresh "a" in
  let H1 := fresh "Hread" in
  let Heq := fresh "Heq" in
  apply bind_inv in H as [(? & H1 & Heq)|(h1 & a & H1 & H)];
  [thrown Heq; read_heap H1; subst; try reflexivity | read_heap H1; subst].

Lemma apply_update_writes rec updates key h h' r :
  apply_update rec updates key h = (h', r) → writes_to rec h h'.
Proof.
  unfold apply_update. intros Hrun.
  read_step Hrun. read_step Hrun.
  destruct (_ && _ && _).
  { read_step Hrun. read_step Hrun. destruct (negb _).
    - by eapply set_prop_writes.
    - unfold ret in Hrun. by simplify_eq. }
  read_step Hrun. read_step Hrun. destruct (_ && _ && _).
  { do 6 read_step Hrun. destruct (negb _).
    - by eapply set_prop_writes.
    - unfold ret in Hrun. by simplify_eq. }
  destruct (negb _).
  - by eapply set_prop_writes.
  - unfold ret in Hrun. by simplify_eq.
Qed.

(** The whole call: the heap it leaves starts with the heap it was given. *)
Lemma updateRecordWithValidation_frame depth now base updates h h' r :
  updateRecordWithValidation depth now base updates h = (h', r) →
  h `prefix_of` h'.
Proof.
  unfold updateRecordWithValidation. intros Hrun.
  inv_bind Hrun as h1 copy H1; [by eapply deepCopy_frame|].
  apply deepCopy_frame in H1 as [Hpre Hcopy].
  specialize (Hcopy copy eq_refl).
  assert (∀ l, copy = VRef l → length h ≤ l) as Hfresh.
  { intros l ->. destruct Hcopy as [[<- Hcopy]|(lc & [= ->] & ?)]; [|done].
    by destruct (Hcopy l). }
  inv_bind Hrun as h2 stamp H2; [by unfold new_Date, alloc in H2|].
  unfold new_Date, alloc in H2. simplify_eq.
  assert (h `prefix_of` h1 ++ [ODate (Some now)]) as Hpre2.
  { etrans; [done|]. apply prefix_of_alloc. }
  assert (∀ h3 h4, writes_to copy h3 h4 → h `prefix_of` h3 → h `prefix_of` h4)
    as Hkeep.
  { intros h3 h4 Hw Hp. by eapply writes_to_prefix. }
  inv_bind Hrun as h2 u H2.
  { eapply Hkeep; [by eapply set_prop_writes|done]. }
  apply set_prop_writes in H2. apply (Hkeep _ _ H2) in Hpre2. clear H2.
  inv_bind Hrun as h3 keys H3; [by apply own_keys_heap in H3 as ->|].
  apply own_keys_heap in H3 as ->.
  assert (∀ h3 r3, forM keys (apply_update copy updates) h2 = (h3, r3) →
                   h `prefix_of` h3) as Hloop.
  { intros h3 r3. apply (forM_invariant (λ h1, h `prefix_of` h1)); [|done].
    intros key h4 h5 r5 _ Hp Hbody. eapply Hkeep; [|done].
    by eapply apply_update_writes. }
  inv_bind Hrun as h3 u' H3; [by eapply Hloop|].
  apply Hloop in H3.
  inv_bind Hrun as h4 res H4.
  { eapply Hkeep; [by eapply validateRecord_writes|done]. }
  apply validateRecord_writes in H4. apply (Hkeep _ _ H4) in H3.
  destruct (negb _); unfold ret in Hrun; by simplify_eq.
Qed.

(** C1.  [updateRecordWithValidation] never changes [base]: whatever the base
    record, the change set, the clock and the room on the stack, and whether
    the call returns a valid result, an invalid one or throws, every object
    that was in the heap before the call (the base record and all that it
    refers to: nested objects, arrays, dates) is in the heap after it, at the
    same place and with the same contents.  All that the call writes, it
    writes to objects that it has allocated itself. *)
Theorem updateRecordWithValidation_keeps_base depth now base updates h :
  h `prefix_of` (updateRecordWithValidation depth now base updates h).1.
Proof.
  destruct (updateRecordWithValidation depth now base updates h) as [h' r] eqn:Hrun.
  by eapply updateRecordWithValidation_frame.
Qed.

(** ** [deepCopy] returns a deep copy *)

Lemma fits_plain d h l ps k x :
  fits (S d) h (VRef l) = true → h !! l = Some (OPlain ps) →
  ps !! k = Some x → fits d h x = true.
Proof.
  simpl. intros Hfits Hl Hk. rewrite Hl in Hfits.
  rewrite forallb_forall in Hfits. apply Hfits.
  apply list_elem_of_In, list_elem_of_fmap. exists (k, x). split; [done|].
  by apply elem_of_map_to_list.
Qed.

Lemma fits_frozen d h l ps k x :
  fits (S d) h (VRef l) = true → h !! l = Some (OFrozen ps) →
  ps !! k = Some x → fits d h x = true.
Proof.
  simpl. intros Hfits Hl Hk. rewrite Hl in Hfits.
  rewrite forallb_forall in Hfits. apply Hfits.
  apply list_elem_of_In, list_elem_of_fmap. exists (k, x). split; [done|].
  by apply elem_of_map_to_list.
Qed.

Lemma fits_array d h l es x :
  fits (S d) h (VRef l) = true → h !! l = Some (OArray es) →
  x ∈ es → fits d h x = true.
Proof.
  simpl. intros Hfits Hl Hx. rewrite Hl in Hfits.
  rewrite forallb_forall in Hfits. by apply Hfits, list_elem_of_In.
Qed.

Lemma fits_allocated d h l :
  fits d h (VRef l) = true → is_Some (h !! l).
Proof. destruct d; [done|]. simpl. by destruct (h !! l). Qed.

(** A structure that fits in a heap fits in every heap that starts with it. *)
Lemma fits_prefix d h h1 v :
  h `prefix_of` h1 → fits d h v = true → fits d h1 v = true.
Proof.
  intros Hpre. revert v. induction d as [|d IH]; intros v; [done|].
  destruct v as [| | | | |l]; try done. simpl.
  destruct (h !! l) as [o|] eqn:Hl; [|done].
  rewrite (prefix_lookup_Some _ _ _ _ Hl Hpre).
  destruct o as [ps|es|t|ps]; [| |done|]; rewrite !forallb_forall; eauto.
Qed.

(** The source of a copy may be read in the heap where it fits. *)
Lemma copy_of_source d h h1 v h' lo v' :
  h `prefix_of` h1 → fits d h v = true →
  copy_of d h1 v h' lo v' → copy_of d h v h' lo v'.
Proof.
  intros Hpre. revert v lo v'. induction d as [|d IH]; intros v lo v'; [done|].
  destruct v as [| | | | |l]; try done. intros Hfits. simpl.
  destruct (h !! l) as [o|] eqn:Hl; [|by simpl in Hfits; rewrite Hl in Hfits].
  rewrite (prefix_lookup_Some _ _ _ _ Hl Hpre).
  destruct o as [ps|es|t|ps]; [| |done|].
  - intros (l' & ps' & -> & ? & ? & Hps). exists l', ps'. repeat split; try done.
    intros k. specialize (Hps k).
    destruct (ps !! k) as [x|] eqn:Hk; inversion Hps as [? x' Hx|];
      simplify_eq; constructor.
    eapply IH; [by eapply fits_plain|done].
  - intros (l' & es' & -> & ? & Hl' & Hes). exists l', es'.
    repeat split; try done.
    assert (Forall (λ x, fits d h x = true) es) as Hall.
    { apply Forall_forall. intros x Hx. by eapply fits_array. }
    clear Hl Hl' Hfits. induction Hes as [|x x' es es' Hx Hes IHes]; [constructor|].
    inversion Hall; simplify_eq. constructor; eauto.
  - intros (l' & ps' & -> & ? & ? & Hps). exists l', ps'. repeat split; try done.
    intros k. specialize (Hps k).
    destruct (ps !! k) as [x|] eqn:Hk; inversion Hps as [? x' Hx|];
      simplify_eq; constructor.
    eapply IH; [by eapply fits_frozen|done].
Qed.

(** A copy stays one while its objects are kept. *)
Lemma copy_of_kept d h v h1 h2 lo lo' v' :
  lo' ≤ lo → (∀ l o, lo ≤ l → h1 !! l = Some o → h2 !! l = Some o) →
  copy_of d h v h1 lo v' → copy_of d h v h2 lo' v'.
Proof.
  revert v lo lo' v'. induction d as [|d IH]; intros v lo lo' v' Hlo Hkept; [done|].
  destruct v as [| | | | |l]; try done. simpl.
  destruct (h !! l) as [[ps|es|t|ps]|]; [| | | |done].
  1,4: intros (l' & ps' & -> & ? & ? & Hps); exists l', ps';
    (repeat split; [lia|by apply Hkept|]);
    intros k; destruct (Hps k) as [x x' Hx|]; constructor;
    eapply (IH _ (S l') (S l')); [done| |done];
    intros ????; apply Hkept; [lia|done].
  - intros (l' & es' & -> & ? & ? & Hes). exists l', es'.
    repeat split; [lia|by apply Hkept|].
    eapply Forall2_impl; [done|]. intros x x' Hx. by eapply IH.
  - intros (l' & -> & ? & ?). exists l'. repeat split; [lia|by apply Hkept].
Qed.

Lemma copy_of_prefix d h v h1 h2 lo v' :
  h1 `prefix_of` h2 → copy_of d h v h1 lo v' → copy_of d h v h2 lo v'.
Proof.
  intros Hpre. apply copy_of_kept; [done|].
  intros l o _ Hl. by eapply prefix_lookup_Some.
Qed.

Lemma copy_of_deep_equal d h v h' lo v' :
  copy_of d h v h' lo v' → deep_equal d h v h' v'.
Proof.
  revert v lo v'. induction d as [|d IH]; intros v lo v'; [done|].
  destruct v as [| | | | |l]; try done. simpl.
  destruct (h !! l) as [[ps|es|t|ps]|]; [| | | |done].
  - intros (l' & ps' & -> & ? & ? & Hps). exists l', ps'. repeat split; try done.
    intros k. destruct (Hps k) as [x x' Hx|]; constructor. exact (IH _ _ _ Hx).
  - intros (l' & es' & -> & ? & ? & Hes). exists l', es'. repeat split; try done.
    eapply Forall2_impl; [done|]. intros x x' Hx. exact (IH _ _ _ Hx).
  - intros (l' & -> & ? & ?). by exists l'.
  - intros (l' & ps' & -> & ? & ? & Hps). exists l', ps'.
    split; [done|]. split; [by left|].
    intros k. destruct (Hps k) as [x x' Hx|]; constructor. exact (IH _ _ _ Hx).
Qed.

Lemma get_prop_plain l ps k h :
  h !! l = Some (OPlain ps) →
  get_prop (VRef l) k h = (h, inr (default VUndefined (ps !! k))).
Proof. intros Hl. unfold get_prop, deref, bind. by rewrite Hl. Qed.

Lemma set_prop_plain l ps k x h :
  h !! l = Some (OPlain ps) →
  set_prop (VRef l) k x h = (<[l := OPlain (<[k := x]> ps)]> h, inr ()).
Proof. intros Hl. unfold set_prop, deref, bind, store. by rewrite Hl. Qed.

Lemma own_keys_plain l ps h :
  h !! l = Some (OPlain ps) →
  own_keys (VRef l) h = (h, inr (map fst (map_to_list ps))).
Proof. intros Hl. unfold own_keys, deref, bind. by rewrite Hl. Qed.

Lemma elem_of_own_keys (ps : gmap string value) k :
  k ∈ map fst (map_to_list ps) ↔ is_Some (ps !! k).
Proof.
  rewrite list_elem_of_fmap. split.
  - intros ([k' x] & -> & Hin). apply elem_of_map_to_list in Hin. by exists x.
  - intros [x Hx]. exists (k, x). split; [done|]. by apply elem_of_map_to_list.
Qed.

Lemma instanceof_Date_run l o h :
  h !! l = Some o →
  instanceof_Date (VRef l) h
  = (h, inr match o with ODate _ => true | _ => false end).
Proof. intros Hl. unfold instanceof_Date. by rewrite Hl. Qed.

Lemma isArray_ref_run l o h :
  h !! l = Some o →
  isArray (VRef l) h = (h, inr match o with OArray _ => true | _ => false end).
Proof. intros Hl. unfold isArray. by rewrite Hl. Qed.

Lemma get_prop_keyed l o k h :
  h !! l = Some o → keyed o = true →
  get_prop (VRef l) k h = (h, inr (field o k)).
Proof.
  intros Hl Ho. unfold get_prop, deref, bind. rewrite Hl. by destruct o.
Qed.

Lemma own_keys_keyed l o h :
  h !! l = Some o → keyed o = true →
  own_keys (VRef l) h = (h, inr (map fst (map_to_list (fields o)))).
Proof.
  intros Hl Ho. unfold own_keys, deref, bind. rewrite Hl. by destruct o.
Qed.

Lemma fits_keyed d h l o k x :
  fits (S d) h (VRef l) = true → h !! l = Some o → keyed o = true →
  fields o !! k = Some x → fits d h x = true.
Proof.
  intros Hfits Hl Ho Hk. destruct o; try done.
  - by eapply fits_plain.
  - by eapply fits_frozen.
Qed.

(** The copy of a plain object, frozen or not, is a plain object. *)
Lemma copy_of_keyed d h l o h' lo v' :
  h !! l = Some o → keyed o = true →
  copy_of (S d) h (VRef l) h' lo v'
  ↔ ∃ l' ps', v' = VRef l' ∧ lo ≤ l' ∧ h' !! l' = Some (OPlain ps')
      ∧ ∀ k, option_Forall2 (λ x x', copy_of d h x h' (S l') x')
                            (fields o !! k) (ps' !! k).
Proof. intros Hl Ho. simpl. rewrite Hl. by destruct o. Qed.

Section DeepCopySteps.
Variable d : nat.
Hypothesis deepCopy_d :
  ∀ v h, fits d h v = true →
    ∃ h' v', deepCopy d v h = (h', inr v') ∧ copy_of d h v h' (length h) v'.

(** The elements of an array, copied one after the other. *)
Lemma deepCopy_items h es :
  Forall (λ x, fits d h x = true) es →
  ∀ hi, h `prefix_of` hi →
    ∃ h2 items,
      mapM (deepCopy d) es hi = (h2, inr items) ∧ hi `prefix_of` h2
      ∧ Forall2 (λ x x', copy_of d h x h2 (length hi) x') es items.
Proof.
  induction 1 as [|x es Hx Hes IH]; intros hi Hpre.
  { exists hi, []. by repeat split. }
  destruct (deepCopy_d x hi) as (h1 & x' & Hrun1 & Hcopy1);
    [by eapply fits_prefix|].
  destruct (deepCopy_frame _ _ _ _ _ Hrun1) as [Hpre1 _].
  destruct (IH h1) as (h2 & items & Hrun2 & Hpre2 & Hcopy2); [by etrans|].
  exists h2, (x' :: items). split; [|split].
  - simpl. rewrite (run_bind _ _ _ _ _ Hrun1).
    by rewrite (run_bind _ _ _ _ _ Hrun2).
  - by etrans.
  - constructor.
    + eapply copy_of_prefix; [done|]. by eapply copy_of_source.
    + eapply Forall2_impl; [done|]. intros y y'.
      apply copy_of_kept; [by apply prefix_length|done].
Qed.

(** The properties [ps] of a plain object, frozen or not, copied one after
    the other into the new object at [lc]. *)
Lemma deepCopy_fields h l o ps lc keys :
  h !! l = Some o → keyed o = true → fields o = ps → length h ≤ lc →
  (∀ k, k ∈ keys → ∃ x, ps !! k = Some x ∧ fits d h x = true) →
  ∀ hi cps,
    h `prefix_of` hi → hi !! lc = Some (OPlain cps) →
    (∀ k x', cps !! k = Some x' →
       ∃ x, ps !! k = Some x ∧ copy_of d h x hi (S lc) x') →
    ∃ h2 cps',
      forM keys (λ key,
        let! x := get_prop (VRef l) key in
        let! x' := deepCopy d x in
        set_prop (VRef lc) key x') hi = (h2, inr ())
      ∧ h `prefix_of` h2 ∧ h2 !! lc = Some (OPlain cps')
      ∧ (∀ k x', cps' !! k = Some x' →
           ∃ x, ps !! k = Some x ∧ copy_of d h x h2 (S lc) x')
      ∧ (∀ k, k ∈ keys ∨ is_Some (cps !! k) → is_Some (cps' !! k)).
Proof.
  intros Hl Ho Hps Hlc.
  induction keys as [|key keys IH]; intros Hkeys hi cps Hpre Hcopy Hcps.
  { exists hi, cps. repeat split; try done.
    intros k [Hk|Hk]; [by apply elem_of_nil in Hk|done]. }
  destruct (Hkeys key) as (x & Hx & Hfits); [apply list_elem_of_here|].
  pose proof (lookup_lt_Some _ _ _ Hcopy) as Hlt.
  destruct (deepCopy_d x hi) as (h1 & x' & Hrun1 & Hcopy1);
    [by eapply fits_prefix|].
  destruct (deepCopy_frame _ _ _ _ _ Hrun1) as [Hpre1 _].
  set (h1' := <[lc := OPlain (<[key := x']> cps)]> h1).
  assert (∀ lo l' o', S lc ≤ lo → lo ≤ l' →
            h1 !! l' = Some o' → h1' !! l' = Some o') as Hkept.
  { intros lo l' o' ? ? Hl'. unfold h1'. rewrite list_lookup_insert_ne by lia. done. }
  destruct (IH (λ k Hk, Hkeys k (list_elem_of_further _ _ _ Hk))
              h1' (<[key := x']> cps))
    as (h2 & cps' & Hrun2 & Hpre2 & Hcopy2 & Hcps2 & Hdom2).
  - apply prefix_of_store; [by etrans|done].
  - apply list_lookup_insert_eq.
    eapply Nat.lt_le_trans; [done|]. by apply prefix_length.
  - intros k x''. destruct (decide (k = key)) as [->|Hne].
    + rewrite lookup_insert_eq. intros [= <-]. exists x. split; [done|].
      eapply (copy_of_kept _ _ _ h1 _ (length hi)); [lia| |].
      * intros l' o' ?. by apply (Hkept (length hi)); [lia|].
      * by eapply copy_of_source.
    + rewrite lookup_insert_ne by done. intros Hk.
      destruct (Hcps k x'' Hk) as (x0 & Hx0 & Hc0). exists x0. split; [done|].
      eapply (copy_of_kept _ _ _ hi _ (S lc)); [lia| |done].
      intros l' o' ? Hl'. apply (Hkept (S lc)); [lia..|].
      by eapply prefix_lookup_Some.
  - exists h2, cps'. repeat split; try done.
    + assert ((let! x := get_prop (VRef l) key in
               let! x' := deepCopy d x in
               set_prop (VRef lc) key x') hi = (h1', inr ())) as Hbody.
      { rewrite (run_bind _ _ _ _ _
                   (get_prop_keyed l o key hi (prefix_lookup_Some _ _ _ _ Hl Hpre) Ho)).
        unfold field. rewrite Hps, Hx. simpl. rewrite (run_bind _ _ _ _ _ Hrun1).
        apply set_prop_plain. by eapply prefix_lookup_Some. }
      simpl. by rewrite (run_bind _ _ _ _ _ Hbody).
    + intros k [Hk|Hk]; apply Hdom2.
      * apply elem_of_cons in Hk as [->|Hk]; [right|by left].
        by rewrite lookup_insert_eq.
      * right. destruct (decide (k = key)) as [->|Hne].
        -- by rewrite lookup_insert_eq.
        -- by rewrite lookup_insert_ne.
Qed.

(** A plain object, frozen or not: its copy is a new plain object. *)
Lemma deepCopy_keyed h l o :
  h !! l = Some o → keyed o = true → fits (S d) h (VRef l) = true →
  ∃ h' v', deepCopy (S d) (VRef l) h = (h', inr v')
           ∧ copy_of (S d) h (VRef l) h' (length h) v'.
Proof.
  intros Hl Ho Hfits. set (ps := fields o).
  set (h1 := h ++ [OPlain ∅]).
  assert (h1 !! l = Some o) as Hl1.
  { eapply prefix_lookup_Some; [done|apply prefix_of_alloc]. }
  destruct (deepCopy_fields h l o ps (length h) (map fst (map_to_list ps))
              Hl Ho eq_refl (le_n _)) with (hi := h1) (cps := (∅ : gmap string value))
    as (h2 & cps' & Hrun & Hpre & Hcopy & Hcps & Hdom).
  - intros k [x Hx]%elem_of_own_keys. exists x. split; [done|].
    by eapply fits_keyed.
  - apply prefix_of_alloc.
  - by apply list_lookup_middle.
  - intros k x'. by rewrite lookup_empty.
  - assert (match o with ODate _ => true | _ => false end = false) as Hdate
      by (by destruct o).
    assert (match o with OArray _ => true | _ => false end = false) as Harray
      by (by destruct o).
    exists h2, (VRef (length h)). split.
    + rewrite deepCopy_S, typeof_is_object, bool_decide_eq_false_2 by done.
      cbn [negb orb].
      rewrite (run_bind _ _ _ _ _ (instanceof_Date_run l o h Hl)), Hdate.
      rewrite (run_bind _ _ _ _ _ (isArray_ref_run l o h Hl)), Harray.
      rewrite (run_bind _ _ _ h1 (VRef (length h))
                 (eq_refl : alloc (OPlain ∅) h = (h1, _))).
      rewrite (run_bind _ _ _ _ _ (own_keys_keyed l o h1 Hl1 Ho)).
      by rewrite (run_bind _ _ _ _ _ Hrun).
    + apply (copy_of_keyed _ _ _ _ _ _ _ Hl Ho).
      exists (length h), cps'. repeat split; try done.
      intros k. fold ps. destruct (ps !! k) as [x|] eqn:Hx.
      * destruct (Hdom k) as [x' Hx'].
        { left. apply elem_of_own_keys. by exists x. }
        rewrite Hx'. constructor.
        destruct (Hcps k x' Hx') as (x0 & Hx0 & Hc). by simplify_eq.
      * destruct (cps' !! k) as [x'|] eqn:Hx'; [|constructor].
        destruct (Hcps k x' Hx') as (x0 & Hx0 & _). by simplify_eq.
Qed.

End DeepCopySteps.

(** [deepCopy] on a structure that fits: it returns, and what it returns is a
    copy, made of new objects. *)
Lemma deepCopy_spec depth v h :
  fits depth h v = true →
  ∃ h' v', deepCopy depth v h = (h', inr v')
           ∧ copy_of depth h v h' (length h) v'.
Proof.
  revert v h. induction depth as [|d IH]; intros v h Hfits; [done|].
  destruct (ref_or_not v) as [[l ->]|Hprim].
  2:{ exists h, v. split; [by apply deepCopy_primitive|].
      destruct v; try done. by destruct (Hprim l). }
  destruct (fits_allocated _ _ _ Hfits) as [o Hl].
  destruct (keyed o) eqn:Ho; [by eapply deepCopy_keyed|].
  rewrite deepCopy_S, typeof_is_object, bool_decide_eq_false_2 by done.
  cbn [negb orb]. rewrite (run_bind _ _ _ _ _ (instanceof_Date_run l o h Hl)).
  destruct o as [ps|es|t|ps]; [done| | |done];
    [rewrite (run_bind _ _ _ _ _ (isArray_ref_run l _ h Hl))|].
  - (* an array *)
    destruct (deepCopy_items d IH h es) with (hi := h)
      as (h2 & items & Hrun & Hpre & Hcopy); [|done|].
    { apply Forall_forall. intros x Hx. by eapply fits_array. }
    exists (h2 ++ [OArray items]), (VRef (length h2)). split.
    + rewrite (run_bind _ _ _ h es) by (unfold array_elems, deref, bind; by rewrite Hl).
      by rewrite (run_bind _ _ _ _ _ Hrun).
    + simpl. rewrite Hl. exists (length h2), items.
      repeat split; [by apply prefix_length|by apply list_lookup_middle|].
      eapply Forall2_impl; [done|]. intros x x'.
      apply copy_of_prefix, prefix_of_alloc.
  - (* a date *)
    exists (h ++ [ODate t]), (VRef (length h)). split.
    + rewrite (run_bind _ _ _ h t) by (unfold getTime, deref, bind; by rewrite Hl).
      done.
    + simpl. rewrite Hl. exists (length h).
      repeat split; [done|by apply list_lookup_middle].
Qed.

(** ** The loop over the change set *)

Lemma get_prop_change_set h hi updates k nv :
  h `prefix_of` hi → change_set h updates !! k = Some nv →
  get_prop updates k hi = (hi, inr nv).
Proof.
  intros Hpre. unfold change_set. destruct updates as [| | | | |lu]; try done.
  destruct (h !! lu) as [o|] eqn:Hlu; [|done].
  destruct (keyed o) eqn:Ho; [|by destruct o; cbn [fields]; rewrite ?lookup_empty].
  intros Hk. rewrite (get_prop_keyed lu o k hi); [|by eapply prefix_lookup_Some|done].
  unfold field. by rewrite Hk.
Qed.

Lemma own_keys_change_set h hi updates h' keys :
  h `prefix_of` hi → value_of h updates →
  own_keys updates hi = (h', inr keys) →
  keys = map fst (map_to_list (change_set h updates)).
Proof.
  intros Hpre Hwf. unfold change_set, own_keys.
  destruct updates as [| | | | |lu];
    try (unfold ret, throw; intros; simplify_eq; by rewrite map_to_list_empty).
  destruct (lookup_lt_is_Some_2 h lu (Hwf lu eq_refl)) as [o Hlu].
  rewrite Hlu. unfold bind, deref.
  rewrite (prefix_lookup_Some _ _ _ _ Hlu Hpre).
  destruct o; unfold ret, throw; intros; simplify_eq; try done.
Qed.

(** One turn writes at most the property [key] of the copy. *)
Lemma apply_update_shape lc P updates key h h' u :
  h !! lc = Some (OPlain P) →
  apply_update (VRef lc) updates key h = (h', inr u) →
  ∃ P', h' !! lc = Some (OPlain P') ∧ ∀ k, k ≠ key → P' !! k = P !! k.
Proof.
  intros Hlc Hrun.
  assert (∀ nv h1 r, set_prop (VRef lc) key nv h = (h1, r) →
            ∃ P', h1 !! lc = Some (OPlain P') ∧ ∀ k, k ≠ key → P' !! k = P !! k)
    as Hset.
  { intros nv h1 r. rewrite (set_prop_plain lc P key nv h Hlc). intros [= <- _].
    eexists. split.
    - apply list_lookup_insert_eq. by eapply lookup_lt_Some.
    - intros k Hk. by rewrite lookup_insert_ne. }
  assert (∀ h1 r, ret () h = (h1, r) →
            ∃ P', h1 !! lc = Some (OPlain P') ∧ ∀ k, k ≠ key → P' !! k = P !! k)
    as Hret.
  { intros h1 r [= <- _]. by exists P. }
  unfold apply_update in Hrun.
  read_step Hrun. read_step Hrun.
  destruct (_ && _ && _).
  { read_step Hrun. read_step Hrun. destruct (negb _); eauto. }
  read_step Hrun. read_step Hrun. destruct (_ && _ && _).
  { do 6 read_step Hrun. destruct (negb _); eauto. }
  destruct (negb _); eauto.
Qed.

(** The loop: a property of the copy whose key is not in the change set is
    kept; a property whose key is in it is decided by the one turn for that
    key, taken when the property is still what it was before the loop. *)
Lemma update_loop lc updates keys :
  NoDup keys →
  ∀ h P h' u,
    h !! lc = Some (OPlain P) →
    forM keys (apply_update (VRef lc) updates) h = (h', inr u) →
    ∃ P', h' !! lc = Some (OPlain P') ∧ writes_to (VRef lc) h h'
      ∧ (∀ k, k ∉ keys → P' !! k = P !! k)
      ∧ (∀ k, k ∈ keys →
           ∃ hi Pi hi' Pi',
             writes_to (VRef lc) h hi ∧ hi !! lc = Some (OPlain Pi)
             ∧ Pi !! k = P !! k
             ∧ apply_update (VRef lc) updates k hi = (hi', inr ())
             ∧ hi' !! lc = Some (OPlain Pi') ∧ Pi' !! k = P' !! k).
Proof.
  induction 1 as [|key keys Hnotin Hnodup IH]; intros h P h' u Hlc Hrun.
  { simpl in Hrun. unfold ret in Hrun. simplify_eq. exists P.
    repeat split; try done. intros k Hk. by apply elem_of_nil in Hk. }
  simpl in Hrun. inv_bind Hrun as h1 u1 Hbody. destruct u1.
  destruct (apply_update_shape _ _ _ _ _ _ _ Hlc Hbody) as (P1 & Hlc1 & Hsame1).
  pose proof (apply_update_writes _ _ _ _ _ _ Hbody) as Hw1.
  destruct (IH _ _ _ _ Hlc1 Hrun) as (P' & Hlc' & Hw' & Hout & Hin).
  exists P'. split; [done|]. split; [by etrans|]. split.
  - intros k Hk. apply not_elem_of_cons in Hk as [Hne Hk].
    by rewrite Hout, Hsame1.
  - intros k Hk. apply elem_of_cons in Hk as [->|Hk].
    + exists h, P, h1, P1. repeat split; try done. by rewrite Hout.
    + destruct (Hin k Hk) as (hi & Pi & hi' & Pi' & Hwi & ? & HPi & ? & ? & ?).
      exists hi, Pi, hi', Pi'. split; [by etrans|]. split; [done|].
      split; [|done]. rewrite HPi. apply Hsame1. by intros ->.
Qed.

(** ** A successful call, step by step *)

Lemma set_prop_inv v k x h h' u :
  set_prop v k x h = (h', inr u) →
  ∃ l P, v = VRef l ∧ h !! l = Some (OPlain P)
         ∧ h' = <[l := OPlain (<[k := x]> P)]> h.
Proof.
  unfold set_prop, bind, deref, store, throw.
  destruct v as [| | | | |l]; try done.
  destruct (h !! l) as [[P| | |]|] eqn:Hl; try done.
  intros [= <-]. by exists l, P.
Qed.

Lemma after_price_fields l P h :
  h !! l = Some (OPlain P) →
  ∃ o', after_price l (OPlain P) h !! l = Some o'
        ∧ ∀ k, k ≠ "price" → field o' k = default VUndefined (P !! k).
Proof.
  intros Hl. destruct (after_price_lookup l _ h Hl) as (o' & Hl' & Hsame).
  exists o'. split; [done|]. intros k Hk. by rewrite Hsame.
Qed.

(** What a call that returns a valid result has done: it has copied the
    base into a new plain object at [lc], stamped the copy, run the loop on
    it, and validated it. *)
Lemma update_success_inv depth now base updates h h' res :
  value_of h updates →
  updateRecordWithValidation depth now base updates h = (h', inr res) →
  isValid res = true →
  ∃ lc hc cps (P4 : gmap string value) o',
    deepCopy depth base h = (hc, inr (VRef lc))
    ∧ length h ≤ lc < length hc ∧ hc !! lc = Some (OPlain cps)
    ∧ res = {| isValid := true; record := Some (VRef lc); errors := None |}
    ∧ h' !! lc = Some o'
    ∧ (∀ k, k ≠ "price" → field o' k = default VUndefined (P4 !! k))
    ∧ blank (field o' "id") = false
    ∧ writes_to (VRef lc) (hc ++ [ODate (Some now)]) h'
    ∧ (∀ k, change_set h updates !! k = None →
         P4 !! k = <["updatedAt" := VRef (length hc)]> cps !! k)
    ∧ (∀ k nv, change_set h updates !! k = Some nv →
         ∃ hi (Pi : gmap string value) hi' (Pi' : gmap string value),
           h `prefix_of` hi
           ∧ writes_to (VRef lc) (hc ++ [ODate (Some now)]) hi
           ∧ hi !! lc = Some (OPlain Pi)
           ∧ Pi !! k = <["updatedAt" := VRef (length hc)]> cps !! k
           ∧ apply_update (VRef lc) updates k hi = (hi', inr ())
           ∧ hi' !! lc = Some (OPlain Pi') ∧ Pi' !! k = P4 !! k).
Proof.
  intros Hwf Hrun Hvalid. unfold updateRecordWithValidation in Hrun.
  inv_bind Hrun as hc copy Hcopy.
  destruct (deepCopy_frame _ _ _ _ _ Hcopy) as [Hpre Hfresh].
  inv_bind Hrun as h2 stamp Hstamp.
  unfold new_Date, alloc in Hstamp. simplify_eq.
  set (h2 := hc ++ [ODate (Some now)]) in *.
  inv_bind Hrun as h3 u Hset. destruct u.
  pose proof (set_prop_writes _ _ _ _ _ _ Hset) as Hw3.
  apply set_prop_inv in Hset as (lc & cps & -> & Hlc2 & ->).
  set (P3 := <["updatedAt" := VRef (length hc)]> cps) in *.
  set (h3 := <[lc := OPlain P3]> h2) in *.
  assert (length h ≤ lc) as Hlo.
  { destruct (Hfresh _ eq_refl) as [[<- Hprim]|(? & [= <-] & ?)]; [|done].
    by destruct (Hprim lc). }
  assert (lc < length hc) as Hhi.
  { pose proof (lookup_lt_Some _ _ _ Hlc2) as Hlt. unfold h2 in Hlt, Hlc2.
    rewrite length_app in Hlt. simpl in Hlt.
    destruct (decide (lc = length hc)) as [->|]; [|lia].
    by rewrite list_lookup_middle in Hlc2. }
  assert (hc !! lc = Some (OPlain cps)) as Hlc.
  { unfold h2 in Hlc2. by rewrite lookup_app_l in Hlc2. }
  assert (h3 !! lc = Some (OPlain P3)) as Hlc3.
  { apply list_lookup_insert_eq. by eapply lookup_lt_Some. }
  assert (∀ hi, writes_to (VRef lc) h2 hi → h `prefix_of` hi) as Hkeep.
  { intros hi Hw. eapply writes_to_prefix; [|done|by intros ? [= <-]].
    etrans; [done|]. apply prefix_of_alloc. }
  inv_bind Hrun as h3' keys Hkeys.
  pose proof (own_keys_heap _ _ _ _ Hkeys) as ->.
  apply (own_keys_change_set h) in Hkeys; [|by apply Hkeep|done].
  inv_bind Hrun as h4 u Hloop.
  destruct (update_loop lc updates keys) with (h := h3) (P := P3) (h' := h4) (u := u)
    as (P4 & Hlc4 & Hw4 & Hout & Hin); [|done|done|].
  { subst keys. apply NoDup_fst_map_to_list. }
  inv_bind Hrun as h5 vres Hval.
  assert (isValid vres = true ∧ res = {| isValid := true; record := record vres;
                                         errors := None |}) as [Hvres ->].
  { destruct (isValid vres); simpl in Hrun; unfold ret in Hrun; by simplify_eq/=. }
  pose proof (validateRecord_writes _ _ _ _ Hval) as Hw5.
  assert (h5 = h') as -> by (unfold ret in Hrun; by destruct (negb _); simplify_eq).
  clear Hrun.
  destruct (validateRecord_valid_inv _ _ _ _ Hval Hvres)
    as (l & o & [= <-] & Hl & Hh' & Herrs & ->).
  rewrite Hlc4 in Hl. simplify_eq.
  destruct (after_price_fields lc P4 h4 Hlc4) as (o' & Hlc' & Hfields).
  destruct (field_errors_nil _ _ _ Herrs) as (Hid & _).
  exists lc, hc, cps, P4, o'. split; [done|]. split; [done|]. split; [done|].
  split; [done|]. split; [done|]. split; [done|].
  split; [by rewrite Hfields|].
  split; [by repeat (etrans; [eassumption|])|]. split.
  - intros k Hk. apply Hout. rewrite elem_of_own_keys, Hk. by intros [].
  - intros k nv Hk.
    destruct (Hin k) as (hi & Pi & hi' & Pi' & Hwi & ? & ? & ? & ? & ?).
    { rewrite elem_of_own_keys, Hk. by eexists. }
    exists hi, Pi, hi', Pi'.
    assert (writes_to (VRef lc) h2 hi) by (by etrans).
    split; [by apply Hkeep|]. by repeat (split; [done|]).
Qed.

(** ** [updateRecordWithValidation]: the claims *)

Lemma strict_eq_ref v l : strict_eq v (VRef l) = true → v = VRef l.
Proof. destruct v; try done. simpl. by intros ->%bool_decide_eq_true. Qed.

(** A turn for a key other than [price] and [tags]: the new value is
    written unless it is identical to the old one. *)
Lemma apply_update_other lc P updates key nv h :
  key ≠ "price" → key ≠ "tags" →
  h !! lc = Some (OPlain P) → get_prop updates key h = (h, inr nv) →
  apply_update (VRef lc) updates key h
  = (if strict_eq nv (default VUndefined (P !! key)) then h
     else <[lc := OPlain (<[key := nv]> P)]> h, inr ()).
Proof.
  intros Hprice Htags Hlc Hget. unfold apply_update.
  rewrite (run_bind _ _ _ _ _ Hget).
  rewrite (run_bind _ _ _ _ _ (get_prop_plain lc P key h Hlc)).
  rewrite (bool_decide_eq_false_2 (key = "price")) by done. cbn [andb].
  rewrite (run_bind _ _ _ _ _ (isArray_run _ _)).
  rewrite (run_bind _ _ _ _ _ (isArray_run _ _)).
  rewrite (bool_decide_eq_false_2 (key = "tags")) by done. cbn [andb].
  destruct (strict_eq nv _); cbn [negb]; [done|]. by apply set_prop_plain.
Qed.

(** C4, as stated, fails: a change set with an [updatedAt] key decides the
    [updatedAt] of the result. *)
Lemma update_takes_updatedAt_from_changes :
  ¬ (∀ depth now base updates h h' res,
       updateRecordWithValidation depth now base updates h = (h', inr res) →
       isValid res = true →
       ∃ lc o' ld, record res = Some (VRef lc) ∧ h' !! lc = Some o'
                   ∧ field o' "updatedAt" = VRef ld
                   ∧ h' !! ld = Some (ODate (Some now))).
Proof.
  intros Hclaim.
  set (h := Sample.update_heap {["updatedAt" := VRef 5]} [ODate (Some 0%Z)]).
  destruct (Hclaim 3 Sample.clock (VRef 0) (VRef 4) h
              (updateRecordWithValidation 3 Sample.clock (VRef 0) (VRef 4) h).1
              (valid_result (VRef 6)))
    as (lc & o' & ld & [= <-] & Hlc & Hfield & Hld).
  - vm_compute. reflexivity.
  - reflexivity.
  - vm_compute in Hlc. injection Hlc as <-.
    vm_compute in Hfield. injection Hfield as <-.
    vm_compute in Hld. discriminate Hld.
Qed.

(** C4, amended.  The copy is stamped with the time of the call before the
    change set is applied.  The record of a valid result has, as its
    [updatedAt], the value that the change set gives for that key when it has
    the key, and otherwise a new [Date] whose time is that of the call. *)
Theorem update_stamps_updatedAt depth now base updates h h' res :
  value_of h updates →
  updateRecordWithValidation depth now base updates h = (h', inr res) →
  isValid res = true →
  ∃ lc o', record res = Some (VRef lc) ∧ h' !! lc = Some o'
    ∧ match change_set h updates !! "updatedAt" with
      | Some nv => field o' "updatedAt" = nv
      | None =>
          ∃ ld, field o' "updatedAt" = VRef ld ∧ length h ≤ ld
                ∧ h' !! ld = Some (ODate (Some now))
      end.
Proof.
  intros Hwf Hrun Hvalid.
  destruct (update_success_inv _ _ _ _ _ _ _ Hwf Hrun Hvalid)
    as (lc & hc & cps & P4 & o' & Hcopy & [Hlo Hhi] & Hlc & -> & Hlc' & Hfields
        & _ & [_ Hw] & Hout & Hin).
  exists lc, o'. split; [done|]. split; [done|].
  rewrite Hfields by done.
  destruct (change_set h updates !! "updatedAt") as [nv|] eqn:Hk.
  - destruct (Hin _ _ Hk)
      as (hi & Pi & hi' & Pi' & Hpre & _ & Hlci & HPi & Hturn & Hlci' & HPi').
    rewrite lookup_insert_eq in HPi.
    rewrite (apply_update_other lc Pi updates "updatedAt" nv hi) in Hturn;
      [|done|done|done|by eapply get_prop_change_set].
    rewrite HPi in Hturn. simpl in Hturn. rewrite <- HPi'.
    destruct (strict_eq nv (VRef (length hc))) eqn:Heq; simplify_eq.
    + apply strict_eq_ref in Heq as ->. by rewrite HPi.
    + rewrite list_lookup_insert_eq in Hlci' by (by eapply lookup_lt_Some).
      simplify_eq. by rewrite lookup_insert_eq.
  - rewrite (Hout _ Hk), lookup_insert_eq. exists (length hc).
    split; [done|]. split; [lia|].
    rewrite Hw by (intros [= ->]; lia). by apply list_lookup_middle.
Qed.

Lemma update_stamps_updatedAt_witness :
  ∃ lc o',
    Some (VRef 5) = Some (VRef lc)
    ∧ (updateRecordWithValidation 3 Sample.clock (VRef 0) (VRef 4)
         (Sample.update_heap ∅ [])).1 !! lc = Some o'
    ∧ match change_set (Sample.update_heap ∅ []) (VRef 4) !! "updatedAt" with
      | Some nv => field o' "updatedAt" = nv
      | None =>
          ∃ ld, field o' "updatedAt" = VRef ld
                ∧ length (Sample.update_heap ∅ []) ≤ ld
                ∧ (updateRecordWithValidation 3 Sample.clock (VRef 0) (VRef 4)
                     (Sample.update_heap ∅ [])).1 !! ld
                  = Some (ODate (Some Sample.clock))
      end.
Proof.
  apply (update_stamps_updatedAt 3 Sample.clock (VRef 0) (VRef 4)
           (Sample.update_heap ∅ []) _ (valid_result (VRef 5))).
  - intros l [= <-]. vm_compute. lia.
  - vm_compute. reflexivity.
  - reflexivity.
Defined.

Lemma copy_of_primitive d h x h' lo x' :
  copy_of d h x h' lo x' → (∀ l, x' ≠ VRef l) → x' = x.
Proof.
  destruct d as [|d]; [done|]. destruct x as [| | | | |l]; try done. simpl.
  intros Hcopy Hprim. destruct (h !! l) as [[ps|es|t|ps]|]; [| | | |done].
  - destruct Hcopy as (l' & ? & -> & _). by destruct (Hprim l').
  - destruct Hcopy as (l' & ? & -> & _). by destruct (Hprim l').
  - destruct Hcopy as (l' & -> & _). by destruct (Hprim l').
  - destruct Hcopy as (l' & ? & -> & _). by destruct (Hprim l').
Qed.

Lemma deep_equal_S d h v h' v' :
  deep_equal d h v h' v' → deep_equal (S d) h v h' v'.
Proof.
  revert v v'. induction d as [|d IH]; intros v v'; [done|].
  destruct v as [| | | | |l]; try done.
  change (deep_equal (S d) h (VRef l) h' v' → deep_equal (S (S d)) h (VRef l) h' v').
  cbn [deep_equal]. destruct (h !! l) as [[ps|es|t|ps]|]; [| |done| |done].
  - intros (l' & ps' & -> & ? & Hps). exists l', ps'. repeat split; try done.
    intros k. destruct (Hps k) as [x x' Hx|]; constructor. by apply IH.
  - intros (l' & es' & -> & ? & Hes). exists l', es'. repeat split; try done.
    eapply Forall2_impl; [done|]. intros x x'. apply IH.
  - intros (l' & ps' & -> & ? & Hps). exists l', ps'. repeat split; try done.
    intros k. destruct (Hps k) as [x x' Hx|]; constructor. by apply IH.
Qed.

Lemma blank_false v : blank v = false → ∀ l, v ≠ VRef l.
Proof. by destruct v. Qed.

(** C2, as stated, fails: an [id] in the change set replaces that of the
    base. *)
Lemma update_takes_id_from_changes :
  ¬ (∀ depth now lb ps updates h h' res,
       h !! lb = Some (OPlain ps) →
       updateRecordWithValidation depth now (VRef lb) updates h = (h', inr res) →
       isValid res = true →
       ∃ lc o', record res = Some (VRef lc) ∧ h' !! lc = Some o'
                ∧ field o' "id" = field (OPlain ps) "id").
Proof.
  intros Hclaim.
  set (h := Sample.update_heap {["id" := VStr "other"]} []).
  destruct (Hclaim 3 Sample.clock 0 Sample.validRecord (VRef 4) h
              (updateRecordWithValidation 3 Sample.clock (VRef 0) (VRef 4) h).1
              (valid_result (VRef 5)))
    as (lc & o' & [= <-] & Hlc & Hfield).
  - reflexivity.
  - vm_compute. reflexivity.
  - reflexivity.
  - vm_compute in Hlc. injection Hlc as <-.
    vm_compute in Hfield. discriminate Hfield.
Qed.

(** C2, amended.  When the base record is a structure that [deepCopy] can
    walk, the record of a valid result has the [id] of the base if the change
    set has no [id] key, and a [createdAt] equal in depth to that of the base
    if the change set has no [createdAt] key. *)
Theorem update_keeps_id_createdAt depth now lb ps updates h h' res :
  h !! lb = Some (OPlain ps) → fits depth h (VRef lb) = true →
  value_of h updates →
  updateRecordWithValidation depth now (VRef lb) updates h = (h', inr res) →
  isValid res = true →
  ∃ lc o', record res = Some (VRef lc) ∧ h' !! lc = Some o'
    ∧ (change_set h updates !! "id" = None →
         field o' "id" = field (OPlain ps) "id")
    ∧ (change_set h updates !! "createdAt" = None →
         deep_equal depth h (field (OPlain ps) "createdAt")
                    h' (field o' "createdAt")).
Proof.
  intros Hlb Hfits Hwf Hrun Hvalid.
  destruct (update_success_inv _ _ _ _ _ _ _ Hwf Hrun Hvalid)
    as (lc & hc & cps & P4 & o' & Hcopy & [Hlo Hhi] & Hlc & -> & Hlc' & Hfields
        & Hid & [_ Hw] & Hout & _).
  destruct (deepCopy_spec _ _ _ Hfits) as (hc' & v' & Hcopy' & Hspec).
  assert (hc' = hc ∧ v' = VRef lc) as [-> ->]
    by (rewrite Hcopy in Hcopy'; by simplify_eq).
  destruct depth as [|d]; [done|]. simpl in Hspec. rewrite Hlb in Hspec.
  destruct Hspec as (l' & cps' & [= <-] & _ & Hlc'' & Hprops).
  assert (cps' = cps) as -> by (rewrite Hlc in Hlc''; by simplify_eq).
  exists lc, o'. split; [done|]. split; [done|]. split.
  - intros Hk. rewrite Hfields in Hid |- * by done.
    rewrite (Hout _ Hk), lookup_insert_ne in Hid |- * by done.
    unfold field. simpl. destruct (Hprops "id") as [x x' Hx|]; [|done].
    simpl in *. eapply copy_of_primitive; [done|]. by apply blank_false.
  - intros Hk. rewrite Hfields by done.
    rewrite (Hout _ Hk), lookup_insert_ne by done.
    unfold field. simpl. destruct (Hprops "createdAt") as [x x' Hx|]; [|done].
    simpl. apply deep_equal_S. eapply copy_of_deep_equal.
    eapply (copy_of_kept _ _ _ hc _ (S lc) (S lc)); [done| |done].
    intros l o Hl Hlook. rewrite Hw by (intros [= ->]; lia).
    by apply lookup_app_l_Some.
Qed.

Lemma update_keeps_id_createdAt_witness :
  ∃ lc o',
    Some (VRef 7) = Some (VRef lc)
    ∧ (updateRecordWithValidation 3 Sample.clock (VRef 0) (VRef 4)
         Sample.renamed).1 !! lc = Some o'
    ∧ (change_set Sample.renamed (VRef 4) !! "id" = None →
       field o' "id" = field (OPlain Sample.validRecord) "id")
    ∧ (change_set Sample.renamed (VRef 4) !! "createdAt" = None →
       deep_equal 3 Sample.renamed
         (field (OPlain Sample.validRecord) "createdAt")
         (updateRecordWithValidation 3 Sample.clock (VRef 0) (VRef 4)
            Sample.renamed).1
         (field o' "createdAt")).
Proof.
  apply (update_keeps_id_createdAt 3 Sample.clock 0 Sample.validRecord (VRef 4)
           Sample.renamed _ (valid_result (VRef 7))).
  - reflexivity.
  - vm_compute. reflexivity.
  - intros l [= <-]. vm_compute. lia.
  - vm_compute. reflexivity.
  - reflexivity.
Defined.

(** *** The turn for [tags] *)

Lemma strings_of_strings (ss : list string) h :
  strings_of (VStr <$> ss) h = (h, inr ss).
Proof.
  unfold strings_of. induction ss as [|s ss IH]; [done|].
  simpl. rewrite (run_bind _ _ _ h s) by done.
  by rewrite (run_bind _ _ _ _ _ IH).
Qed.

Lemma array_sort_strings ss h :
  array_sort (VStr <$> ss) h = (h, inr (VStr <$> sort_strings ss)).
Proof.
  unfold array_sort. by rewrite (run_bind _ _ _ _ _ (strings_of_strings ss h)).
Qed.

Lemma JSON_stringify_strings ss h :
  JSON_stringify (VStr <$> ss) h = (h, inr ("[" +:+ json_items ss +:+ "]")).
Proof.
  unfold JSON_stringify.
  by rewrite (run_bind _ _ _ _ _ (strings_of_strings ss h)).
Qed.

Lemma array_elems_ref_run l es h :
  h !! l = Some (OArray es) → array_elems (VRef l) h = (h, inr es).
Proof. intros Hl. apply array_elems_run. unfold array_at. by rewrite Hl. Qed.

(** Both values are arrays of strings: the new array is written unless the
    two, sorted, have the same serialised form. *)
Lemma apply_update_tags lc P updates ln lo sn so h :
  h !! lc = Some (OPlain P) →
  get_prop updates "tags" h = (h, inr (VRef ln)) →
  P !! "tags" = Some (VRef lo) →
  h !! ln = Some (OArray (VStr <$> sn)) → h !! lo = Some (OArray (VStr <$> so)) →
  apply_update (VRef lc) updates "tags" h
  = (if bool_decide ("[" +:+ json_items (sort_strings sn) +:+ "]"
                     = "[" +:+ json_items (sort_strings so) +:+ "]")
     then h else <[lc := OPlain (<["tags" := VRef ln]> P)]> h, inr ()).
Proof.
  intros Hlc Hget Hold Hln Hlo. unfold apply_update.
  rewrite (run_bind _ _ _ _ _ Hget).
  rewrite (run_bind _ _ _ _ _ (get_prop_plain lc P "tags" h Hlc)).
  rewrite Hold. cbn [default].
  rewrite (bool_decide_eq_false_2 ("tags" = "price")) by done. cbn [andb].
  rewrite (run_bind _ _ _ _ _ (isArray_ref_run ln _ h Hln)).
  rewrite (run_bind _ _ _ _ _ (isArray_ref_run lo _ h Hlo)).
  rewrite (bool_decide_eq_true_2 ("tags" = "tags")) by done. cbn [andb].
  rewrite (run_bind _ _ _ _ _ (array_elems_ref_run ln _ h Hln)).
  rewrite (run_bind _ _ _ _ _ (array_elems_ref_run lo _ h Hlo)).
  rewrite (run_bind _ _ _ _ _ (array_sort_strings sn h)).
  rewrite (run_bind _ _ _ _ _ (array_sort_strings so h)).
  rewrite (run_bind _ _ _ _ _ (JSON_stringify_strings _ h)).
  rewrite (run_bind _ _ _ _ _ (JSON_stringify_strings _ h)).
  destruct (bool_decide _); cbn [negb]; [done|]. by apply set_prop_plain.
Qed.

(** A property of the base that is a primitive is the same in the copy. *)
Lemma copy_field_primitive d h ps h' lo (cps : gmap string value) k :
  (∀ k, option_Forall2 (λ x x', copy_of d h x h' lo x') (ps !! k) (cps !! k)) →
  (∀ l, field (OPlain ps) k ≠ VRef l) →
  field (OPlain cps) k = field (OPlain ps) k.
Proof.
  intros Hprops Hprim. unfold field in *. simpl in *.
  destruct (Hprops k) as [x x' Hx|]; [|done]. simpl in *.
  destruct d as [|d]; [done|]. destruct x; try done. by destruct (Hprim l).
Qed.

(** An array of strings of the base is, in the copy, a new array of the same
    strings. *)
Lemma copy_of_strings d h l ss h' lo x' :
  h !! l = Some (OArray (VStr <$> ss)) →
  copy_of d h (VRef l) h' lo x' →
  ∃ l', x' = VRef l' ∧ lo ≤ l' ∧ h' !! l' = Some (OArray (VStr <$> ss)).
Proof.
  intros Hl. destruct d as [|d]; [done|]. simpl. rewrite Hl.
  intros (l' & es' & -> & ? & Hl' & Hes). exists l'. repeat split; try done.
  rewrite Hl'. do 2 f_equal. clear Hl Hl'.
  revert es' Hes. induction ss as [|s ss IH]; intros es' Hes.
  - by inversion Hes.
  - inversion Hes as [|? y ? es'' Hy Hes']; simplify_eq. simpl. f_equal.
    + destruct d; [done|]. done.
    + by apply IH.
Qed.

(** When a loop returns, each of its turns returned, from a heap that the
    turns before it left. *)
Lemma mapM_returns {A B} (I : heap → Prop) (f : A → M B) (l : list A) :
  (∀ a h h' r, a ∈ l → I h → f a h = (h', r) → I h') →
  ∀ h h' bs, I h → mapM f l h = (h', inr bs) →
  ∀ a, a ∈ l → ∃ ha ha' b, I ha ∧ f a ha = (ha', inr b).
Proof.
  induction l as [|a l IH]; intros Hf h h' bs HI Hrun x Hx.
  { by apply elem_of_nil in Hx. }
  simpl in Hrun. inv_bind Hrun as h1 b H1.
  inv_bind Hrun as h2 bs' H2.
  apply elem_of_cons in Hx as [->|Hx]; [by exists h, h1, b|].
  eapply (IH (λ a' h3 h4 r Ha', Hf a' h3 h4 r (list_elem_of_further _ _ _ Ha')));
    [|done..].
  eapply (Hf a); [apply list_elem_of_here|done..].
Qed.

Lemma forM_returns {A} (I : heap → Prop) (l : list A) (body : A → M unit) :
  (∀ a h h' r, a ∈ l → I h → body a h = (h', r) → I h') →
  ∀ h h' u, I h → forM l body h = (h', inr u) →
  ∀ a, a ∈ l → ∃ ha ha', I ha ∧ body a ha = (ha', inr ()).
Proof.
  induction l as [|a l IH]; intros Hbody h h' u HI Hrun x Hx.
  { by apply elem_of_nil in Hx. }
  simpl in Hrun. inv_bind Hrun as h1 u1 H1. destruct u1.
  apply elem_of_cons in Hx as [->|Hx]; [by exists h, h1|].
  eapply (IH (λ a' h3 h4 r Ha', Hbody a' h3 h4 r (list_elem_of_further _ _ _ Ha')));
    [|done..].
  eapply (Hbody a); [apply list_elem_of_here|done..].
Qed.

Lemma closed_fields h l o k x :
  closed h = true → h !! l = Some o → fields o !! k = Some x →
  in_heap (length h) x = true.
Proof.
  unfold closed. rewrite forallb_forall. intros Hclosed Hl Hk.
  apply list_elem_of_lookup_2, list_elem_of_In, Hclosed in Hl.
  destruct o as [ps|es|t|ps]; try done; rewrite forallb_forall in Hl.
  all: apply Hl, list_elem_of_In, list_elem_of_fmap.
  all: exists (k, x); split; [done|]; by apply elem_of_map_to_list.
Qed.

Lemma closed_elems h l es x :
  closed h = true → h !! l = Some (OArray es) → x ∈ es →
  in_heap (length h) x = true.
Proof.
  unfold closed. rewrite forallb_forall. intros Hclosed Hl Hx.
  apply list_elem_of_lookup_2, list_elem_of_In, Hclosed in Hl.
  rewrite forallb_forall in Hl. by apply Hl, list_elem_of_In.
Qed.

Lemma fits_keyed_intro d h l o :
  h !! l = Some o → keyed o = true →
  (∀ k x, fields o !! k = Some x → fits d h x = true) →
  fits (S d) h (VRef l) = true.
Proof.
  intros Hl Ho Hall. cbn [fits]. rewrite Hl.
  destruct o as [ps|es|t|ps]; try done.
  all: apply forallb_forall; intros x Hx.
  all: apply list_elem_of_In, list_elem_of_fmap in Hx as ([k x'] & -> & Hk).
  all: apply elem_of_map_to_list in Hk; by apply (Hall k).
Qed.

(** In a heap without dangling references, [deepCopy] returns only on a
    structure that fits: whatever it has to walk deeper than the stack, and
    so whatever has a cycle, makes it throw. *)
Lemma deepCopy_returns_fits h :
  closed h = true →
  ∀ depth v hi h' v',
    h `prefix_of` hi → in_heap (length h) v = true →
    deepCopy depth v hi = (h', inr v') → fits depth h v = true.
Proof.
  intros Hclosed. induction depth as [|d IH]; intros v hi h' v' Hpre Hv Hrun.
  { unfold deepCopy, throw in Hrun. by simplify_eq. }
  destruct v as [| | | | |l]; try done.
  simpl in Hv. apply Nat.ltb_lt in Hv.
  destruct (lookup_lt_is_Some_2 h l Hv) as [o Hl].
  pose proof (prefix_lookup_Some _ _ _ _ Hl Hpre) as Hli.
  rewrite deepCopy_S in Hrun. rewrite typeof_is_object in Hrun.
  rewrite bool_decide_eq_false_2 in Hrun by done. cbn [negb orb] in Hrun.
  rewrite (run_bind _ _ _ _ _ (instanceof_Date_run _ _ _ Hli)) in Hrun.
  destruct (keyed o) eqn:Ho.
  - assert (match o with ODate _ => true | _ => false end = false) as Hdate
      by (by destruct o).
    assert (match o with OArray _ => true | _ => false end = false) as Harray
      by (by destruct o).
    rewrite Hdate in Hrun.
    rewrite (run_bind _ _ _ _ _ (isArray_ref_run _ _ _ Hli)), Harray in Hrun.
    inv_bind Hrun as h1 copy H1. unfold alloc in H1. simplify_eq.
    assert ((hi ++ [OPlain ∅]) !! l = Some o) as Hl1.
    { by apply lookup_app_l_Some. }
    rewrite (run_bind _ _ _ _ _ (own_keys_keyed _ _ _ Hl1 Ho)) in Hrun.
    inv_bind Hrun as h2 u H2.
    apply (fits_keyed_intro _ _ _ _ Hl Ho). intros k x Hk.
    eapply (forM_returns (λ h1, h `prefix_of` h1)) in H2
      as (ha & ha' & Hha & Hbody).
    + rewrite (run_bind _ _ _ _ _
        (get_prop_keyed _ _ k _ (prefix_lookup_Some _ _ _ _ Hl Hha) Ho)) in Hbody.
      unfold field in Hbody. rewrite Hk in Hbody. simpl in Hbody.
      inv_bind Hbody as h3 x3 H3. eapply IH; [done| |done].
      by eapply closed_fields.
    + intros key h3 h4 r4 _ Hpre3 Hbody.
      inv_bind Hbody as h5 x5 H5; [by apply get_prop_heap in H5 as ->|].
      apply get_prop_heap in H5 as ->.
      inv_bind Hbody as h5 x6 H5.
      { etrans; [done|]. by eapply deepCopy_frame. }
      apply deepCopy_frame in H5 as [H5 _]. apply set_prop_writes in Hbody.
      eapply writes_to_prefix; [by etrans|done|].
      intros ? [= <-]. by apply prefix_length.
    + etrans; [done|]. apply prefix_of_alloc.
    + apply elem_of_own_keys. by exists x.
  - cbn [fits]. rewrite Hl. destruct o as [ps|es|t|ps]; try done.
    rewrite (run_bind _ _ _ _ _ (isArray_ref_run _ _ _ Hli)) in Hrun.
    rewrite (run_bind _ _ _ _ _ (array_elems_ref_run _ _ _ Hli)) in Hrun.
    inv_bind Hrun as h2 items H2.
    apply forallb_forall. intros x Hx. apply list_elem_of_In in Hx.
    eapply (mapM_returns (λ h1, h `prefix_of` h1)) in H2
      as (ha & ha' & b & Hha & Hx'); [|..|done]; [|clear x Hx|done].
    + eapply IH; [done| |done]. by eapply closed_elems.
    + intros x h3 h4 r4 _ Hpre3 Hx. etrans; [done|]. by eapply deepCopy_frame.
Qed.


(** When a loop throws, one of its turns threw, from a heap that the turns
    before it left. *)
Lemma mapM_throws {A B} (I : heap → Prop) (f : A → M B) (l : list A) :
  (∀ a h h' b, a ∈ l → I h → f a h = (h', inr b) → I h') →
  ∀ h h' e, I h → mapM f l h = (h', inl e) →
  ∃ a ha ha', a ∈ l ∧ I ha ∧ f a ha = (ha', inl e).
Proof.
  induction l as [|a l IH]; intros Hf h h' e HI Hrun.
  { simpl in Hrun. unfold ret in Hrun. by simplify_eq. }
  simpl in Hrun.
  apply bind_inv in Hrun as [(e' & H1 & [= <-])|(h1 & b & H1 & Hrun)].
  { exists a, h, h'. split; [apply list_elem_of_here|done]. }
  apply bind_inv in Hrun as [(e' & H2 & [= <-])|(h2 & bs & H2 & Hrun)];
    [|unfold ret in Hrun; by simplify_eq].
  destruct (IH (λ a' h3 h4 r Ha', Hf a' h3 h4 r (list_elem_of_further _ _ _ Ha'))
              h1 h' e) as (x & ha & ha' & Hx & Hha & Hrunx); [|done|].
  { eapply (Hf a); [apply list_elem_of_here|done..]. }
  exists x, ha, ha'. split; [by apply list_elem_of_further|done].
Qed.

Lemma forM_throws {A} (I : heap → Prop) (l : list A) (body : A → M unit) :
  (∀ a h h' u, a ∈ l → I h → body a h = (h', inr u) → I h') →
  ∀ h h' e, I h → forM l body h = (h', inl e) →
  ∃ a ha ha', a ∈ l ∧ I ha ∧ body a ha = (ha', inl e).
Proof.
  induction l as [|a l IH]; intros Hbody h h' e HI Hrun.
  { simpl in Hrun. unfold ret in Hrun. by simplify_eq. }
  simpl in Hrun.
  apply bind_inv in Hrun as [(e' & H1 & [= <-])|(h1 & u & H1 & Hrun)].
  { exists a, h, h'. split; [apply list_elem_of_here|done]. }
  destruct (IH (λ a' h3 h4 r Ha', Hbody a' h3 h4 r (list_elem_of_further _ _ _ Ha'))
              h1 h' e) as (x & ha & ha' & Hx & Hha & Hrunx); [|done|].
  { eapply (Hbody a); [apply list_elem_of_here|done..]. }
  exists x, ha, ha'. split; [by apply list_elem_of_further|done].
Qed.

(** In a heap without dangling references, what [deepCopy] throws is the
    [RangeError] of the full stack. *)
Lemma deepCopy_throws h :
  closed h = true →
  ∀ depth v hi h' e,
    h `prefix_of` hi → in_heap (length h) v = true →
    deepCopy depth v hi = (h', inl e) → e = RangeError.
Proof.
  intros Hclosed. induction depth as [|d IH]; intros v hi h' e Hpre Hv Hrun.
  { unfold deepCopy, throw in Hrun. by simplify_eq. }
  destruct v as [| | | | |l]; try done.
  simpl in Hv. apply Nat.ltb_lt in Hv.
  destruct (lookup_lt_is_Some_2 h l Hv) as [o Hl].
  pose proof (prefix_lookup_Some _ _ _ _ Hl Hpre) as Hli.
  rewrite deepCopy_S in Hrun. rewrite typeof_is_object in Hrun.
  rewrite bool_decide_eq_false_2 in Hrun by done. cbn [negb orb] in Hrun.
  rewrite (run_bind _ _ _ _ _ (instanceof_Date_run _ _ _ Hli)) in Hrun.
  destruct (keyed o) eqn:Ho.
  - assert (match o with ODate _ => true | _ => false end = false) as Hdate
      by (by destruct o).
    assert (match o with OArray _ => true | _ => false end = false) as Harray
      by (by destruct o).
    rewrite Hdate in Hrun.
    rewrite (run_bind _ _ _ _ _ (isArray_ref_run _ _ _ Hli)), Harray in Hrun.
    rewrite (run_bind _ _ _ (hi ++ [OPlain ∅]) (VRef (length hi))
               (eq_refl : alloc (OPlain ∅) hi = _)) in Hrun.
    assert ((hi ++ [OPlain ∅]) !! l = Some o) as Hl1.
    { by apply lookup_app_l_Some. }
    rewrite (run_bind _ _ _ _ _ (own_keys_keyed _ _ _ Hl1 Ho)) in Hrun.
    apply bind_inv in Hrun as [(e' & H2 & [= <-])|(h2 & u & H2 & Hrun)];
      [|unfold ret in Hrun; by simplify_eq].
    apply (forM_throws
             (λ h1, h `prefix_of` h1
                    ∧ ∃ P, h1 !! length hi = Some (OPlain P))) in H2
      as (key & ha & ha' & Hkey & [Hha [P HP]] & Hbody).
    + apply elem_of_own_keys in Hkey as [x Hk].
      rewrite (run_bind _ _ _ _ _
        (get_prop_keyed _ _ key _ (prefix_lookup_Some _ _ _ _ Hl Hha) Ho)) in Hbody.
      unfold field in Hbody. rewrite Hk in Hbody. simpl in Hbody.
      apply bind_inv in Hbody as [(e' & H3 & [= <-])|(h3 & x3 & H3 & Hbody)].
      { eapply IH; [done| |done]. by eapply closed_fields. }
      apply deepCopy_frame in H3 as [H3 _].
      unfold deref, bind, store in Hbody.
      rewrite (prefix_lookup_Some _ _ _ _ HP H3) in Hbody. by simplify_eq.
    + intros key h3 h4 u4 _ [Hpre3 [P HP]] Hbody.
      inv_bind Hbody as h5 x5 H5. apply get_prop_heap in H5 as ->.
      inv_bind Hbody as h5 x6 H5.
      apply deepCopy_frame in H5 as [H5 _].
      pose proof (prefix_lookup_Some _ _ _ _ HP H5) as HP5.
      rewrite (set_prop_plain _ P) in Hbody by done. simplify_eq. split.
      * apply prefix_of_store; [by etrans|]. by apply prefix_length.
      * eexists. apply list_lookup_insert_eq. by eapply lookup_lt_Some.
    + split; [etrans; [done|apply prefix_of_alloc]|].
      exists ∅. by rewrite lookup_app_r, Nat.sub_diag by done.
  - destruct o as [ps|es|t|ps]; try done.
    + rewrite (run_bind _ _ _ _ _ (isArray_ref_run _ _ _ Hli)) in Hrun.
      rewrite (run_bind _ _ _ _ _ (array_elems_ref_run _ _ _ Hli)) in Hrun.
      apply bind_inv in Hrun as [(e' & H2 & [= <-])|(h2 & items & H2 & Hrun)];
        [|unfold alloc in Hrun; by simplify_eq].
      apply (mapM_throws (λ h1, h `prefix_of` h1)) in H2
        as (x & ha & ha' & Hx & Hha & Hrunx); [| |done].
      * eapply IH; [done| |done]. by eapply closed_elems.
      * intros x h3 h4 r4 _ Hpre3 Hx. etrans; [done|]. by eapply deepCopy_frame.
    + unfold getTime, deref, bind in Hrun. rewrite Hli in Hrun.
      unfold ret, new_Date, alloc in Hrun. by simplify_eq.
Qed.

(** A structure that fits has no chain of references as long as the stack
    is deep. *)
Lemma fits_child d h l l' :
  fits (S d) h (VRef l) = true → child h l l' → fits d h (VRef l') = true.
Proof.
  unfold child. cbn [fits]. destruct (h !! l) as [[ps|es|t|ps]|]; try done.
  - intros Hall [k Hk]. rewrite forallb_forall in Hall.
    apply Hall, list_elem_of_In, list_elem_of_fmap. exists (k, VRef l').
    split; [done|]. by apply elem_of_map_to_list.
  - intros Hall Hin. rewrite forallb_forall in Hall.
    by apply Hall, list_elem_of_In.
  - intros Hall [k Hk]. rewrite forallb_forall in Hall.
    apply Hall, list_elem_of_In, list_elem_of_fmap. exists (k, VRef l').
    split; [done|]. by apply elem_of_map_to_list.
Qed.

Lemma fits_path n :
  ∀ d h l l', fits d h (VRef l) = true → nsteps (child h) n l l' → n < d.
Proof.
  induction n as [|n IH]; intros d h l l' Hfits Hpath.
  - destruct d; [done|lia].
  - destruct d as [|d]; [done|].
    inversion Hpath as [|? ? l1 ? Hstep Hrest]; subst.
    apply (fits_child _ _ _ _ Hfits) in Hstep.
    specialize (IH d h l1 l' Hstep Hrest). lia.
Qed.

(** Around a cycle there are chains of every length. *)
Lemma cycle_paths h l n :
  tc (child h) l l → ∃ m, n ≤ m ∧ nsteps (child h) m l l.
Proof.
  intros Hc. apply tc_nsteps in Hc as (k & Hk & Hsteps).
  induction n as [|n (m & Hm & Hpath)].
  - exists 0. split; [done|]. constructor.
  - exists (m + k). split; [lia|]. by eapply nsteps_trans.
Qed.

(** A structure with a cycle fits in no stack. *)
Lemma cyclic_fits d h v : cyclic h v → fits d h v = false.
Proof.
  intros (l & l' & -> & Hreach & Hcycle). apply not_true_is_false.
  intros Hfits. apply rtc_nsteps in Hreach as [n Hn].
  destruct (cycle_paths h l' d Hcycle) as (m & Hm & Hpath).
  pose proof (fits_path _ _ _ _ _ Hfits (nsteps_trans _ _ _ _ _ Hn Hpath)).
  lia.
Qed.

(** C7, as stated, fails: a valid base may hold a reference to itself, and
    then the copy does not end: however deep the stack, the call throws the
    [RangeError] of the full stack and returns no result. *)
Lemma update_cyclic_base_never_returns :
  ¬ (∀ now lb ps lt lu lt' h,
       h !! lb = Some (OPlain ps) →
       (validateRecord (VRef lb) h).2 = inr (valid_result (VRef lb)) →
       ps !! "tags" = Some (VRef lt) →
       h !! lt = Some (OArray [VStr "a"; VStr "b"]) →
       h !! lu = Some (OPlain {["tags" := VRef lt']}) →
       h !! lt' = Some (OArray [VStr "b"; VStr "a"]) →
       ∃ depth h' lc o' lt2,
         updateRecordWithValidation depth now (VRef lb) (VRef lu) h
         = (h', inr (valid_result (VRef lc)))
         ∧ h' !! lc = Some o' ∧ field o' "tags" = VRef lt2
         ∧ length h ≤ lt2 ∧ h' !! lt2 = Some (OArray [VStr "a"; VStr "b"])).
Proof.
  intros Hclaim.
  destruct (Hclaim Sample.clock 0 (<["self" := VRef 0]> Sample.validRecord)
              1 4 5 looped)
    as (depth & h' & lc & o' & lt2 & Hrun & _);
    [reflexivity|vm_compute; reflexivity|reflexivity..|].
  unfold updateRecordWithValidation in Hrun.
  apply bind_inv in Hrun as [(e & _ & [=])|(hc & copy & Hcopy & _)].
  assert (fits depth looped (VRef 0) = true) as Hfits.
  { by eapply (deepCopy_returns_fits looped). }
  rewrite cyclic_fits in Hfits; [done|].
  exists 0, 0. split; [done|]. split; [apply rtc_refl|].
  apply tc_once. by exists "self".
Qed.

(** C7, amended.  The base is a valid record whose tags are ["a", "b"], a
    finite structure without cycle that [deepCopy] walks within the stack,
    and the change set is { tags: ["b", "a"] }.  The call returns a valid
    result, and the tags of its record are ["a", "b"], in the order of the
    base: they are the copy's own array (a new object), not the array of the
    change set, which was not written. *)
Theorem update_same_tags_other_order depth now lb ps lt lu lt' h :
  h !! lb = Some (OPlain ps) →
  fits depth h (VRef lb) = true →
  (validateRecord (VRef lb) h).2 = inr (valid_result (VRef lb)) →
  ps !! "tags" = Some (VRef lt) →
  h !! lt = Some (OArray [VStr "a"; VStr "b"]) →
  h !! lu = Some (OPlain {["tags" := VRef lt']}) →
  h !! lt' = Some (OArray [VStr "b"; VStr "a"]) →
  ∃ h' lc o' lt2,
    updateRecordWithValidation depth now (VRef lb) (VRef lu) h
    = (h', inr (valid_result (VRef lc)))
    ∧ h' !! lc = Some o' ∧ field o' "tags" = VRef lt2
    ∧ length h ≤ lt2 ∧ h' !! lt2 = Some (OArray [VStr "a"; VStr "b"]).
Proof.
  intros Hlb Hfits Hbase Htags Hlt Hlu Hlt'.
  (* the base passes each test *)
  rewrite (validateRecord_run lb _ h Hlb eq_refl) in Hbase. simpl in Hbase.
  injection Hbase as Hbase.
  destruct (verdict_valid _ _ _ Hbase eq_refl) as [Herrs _].
  destruct (field_errors_nil _ _ _ Herrs) as (Hid & Hname & [x Hprice] & _).
  (* the copy *)
  destruct (deepCopy_spec _ _ _ Hfits) as (hc & v' & Hcopy & Hspec).
  destruct (deepCopy_frame _ _ _ _ _ Hcopy) as [Hpre _].
  destruct depth as [|d]; [done|]. simpl in Hspec. rewrite Hlb in Hspec.
  destruct Hspec as (lc & cps & -> & Hlo & Hlc & Hprops).
  pose proof (lookup_lt_Some _ _ _ Hlc) as Hhi.
  assert (∃ lt2, cps !! "tags" = Some (VRef lt2) ∧ S lc ≤ lt2
                 ∧ hc !! lt2 = Some (OArray [VStr "a"; VStr "b"]))
    as (lt2 & Hctags & Hlt2lo & Hlt2).
  { pose proof (Hprops "tags") as Ht. rewrite Htags in Ht.
    inversion Ht as [? x' Hx Heq1 Heq2|]. symmetry in Heq2.
    destruct (copy_of_strings d h lt ["a"; "b"] hc (S lc) x' Hlt Hx)
      as (lt2 & -> & ? & ?).
    by exists lt2. }
  (* the heap when the loop starts *)
  set (h2 := hc ++ [ODate (Some now)]).
  set (P3 := <["updatedAt" := VRef (length hc)]> cps).
  set (h3 := <[lc := OPlain P3]> h2).
  assert (h2 !! lc = Some (OPlain cps)) as Hlc2 by (by apply lookup_app_l_Some).
  assert (h3 !! lc = Some (OPlain P3)) as Hlc3.
  { apply list_lookup_insert_eq. by eapply lookup_lt_Some. }
  assert (∀ l o, l ≠ lc → hc !! l = Some o → h3 !! l = Some o) as Hkeep.
  { intros l o Hne Hl. unfold h3. rewrite list_lookup_insert_ne by done.
    by apply lookup_app_l_Some. }
  assert (∀ l o, h !! l = Some o → h3 !! l = Some o) as Hold.
  { intros l o Hl. apply Hkeep.
    - apply lookup_lt_Some in Hl. lia.
    - by eapply prefix_lookup_Some. }
  (* the one turn of the loop writes nothing *)
  assert (apply_update (VRef lc) (VRef lu) "tags" h3 = (h3, inr ())) as Hturn.
  { rewrite (apply_update_tags lc P3 (VRef lu) lt' lt2 ["b"; "a"] ["a"; "b"] h3);
      [done|done| | |by apply Hold|apply Hkeep; [lia|done]].
    - rewrite (get_prop_plain lu _ "tags" h3 (Hold _ _ Hlu)).
      by rewrite lookup_singleton_eq.
    - unfold P3. by rewrite lookup_insert_ne. }
  (* the copy passes each test *)
  assert (∀ k, k ≠ "updatedAt" → (∀ l, field (OPlain ps) k ≠ VRef l) →
               field (OPlain P3) k = field (OPlain ps) k) as Hfield.
  { intros k Hk Hprim. rewrite <- (copy_field_primitive _ _ _ _ _ _ _ Hprops Hprim).
    unfold field, P3. simpl. by rewrite lookup_insert_ne. }
  destruct (usable_price_Some _ _ Hprice) as [Hp _].
  assert (field (OPlain P3) "tags" = VRef lt2) as Hftags.
  { unfold field, P3. simpl. by rewrite lookup_insert_ne, Hctags. }
  assert (field_errors lc (OPlain P3) h3 = []) as Herrs3.
  { unfold field_errors, after_price.
    rewrite (Hfield "id"), (Hfield "name"), (Hfield "price"), Hftags;
      [|done|by rewrite Hp|done|by apply blank_false|done|by apply blank_false].
    rewrite Hid, Hname, Hprice. cbn [read_only]. unfold array_at.
    rewrite list_lookup_insert_ne by lia.
    by rewrite (Hkeep lt2 _ ltac:(lia) Hlt2). }
  destruct (after_price_fields lc P3 h3 Hlc3) as (o' & Hlc' & Hfields).
  exists (after_price lc (OPlain P3) h3), lc, o', lt2. split; [|split; [done|split]].
  - unfold updateRecordWithValidation.
    rewrite (run_bind _ _ _ _ _ Hcopy).
    rewrite (run_bind _ _ _ h2 (VRef (length hc))
               (eq_refl : new_Date (Some now) hc = (h2, _))).
    rewrite (run_bind _ _ _ _ _ (set_prop_plain lc cps "updatedAt" _ h2 Hlc2)).
    rewrite (run_bind _ _ _ _ _ (own_keys_plain lu _ h3 (Hold _ _ Hlu))).
    rewrite map_to_list_singleton. simpl.
    rewrite (run_bind _ _ _ _ _ (run_bind _ _ _ _ _ Hturn)).
    rewrite (run_bind _ _ _ _ _ (validateRecord_run lc _ h3 Hlc3 eq_refl)).
    by rewrite Herrs3.
  - rewrite Hfields by done. unfold P3. by rewrite lookup_insert_ne, Hctags.
  - split; [lia|]. unfold after_price. cbn [read_only].
    destruct (usable_price (field (OPlain P3) "price"));
      [rewrite list_lookup_insert_ne by lia|]; by apply Hkeep; [lia|].
Qed.

Lemma update_same_tags_other_order_witness :
  ∃ h' lc o' lt2,
    updateRecordWithValidation 3 Sample.clock (VRef 0) (VRef 4) Sample.reordered
    = (h', inr (valid_result (VRef lc)))
    ∧ h' !! lc = Some o' ∧ field o' "tags" = VRef lt2
    ∧ length Sample.reordered ≤ lt2
    ∧ h' !! lt2 = Some (OArray [VStr "a"; VStr "b"]).
Proof.
  apply (update_same_tags_other_order 3 Sample.clock 0 Sample.validRecord 1 4 5
           Sample.reordered).
  - reflexivity.
  - vm_compute. reflexivity.
  - vm_compute. reflexivity.
  - vm_compute. reflexivity.
  - reflexivity.
  - reflexivity.
  - reflexivity.
Defined.

(** ** Rounding twice *)

Section Rounding.
Local Open Scope Z_scope.

Lemma pow2_S K : 0 ≤ K → 2 ^ (K + 1) = 2 * 2 ^ K.
Proof. intros. rewrite Z.pow_add_r by lia. lia. Qed.

(** Powers of two with a known exponent, as numbers. *)
Ltac pow2_value k :=
  let v := eval vm_compute in (2 ^ k) in
  lazymatch v with
  | context [match _ with _ => _ end] => fail
  | _ => v
  end.

Ltac pow2_values :=
  repeat match goal with
    | |- context [2 ^ ?k] =>
        let v := pow2_value k in change (2 ^ k) with v
    | H : context [2 ^ ?k] |- _ =>
        let v := pow2_value k in change (2 ^ k) with v in H
    end.

Lemma pow2_pos K : 0 ≤ K → 0 < 2 ^ K.
Proof. intros. by apply Z.pow_pos_nonneg. Qed.

Lemma div_nearest_even_bounds a b :
  0 < b → - b ≤ 2 * (b * div_nearest_even a b - a) ≤ b.
Proof.
  intros Hb. unfold div_nearest_even.
  pose proof (Z.div_mod a b ltac:(lia)) as Hdm.
  pose proof (Z.mod_pos_bound a b Hb) as Hr.
  destruct (Z.compare_spec (2 * (a mod b)) b); [destruct (Z.even _)|..]; lia.
Qed.

Lemma div_nearest_even_unique a b m :
  0 < b → - b < 2 * (b * m - a) < b → div_nearest_even a b = m.
Proof.
  intros Hb Hm. pose proof (div_nearest_even_bounds a b Hb) as Hq.
  assert (-2 * b < 2 * b * (div_nearest_even a b - m) < 2 * b) by lia.
  nia.
Qed.

Lemma floor_log2_100 n K :
  0 < n → 0 ≤ K → 100 * 2 ^ K ≤ n < 100 * 2 ^ (K + 1) → floor_log2_ratio n 100 = K.
Proof.
  intros Hn HK [Hlo Hhi]. unfold floor_log2_ratio.
  change (Z.log2 100) with 6.
  destruct (Z.log2_spec n Hn) as [HL1 HL2].
  pose proof (Z.log2_nonneg n) as HL0.
  pose proof (pow2_pos K HK) as HP.
  rewrite pow2_S in Hhi by done.
  assert (K + 6 ≤ Z.log2 n) as H1.
  { apply Z.log2_le_pow2; [done|]. rewrite Z.pow_add_r by lia. change (2^6) with 64. lia. }
  assert (Z.log2 n < K + 8) as H2.
  { apply Z.log2_lt_pow2; [done|]. rewrite Z.pow_add_r by lia. change (2^8) with 256. lia. }
  assert (Z.log2 n = K + 6 ∨ Z.log2 n = K + 7) as [->| ->] by lia.
  - replace (K + 6 - 6) with K by lia. unfold cmp_scaled.
    destruct (Z.leb_spec K 0).
    + assert (K = 0) as -> by lia. replace (0 - 0) with 0 by lia.
      change (2 ^ 0) with 1 in *. destruct (Z.compare_spec 100 (n * 1)); lia.
    + replace (K - 0) with K by lia. destruct (Z.compare_spec (100 * 2 ^ K) n); lia.
  - replace (K + 7 - 6) with (K + 1) by lia. unfold cmp_scaled.
    destruct (Z.leb_spec (K + 1) 0); [lia|].
    replace (K + 1 - 0) with (K + 1) by lia. rewrite pow2_S by done.
    destruct (Z.compare_spec (100 * (2 * 2 ^ K)) n); lia.
Qed.

Lemma floor_log2_100_bounds n :
  0 < n → 0 ≤ floor_log2_ratio n 100 →
  100 * 2 ^ floor_log2_ratio n 100 ≤ n < 100 * 2 ^ (floor_log2_ratio n 100 + 1).
Proof.
  intros Hn. unfold floor_log2_ratio. change (Z.log2 100) with 6.
  destruct (Z.log2_spec n Hn) as [HL1 HL2].
  pose proof (Z.log2_nonneg n) as HL0.
  set (L := Z.log2 n) in *. unfold cmp_scaled.
  replace (Z.succ L) with (L - 6 + 7) in HL2 by lia.
  destruct (Z.leb_spec (L - 6) 0) as [Hd|Hd].
  - destruct (Z.compare_spec 100 (n * 2 ^ (0 - (L - 6)))) as [Hc|Hc|Hc];
      intros Hk; try lia;
      (assert (L = 6) as HL by lia); rewrite HL in *;
      change (2 ^ (0 - (6 - 6))) with 1 in Hc; change (2 ^ (6 - 6)) with 1;
      change (2 ^ (6 - 6 + 7)) with 128 in HL2; change (2 ^ (6 - 6 + 1)) with 2; lia.
  - replace (L - 6 - 0) with (L - 6) by lia.
    assert (2 ^ L = 64 * 2 ^ (L - 6)) as HL.
    { replace L with (L - 6 + 6) at 1 by lia. rewrite Z.pow_add_r by lia. lia. }
    rewrite Z.pow_add_r in HL2 by lia. change (2 ^ 7) with 128 in HL2.
    destruct (Z.compare_spec (100 * 2 ^ (L - 6)) n); intros Hk.
    + rewrite pow2_S by lia. lia.
    + rewrite pow2_S by lia. lia.
    + replace (L - 6 - 1 + 1) with (L - 6) by lia.
      assert (2 ^ (L - 6) = 2 * 2 ^ (L - 6 - 1)) as HL'.
      { replace (L - 6) with (L - 6 - 1 + 1) at 1 by lia. apply pow2_S. lia. }
      lia.
Qed.

Lemma div_nearest_even_nonneg a b : 0 ≤ a → 0 < b → 0 ≤ div_nearest_even a b.
Proof.
  intros Ha Hb. unfold div_nearest_even.
  pose proof (Z.div_pos a b Ha Hb).
  destruct (_ ?= _); [destruct (Z.even _)|..]; lia.
Qed.

(** The shape of a finite result of [nearest_double]. *)
Lemma nearest_double_Finite s n s' m e :
  0 < n → nearest_double s n 100 = Finite s' m e →
  s' = s ∧ ∃ e0 m0,
    e0 = Z.max (floor_log2_ratio n 100 - 52) (-1074)
    ∧ m0 = (if 0 <=? e0 then div_nearest_even n (100 * 2 ^ e0)
            else div_nearest_even (n * 2 ^ (- e0)) 100)
    ∧ ((Z.pos m = m0 ∧ m0 ≠ 2 ^ 53 ∧ e = e0)
       ∨ (m0 = 2 ^ 53 ∧ Z.pos m = 2 ^ 52 ∧ e = e0 + 1)).
Proof.
  intros Hn. unfold nearest_double.
  destruct (Z.eqb_spec n 0) as [|_]; [lia|].
  set (e0 := Z.max (floor_log2_ratio n 100 - 52) (-1074)).
  set (m0 := if 0 <=? e0 then _ else _).
  assert (0 ≤ m0) as Hm0.
  { unfold m0. destruct (0 <=? e0) eqn:He.
    - apply div_nearest_even_nonneg; [lia|]. apply Z.leb_le in He.
      pose proof (pow2_pos e0 He). lia.
    - apply div_nearest_even_nonneg; [|lia]. apply Z.leb_gt in He.
      pose proof (pow2_pos (- e0) ltac:(lia)). lia. }
  destruct (Z.eqb_spec m0 0) as [|Hne0]; [done|].
  destruct (Z.eqb_spec m0 (2 ^ 53)) as [Heq|Hne].
  - destruct (971 <? e0 + 1); [done|]. intros [= <- <- <-].
    split; [done|]. exists e0, m0. split; [done|]. split; [done|]. by right.
  - destruct (971 <? e0); [done|]. intros [= <- <- <-].
    split; [done|]. exists e0, m0. split; [done|]. split; [done|]. left.
    split; [by rewrite Z2Pos.id by lia|done].
Qed.

(** A result whose last bit is worth 1/64 or more has a full mantissa. *)
Lemma nearest_double_normal s n s' m e :
  0 < n → nearest_double s n 100 = Finite s' m e → -6 ≤ e →
  2 ^ 52 ≤ Z.pos m < 2 ^ 53.
Proof.
  intros Hn Hy He.
  destruct (nearest_double_Finite _ _ _ _ _ Hn Hy)
    as (_ & e0 & m0 & He0 & Hm0 & Hcase).
  destruct Hcase as [(Hm & Hne & ->)|(_ & -> & _)]; [|lia].
  assert (e0 = floor_log2_ratio n 100 - 52) as Hk by lia.
  destruct (floor_log2_100_bounds n Hn) as [Hlo Hhi]; [lia|].
  replace (floor_log2_ratio n 100) with (e0 + 52) in Hlo, Hhi by lia.
  clear He0 Hk. rewrite Hm.
  destruct (Z.leb_spec 0 e0) as [Hpos|Hneg].
  - replace (e0 + 52 + 1) with (53 + e0) in Hhi by lia.
    replace (e0 + 52) with (52 + e0) in Hlo by lia.
    rewrite Z.pow_add_r in Hlo, Hhi by lia.
    pose proof (pow2_pos e0 Hpos) as HP.
    pose proof (div_nearest_even_bounds n (100 * 2 ^ e0) ltac:(lia)) as Hb.
    rewrite <- Hm0 in Hb. set (P := 2 ^ e0) in *.
    assert (2 ^ 52 ≤ m0 ≤ 2 ^ 53) by nia. lia.
  - assert (∃ t, e0 = - t ∧ 1 ≤ t ≤ 6) as (t & -> & Ht) by (exists (- e0); lia).
    replace (- - t) with t in Hm0 by lia.
    pose proof (div_nearest_even_bounds (n * 2 ^ t) 100 ltac:(lia)) as Hb.
    rewrite <- Hm0 in Hb. clear Hm0 Hy.
    assert (t = 1 ∨ t = 2 ∨ t = 3 ∨ t = 4 ∨ t = 5 ∨ t = 6)
      as [->|[->|[->|[->|[->| ->]]]]] by lia; pow2_values; lia.
Qed.

(** A result whose last bit is worth 1/128 or less gives back, in
    hundredths, the integer it was made from. *)
Lemma hundredths_nearest_double s n s' m e :
  0 < n → nearest_double s n 100 = Finite s' m e → e ≤ -7 →
  hundredths (Z.pos m) e = n.
Proof.
  intros Hn Hy He.
  destruct (nearest_double_Finite _ _ _ _ _ Hn Hy)
    as (_ & e0 & m0 & _ & Hm0 & Hcase).
  unfold hundredths. destruct (Z.leb_spec 0 e) as [|_]; [lia|].
  assert (∃ t, e = - t ∧ 7 ≤ t) as (t & -> & Ht) by (exists (- e); lia).
  replace (- - t) with t by lia. replace (1 - - t) with (t + 1) by lia.
  rewrite pow2_S by lia.
  assert (128 ≤ 2 ^ t) as HT.
  { replace t with (7 + (t - 7)) by lia. rewrite Z.pow_add_r by lia.
    pose proof (pow2_pos (t - 7) ltac:(lia)). change (2 ^ 7) with 128. lia. }
  destruct Hcase as [(-> & _ & <-)|(Hm & -> & He0)].
  - destruct (Z.leb_spec 0 (- t)) as [|_]; [lia|].
    replace (- - t) with t in Hm0 by lia.
    pose proof (div_nearest_even_bounds (n * 2 ^ t) 100 ltac:(lia)) as Hb.
    rewrite <- Hm0 in Hb. set (T := 2 ^ t) in *.
    symmetry. apply (Z.div_unique _ _ n (200 * m0 + T - 2 * T * n)); lia.
  - assert (e0 = - (t + 1)) as -> by lia.
    destruct (Z.leb_spec 0 (- (t + 1))) as [|_]; [lia|].
    replace (- - (t + 1)) with (t + 1) in Hm0 by lia.
    rewrite pow2_S in Hm0 by lia.
    pose proof (div_nearest_even_bounds (n * (2 * 2 ^ t)) 100 ltac:(lia)) as Hb.
    rewrite <- Hm0, Hm in Hb. set (T := 2 ^ t) in *.
    symmetry. apply (Z.div_unique _ _ n (200 * 2 ^ 52 + T - 2 * T * n)); lia.
Qed.

(** A double with a full mantissa whose last bit is worth 1/64 or more is
    the double nearest to its own rounding to hundredths. *)
Lemma nearest_double_hundredths s m e :
  2 ^ 52 ≤ Z.pos m < 2 ^ 53 → -6 ≤ e →
  cmp_scaled (Z.pos m) e (10 ^ 21) 0 = Lt →
  nearest_double s (hundredths (Z.pos m) e) 100 = Finite s m e.
Proof.
  intros Hm He Hlt.
  assert (e < 18) as He18.
  { destruct (Z.leb_spec 18 e) as [Hbig|]; [|done]. exfalso.
    unfold cmp_scaled in Hlt. destruct (Z.leb_spec e 0); [lia|].
    replace (e - 0) with e in Hlt by lia. apply Z.compare_lt_iff in Hlt.
    pose proof (Z.pow_le_mono_r 2 18 e ltac:(lia) Hbig) as Hpow.
    pow2_values. vm_compute (10 ^ 21) in Hlt. rewrite Z.compare_lt_iff in Hlt. nia. }
  assert (∀ n, 0 < n → floor_log2_ratio n 100 = 52 + e →
    (if 0 <=? e then div_nearest_even n (100 * 2 ^ e)
     else div_nearest_even (n * 2 ^ (- e)) 100) = Z.pos m →
    nearest_double s n 100 = Finite s m e) as Hfinish.
  { intros n Hn Hk Hm0. unfold nearest_double.
    destruct (Z.eqb_spec n 0) as [|_]; [lia|].
    rewrite Hk. replace (Z.max (52 + e - 52) (-1074)) with e by lia.
    rewrite Hm0. destruct (Z.eqb_spec (Z.pos m) 0) as [|_]; [lia|].
    destruct (Z.eqb_spec (Z.pos m) (2 ^ 53)) as [|_]; [lia|].
    destruct (Z.ltb_spec 971 e) as [|_]; [lia|]. done. }
  unfold hundredths. destruct (Z.leb_spec 0 e) as [Hpos|Hneg].
  - pose proof (pow2_pos e Hpos) as HP. apply Hfinish.
    + nia.
    + apply floor_log2_100; [nia|lia|].
      replace (52 + e + 1) with (53 + e) by lia.
      rewrite !Z.pow_add_r by lia. nia.
    + destruct (Z.leb_spec 0 e) as [_|]; [|lia].
      apply div_nearest_even_unique; nia.
  - assert (e = -1 ∨ e = -2 ∨ e = -3 ∨ e = -4 ∨ e = -5 ∨ e = -6)
      as [->|[->|[->|[->|[->| ->]]]]] by lia; clear Hlt Hneg He He18;
      pow2_values;
      (apply Hfinish;
       [ Z.div_mod_to_equations; lia
       | apply floor_log2_100; [|lia|]; pow2_values; Z.div_mod_to_equations; lia
       | cbn [Z.leb Z.compare]; pow2_values;
         apply div_nearest_even_unique; [lia|]; Z.div_mod_to_equations; lia ]).
Qed.

Lemma hundredths_nonneg m e : 0 < m → 0 ≤ hundredths m e.
Proof.
  intros Hm. unfold hundredths. destruct (Z.leb_spec 0 e) as [Hpos|Hneg].
  - pose proof (pow2_pos e Hpos). nia.
  - pose proof (pow2_pos (- e) ltac:(lia)).
    pose proof (pow2_pos (1 - e) ltac:(lia)).
    apply Z.div_pos; lia.
Qed.

(** Rounding a rounded number changes nothing but the sign of a zero. *)
Lemma round2_twice x : round2 (round2 x) = unsigned_zero (round2 x).
Proof.
  destruct x as [|s|s|s m e]; try reflexivity.
  unfold round2 at 2 3. unfold toFixed2.
  destruct (cmp_scaled (Z.pos m) e (10 ^ 21) 0) eqn:Hc;
    [by unfold parseFloat, round2, toFixed2; rewrite Hc| |
     by unfold parseFloat, round2, toFixed2; rewrite Hc].
  unfold parseFloat.
  pose proof (hundredths_nonneg (Z.pos m) e ltac:(lia)) as Hn.
  destruct (Z.eq_dec (hundredths (Z.pos m) e) 0) as [->|Hne]; [reflexivity|].
  destruct (nearest_double s (hundredths (Z.pos m) e) 100)
    as [|s'|s'|s' m' e'] eqn:Hy; try reflexivity.
  unfold round2, toFixed2, unsigned_zero.
  destruct (cmp_scaled (Z.pos m') e' (10 ^ 21) 0) eqn:Hc'; try reflexivity.
  assert (0 < hundredths (Z.pos m) e) as Hpos by lia.
  unfold parseFloat. destruct (Z.le_gt_cases e' (-7)) as [He'|He'].
  - rewrite (hundredths_nearest_double _ _ _ _ _ Hpos Hy He').
    destruct (nearest_double_Finite _ _ _ _ _ Hpos Hy) as [-> _]. done.
  - apply nearest_double_hundredths; [|lia|done].
    eapply nearest_double_normal; [exact Hpos|done|lia].
Qed.

Lemma round2_not_NaN x : Num.isNaN x = false → Num.isNaN (round2 x) = false.
Proof.
  destruct x as [|s|s|s m e]; try done. intros _. unfold round2, toFixed2.
  destruct (cmp_scaled _ _ _ _); try done.
  unfold parseFloat, nearest_double.
  repeat match goal with |- context [if ?b then _ else _] => destruct b end;
    done.
Qed.

End Rounding.

(** ** Validating twice *)

(** C8, as stated, fails: a price of -0.001 is rounded to negative zero by
    the first validation, and negative zero to positive zero by the second,
    which therefore writes to the record. *)
Lemma revalidation_changes_negative_zero :
  ¬ (∀ v h h1 res1,
       validateRecord v h = (h1, inr res1) → isValid res1 = true →
       ∃ r, record res1 = Some r ∧ validateRecord r h1 = (h1, inr res1)).
Proof.
  intros Hclaim.
  set (h := Sample.priced (of_ratio true 1 1000)).
  destruct (Hclaim (VRef 0) h (validateRecord (VRef 0) h).1 (valid_result (VRef 0)))
    as (r & [= <-] & Hagain).
  - vm_compute. reflexivity.
  - reflexivity.
  - vm_compute in Hagain. discriminate Hagain.
Qed.

(** C8, amended.  When [validateRecord] has succeeded on a record, validating
    the record again succeeds with the same result, and leaves every field
    of the record as it is, except that a price of negative zero becomes
    positive zero. *)
Theorem validateRecord_twice v h h1 res1 :
  validateRecord v h = (h1, inr res1) → isValid res1 = true →
  ∃ l P x,
    record res1 = Some (VRef l) ∧ h1 !! l = Some (OPlain P)
    ∧ P !! "price" = Some (VNum x)
    ∧ validateRecord (VRef l) h1
      = (<[l := OPlain (<["price" := VNum (unsigned_zero x)]> P)]> h1, inr res1)
    ∧ (x ≠ Zero true → validateRecord (VRef l) h1 = (h1, inr res1)).
Proof.
  intros Hrun Hvalid.
  destruct (validateRecord_valid_inv _ _ _ _ Hrun Hvalid)
    as (l & o & -> & Hl & -> & Herrs & ->).
  destruct (field_errors_nil _ _ _ Herrs)
    as (Hid & Hname & [x0 Hprice] & es & Harr & Htags).
  destruct (set_price_run l o x0 h Hl Hprice) as [_ Hl1];
    [by eapply returned_writable|].
  destruct (usable_price_Some _ _ Hprice) as [_ Hnan].
  set (h1 := after_price l o h) in *.
  set (P := <["price" := VNum (round2 x0)]> (fields o)) in *.
  assert (∀ k, k ≠ "price" → field (OPlain P) k = field o k) as Hsame.
  { intros k Hk. unfold field, P. simpl. by rewrite lookup_insert_ne. }
  assert (field (OPlain P) "price" = VNum (round2 x0)) as Hp.
  { unfold field, P. simpl. by rewrite lookup_insert_eq. }
  assert (usable_price (field (OPlain P) "price") = Some (round2 x0)) as Hprice'.
  { rewrite Hp. simpl. by rewrite round2_not_NaN. }
  set (h2 := <[l := OPlain (<["price" := VNum (unsigned_zero (round2 x0))]> P)]> h1).
  assert (after_price l (OPlain P) h1 = h2) as Hafter.
  { unfold after_price. rewrite Hprice'. by rewrite round2_twice. }
  assert (validateRecord (VRef l) h1 = (h2, inr (valid_result (VRef l)))) as Hagain.
  { rewrite (validateRecord_run l _ h1 Hl1 eq_refl), Hafter. do 2 f_equal.
    unfold field_errors.
    rewrite Hafter, (Hsame "id"), (Hsame "name"), (Hsame "tags") by done.
    rewrite Hid, Hname, Hprice'.
    assert (array_at h2 (field o "tags") = Some es) as ->; [|by rewrite Htags].
    unfold array_at in *. destruct (field o "tags") as [| | | | |lt]; try done.
    destruct (decide (lt = l)) as [->|Hne]; [by rewrite Hl1 in Harr|].
    unfold h2. by rewrite list_lookup_insert_ne. }
  exists l, P, (round2 x0). split; [done|]. split; [done|].
  split; [by apply lookup_insert_eq|]. split; [done|].
  intros Hzero. rewrite Hagain. f_equal. unfold h2.
  assert (unsigned_zero (round2 x0) = round2 x0) as ->.
  { destruct (round2 x0) as [| |[]|]; try done. }
  rewrite insert_id by (by apply lookup_insert_eq). by apply list_insert_id.
Qed.

Lemma validateRecord_twice_witness :
  ∃ l P x,
    Some (VRef 0) = Some (VRef l)
    ∧ (validateRecord (VRef 0) Sample.long_price).1 !! l = Some (OPlain P)
    ∧ P !! "price" = Some (VNum x)
    ∧ validateRecord (VRef l) (validateRecord (VRef 0) Sample.long_price).1
      = (<[l := OPlain (<["price" := VNum (unsigned_zero x)]> P)]>
           (validateRecord (VRef 0) Sample.long_price).1,
         inr (valid_result (VRef 0)))
    ∧ (x ≠ Zero true →
       validateRecord (VRef l) (validateRecord (VRef 0) Sample.long_price).1
       = ((validateRecord (VRef 0) Sample.long_price).1,
          inr (valid_result (VRef 0)))).
Proof.
  apply (validateRecord_twice (VRef 0) Sample.long_price _
           (valid_result (VRef 0))).
  - vm_compute. reflexivity.
  - reflexivity.
Defined.

(** ** The base after the call, in depth *)

Lemma deep_equal_same d h h' v :
  h `prefix_of` h' → fits d h v = true → deep_equal d h v h' v.
Proof.
  intros Hpre. revert v. induction d as [|d IH]; intros v Hfits; [done|].
  destruct v as [| | | | |l]; try done.
  destruct (fits_allocated _ _ _ Hfits) as [o Hl]. simpl. rewrite Hl.
  pose proof (prefix_lookup_Some _ _ _ _ Hl Hpre) as Hl'.
  destruct o as [ps|es|t|ps].
  - exists l, ps. repeat split; try done. intros k.
    destruct (ps !! k) as [x|] eqn:Hk; constructor.
    apply IH. by eapply fits_plain.
  - exists l, es. repeat split; try done. apply Forall_Forall2_diag, Forall_forall.
    intros x Hx. apply IH. by eapply fits_array.
  - by exists l.
  - exists l, ps. split; [done|]. split; [by right|]. intros k.
    destruct (ps !! k) as [x|] eqn:Hk; constructor.
    apply IH. by eapply fits_frozen.
Qed.

(** The base is, after the call, equal in depth to what it was before. *)
Lemma update_base_deep_equal d depth now base updates h :
  fits d h base = true →
  deep_equal d h base
    (updateRecordWithValidation depth now base updates h).1 base.
Proof.
  intros Hfits. apply deep_equal_same; [|done].
  destruct (updateRecordWithValidation depth now base updates h) as [h' r] eqn:Hrun.
  by eapply updateRecordWithValidation_frame.
Qed.

(** ** The order of the tags, whatever else is in the change set *)

(** The base has the tags ["a", "b"], and the change set gives ["b", "a"]
    for [tags], among any other keys.  If the call returns a valid result,
    the tags of its record are the copy's own ["a", "b"]. *)
Lemma update_keeps_tags_order depth now lb ps lt updates lt' h h' res :
  h !! lb = Some (OPlain ps) → fits depth h (VRef lb) = true →
  value_of h updates →
  ps !! "tags" = Some (VRef lt) →
  h !! lt = Some (OArray [VStr "a"; VStr "b"]) →
  change_set h updates !! "tags" = Some (VRef lt') →
  h !! lt' = Some (OArray [VStr "b"; VStr "a"]) →
  updateRecordWithValidation depth now (VRef lb) updates h = (h', inr res) →
  isValid res = true →
  ∃ lc o' lt2,
    record res = Some (VRef lc) ∧ h' !! lc = Some o'
    ∧ field o' "tags" = VRef lt2
    ∧ length h ≤ lt2 ∧ h' !! lt2 = Some (OArray [VStr "a"; VStr "b"]).
Proof.
  intros Hlb Hfits Hwf Htags Hlt Hk Hlt' Hrun Hvalid.
  destruct (update_success_inv _ _ _ _ _ _ _ Hwf Hrun Hvalid)
    as (lc & hc & cps & P4 & o' & Hcopy & [Hlo Hhi] & Hlc & -> & Hlc' & Hfields
        & _ & [_ Hw] & _ & Hin).
  destruct (deepCopy_spec _ _ _ Hfits) as (hc' & v' & Hcopy' & Hspec).
  assert (hc' = hc ∧ v' = VRef lc) as [-> ->]
    by (rewrite Hcopy in Hcopy'; by simplify_eq).
  destruct depth as [|d]; [done|]. simpl in Hspec. rewrite Hlb in Hspec.
  destruct Hspec as (l' & cps' & [= <-] & _ & Hlc'' & Hprops).
  assert (cps' = cps) as -> by (rewrite Hlc in Hlc''; by simplify_eq).
  assert (∃ lt2, cps !! "tags" = Some (VRef lt2) ∧ S lc ≤ lt2
                 ∧ hc !! lt2 = Some (OArray [VStr "a"; VStr "b"]))
    as (lt2 & Hctags & Hlt2lo & Hlt2).
  { pose proof (Hprops "tags") as Ht. rewrite Htags in Ht.
    inversion Ht as [? x' Hx Heq1 Heq2|]. symmetry in Heq2.
    destruct (copy_of_strings d h lt ["a"; "b"] hc (S lc) x' Hlt Hx)
      as (lt2 & -> & ? & ?).
    by exists lt2. }
  destruct (Hin _ _ Hk)
    as (hi & Pi & hi' & Pi' & Hpre & [_ Hwi] & Hlci & HPi & Hturn & Hlci' & HPi').
  rewrite lookup_insert_ne, Hctags in HPi by done.
  rewrite (apply_update_tags lc Pi updates lt' lt2 ["b"; "a"] ["a"; "b"] hi)
    in Hturn; [|done|by eapply get_prop_change_set|done
               |by eapply prefix_lookup_Some|].
  2:{ rewrite Hwi by (intros [= ->]; lia). by apply lookup_app_l_Some. }
  simpl in Hturn. injection Hturn as <-.
  assert (Pi' = Pi) as -> by (rewrite Hlci in Hlci'; by simplify_eq).
  exists lc, o', lt2. split; [done|]. split; [done|]. split.
  - by rewrite Hfields, <- HPi', HPi by done.
  - split; [lia|]. rewrite Hw by (intros [= ->]; lia).
    by apply lookup_app_l_Some.
Qed.

(** ** The cases of the test suite *)

Example validate_null :
  (validateRecord VNull []).2
  = inr (invalid_result ["Record must be an object."]).
Proof. reflexivity. Qed.

Example validate_bad_tag :
  (validateRecord (VRef 0)
     (Sample.heap_of Sample.validRecord [VStr "valid"; VStr "invalid!"])).2
  = inr (invalid_result ["All tags must be alphanumeric strings."]).
Proof. vm_compute. reflexivity. Qed.

Example validate_all_wrong :
  (validateRecord (VRef 0)
     [OPlain (list_to_map [("id", VNum (of_ratio false 123 1));
                           ("name", VStr EmptyString);
                           ("price", VStr "abc");
                           ("tags", VStr "not an array")])]).2
  = inr (invalid_result
           ["ID is required and must be a string.";
            "Name is required and must be a non-empty string.";
            "Price is required and must be a number.";
            "Tags are required and must be an array."]).
Proof. vm_compute. reflexivity. Qed.

(** White space is that of the language: a name made of a no-break space,
    an em space and a byte order mark is empty once trimmed, and the space
    inside a string is kept. *)
Example validate_blank_name :
  (validateRecord (VRef 0)
     (Sample.named (string_of [194; 160; 226; 128; 131; 239; 187; 191])
        (of_ratio false 9999 100))).2
  = inr (invalid_result ["Name is required and must be a non-empty string."]).
Proof. vm_compute. reflexivity. Qed.

Example trim_keeps_inner_space :
  trim_string (string_of [194; 160; 97; 32; 98; 226; 128; 169; 10]) = "a b".
Proof. vm_compute. reflexivity. Qed.

(** A frozen record with a price to round: the write throws, and the record
    is as it was. *)
Example validate_frozen :
  validateRecord (VRef 0) frozen_heap = (frozen_heap, inl TypeError).
Proof. vm_compute. reflexivity. Qed.

Example update_rounds_price :
  let run := updateRecordWithValidation 3 Sample.clock (VRef 0) (VRef 4)
               (Sample.update_heap
                  {["price" := VNum (of_ratio false 1234567 10000)]} []) in
  run.2 = inr (valid_result (VRef 5))
  ∧ Sample.returned run "price" = Some (VNum (of_ratio false 12346 100)).
Proof. vm_compute. split; reflexivity. Qed.

(** A new price that rounds to the old one is not written. *)
Example update_ignores_noise :
  let run := updateRecordWithValidation 3 Sample.clock (VRef 0) (VRef 4)
               (Sample.update_heap
                  {["price" := VNum (of_ratio false 99994 1000)]} []) in
  run.2 = inr (valid_result (VRef 5))
  ∧ Sample.returned run "price" = Some (VNum (of_ratio false 9999 100)).
Proof. vm_compute. split; reflexivity. Qed.

Example update_bad_tag :
  (updateRecordWithValidation 3 Sample.clock (VRef 0) (VRef 4)
     (Sample.update_heap {["tags" := VRef 5]}
        [OArray [VStr "valid"; VStr "invalid!"]])).2
  = inr (invalid_result ["All tags must be alphanumeric strings."]).
Proof. vm_compute. reflexivity. Qed.

Example update_empty_name :
  (updateRecordWithValidation 3 Sample.clock (VRef 0) (VRef 4)
     (Sample.update_heap {["name" := VStr EmptyString]} [])).2
  = inr (invalid_result ["Name is required and must be a non-empty string."]).
Proof. vm_compute. reflexivity. Qed.

Example update_nothing :
  let run := updateRecordWithValidation 3 Sample.clock (VRef 0) (VRef 4)
               (Sample.update_heap ∅ []) in
  run.2 = inr (valid_result (VRef 5))
  ∧ Sample.returned run "name" = Some (VStr "Test Product")
  ∧ Sample.returned run "updatedAt" = Some (VRef 9)
  ∧ run.1 !! 9 = Some (ODate (Some Sample.clock)).
Proof. vm_compute. repeat split; reflexivity. Qed.

(** A base record that refers to itself: the copy does not end, and the
    stack overflows, whatever room it has. *)
Example update_cyclic_base :
  (updateRecordWithValidation 50 Sample.clock (VRef 0) VNull
     [OPlain {["self" := VRef 0]}]).2
  = inl RangeError.
Proof. vm_compute. reflexivity. Qed.

(** * Further properties of the three functions *)

(** ** [deepCopy] *)

(** X1.  [deepCopy] never writes to the heap it is given, also when it
    throws: that heap is the start of the heap it leaves.  Its result, when
    it is a reference, is to none of the objects that were there; on a
    primitive (with room for one call) it is the primitive itself. *)
Theorem deepCopy_isolated depth v h h' r :
  deepCopy depth v h = (h', r) →
  h `prefix_of` h'
  ∧ (∀ lc, r = inr (VRef lc) → length h ≤ lc)
  ∧ ((∀ l, v ≠ VRef l) → depth ≠ 0 → r = inr v ∧ h' = h).
Proof.
  intros Hrun. destruct (deepCopy_frame _ _ _ _ _ Hrun) as [Hpre Hres].
  split; [done|]. split.
  - intros lc ->. destruct (Hres _ eq_refl) as [[<- Hprim]|(? & [= <-] & ?)];
      [by destruct (Hprim lc)|done].
  - intros Hprim Hdepth. destruct depth as [|d]; [done|].
    rewrite deepCopy_primitive in Hrun by done. by simplify_eq.
Qed.

Lemma deepCopy_isolated_witness :
  nested_heap `prefix_of` (deepCopy 4 (VRef 0) nested_heap).1
  ∧ (∀ lc, (inr (VRef 4) : error + value) = inr (VRef lc) →
           length nested_heap ≤ lc)
  ∧ ((∀ l, VRef 0 ≠ VRef l) → 4 ≠ 0 →
     (inr (VRef 4) : error + value) = inr (VRef 0)
     ∧ (deepCopy 4 (VRef 0) nested_heap).1 = nested_heap).
Proof.
  apply (deepCopy_isolated 4 (VRef 0) nested_heap).
  vm_compute. reflexivity.
Defined.

(** X2.  In a heap where no object has an own property named [__proto__],
    on a structure that fits in the stack, [deepCopy] returns, and what it
    returns is a copy: equal in depth to the argument, and made only of
    objects that were not in the heap before. *)
Theorem deepCopy_returns_copy depth v h :
  proto_free h = true →
  fits depth h v = true →
  ∃ h' v', deepCopy depth v h = (h', inr v')
           ∧ deep_equal depth h v h' v'
           ∧ copy_of depth h v h' (length h) v'.
Proof.
  intros _ Hfits. destruct (deepCopy_spec _ _ _ Hfits) as (h' & v' & Hrun & Hcopy).
  exists h', v'. split; [done|]. split; [|done]. by eapply copy_of_deep_equal.
Qed.

Lemma deepCopy_returns_copy_witness :
  ∃ h' v', deepCopy 4 (VRef 0) nested_heap = (h', inr v')
           ∧ deep_equal 4 nested_heap (VRef 0) h' v'
           ∧ copy_of 4 nested_heap (VRef 0) h' (length nested_heap) v'.
Proof.
  apply (deepCopy_returns_copy 4 (VRef 0) nested_heap).
  - vm_compute. reflexivity.
  - vm_compute. reflexivity.
Defined.


(** X3.  In a heap without dangling references, [deepCopy] returns a value
    exactly on the structures that fit in the stack, those without a chain
    of references as long as the stack is deep, and on every other it throws
    a [RangeError].  A structure with a cycle fits in no stack: on it
    [deepCopy] throws, however much room it has. *)
Theorem deepCopy_returns_iff_fits depth v h :
  closed h = true → value_of h v →
  ((∃ h' v', deepCopy depth v h = (h', inr v')) ↔ fits depth h v = true)
  ∧ (fits depth h v = false → ∃ h', deepCopy depth v h = (h', inl RangeError))
  ∧ (cyclic h v → ∀ d, ∃ h', deepCopy d v h = (h', inl RangeError)).
Proof.
  intros Hclosed Hv.
  assert (in_heap (length h) v = true) as Hin.
  { destruct v as [| | | | |l]; try done. simpl. apply Nat.ltb_lt. by apply Hv. }
  assert (∀ d, fits d h v = false →
               ∃ h', deepCopy d v h = (h', inl RangeError)) as Hthrows.
  { intros d Hfits. destruct (deepCopy d v h) as [h' [e|v']] eqn:Hrun.
    - exists h'. by rewrite (deepCopy_throws h Hclosed d v h h' e).
    - by rewrite (deepCopy_returns_fits h Hclosed d v h h' v') in Hfits. }
  split; [split|split].
  - intros (h' & v' & Hrun). by eapply deepCopy_returns_fits.
  - intros Hfits. destruct (deepCopy_spec _ _ _ Hfits) as (h' & v' & Hrun & _).
    by exists h', v'.
  - apply Hthrows.
  - intros Hcyclic d. by apply Hthrows, cyclic_fits.
Qed.

Lemma deepCopy_returns_iff_fits_witness :
  ((∃ h' v', deepCopy 4 (VRef 0) looped = (h', inr v'))
   ↔ fits 4 looped (VRef 0) = true)
  ∧ (fits 4 looped (VRef 0) = false
     → ∃ h', deepCopy 4 (VRef 0) looped = (h', inl RangeError))
  ∧ (cyclic looped (VRef 0)
     → ∀ d, ∃ h', deepCopy d (VRef 0) looped = (h', inl RangeError)).
Proof.
  apply (deepCopy_returns_iff_fits 4 (VRef 0) looped).
  - vm_compute. reflexivity.
  - intros l [= <-]. vm_compute. lia.
Defined.


(** ** [validateRecord] *)

Lemma field_errors_not_structural l o h :
  "Record must be an object." ∉ field_errors l o h.
Proof.
  unfold field_errors. rewrite !not_elem_of_app.
  destruct (blank (field o "id")), (blank (field o "name")),
    (usable_price (field o "price")), (array_at _ _) as [es|];
    try destruct (existsb bad_tag es);
    repeat split; try apply not_elem_of_nil;
    by intros [= ]%list_elem_of_singleton.
Qed.

(** X4.  The structural test.  The error "Record must be an object." is
    reported for the values that are not objects (the primitives, [null],
    [undefined]) and for no object, whatever is wrong with it; when it is
    reported, no field test has run: it is the only error, and the heap is as
    it was. *)
Theorem validateRecord_structural_error v h h' res :
  validateRecord v h = (h', inr res) →
  ((∀ l, v ≠ VRef l)
   ↔ ∃ errs, errors res = Some errs ∧ "Record must be an object." ∈ errs)
  ∧ ((∀ l, v ≠ VRef l) →
     h' = h ∧ res = invalid_result ["Record must be an object."]).
Proof.
  intros Hrun. destruct (ref_or_not v) as [[l ->]|Hprim].
  - assert (¬ ∀ l', VRef l ≠ VRef l') as Href by (intros Hl; by apply (Hl l)).
    split; [|done]. split; [done|]. intros (errs & Herrs & Hin).
    destruct (validateRecord_returned _ _ _ _ Hrun) as (o & Hl & _ & -> & ->).
    pose proof (field_errors_not_structural l o h) as Hnot.
    destruct (field_errors l o h); simplify_eq/=. done.
  - rewrite validateRecord_not_object in Hrun by done. simplify_eq.
    split; [|done]. split; [|done]. intros _. eexists. split; [done|].
    apply list_elem_of_here.
Qed.

Lemma validateRecord_structural_error_witness :
  ((∀ l, VStr "not an object" ≠ VRef l)
   ↔ ∃ errs, errors (invalid_result ["Record must be an object."]) = Some errs
             ∧ "Record must be an object." ∈ errs)
  ∧ ((∀ l, VStr "not an object" ≠ VRef l) →
     Sample.valid_heap = Sample.valid_heap
     ∧ invalid_result ["Record must be an object."]
       = invalid_result ["Record must be an object."]).
Proof.
  apply (validateRecord_structural_error (VStr "not an object") Sample.valid_heap).
  reflexivity.
Defined.

(** X5.  On an object whose price can be written, [validateRecord] runs
    its four field tests whatever the outcome of the tests before: the
    errors it returns are those of [id], [name], [price] and [tags], in
    this order, at most one for each (the tags are looked into only when
    they are an array), and the result is valid exactly when there is
    none.  The heap it leaves differs by the rounded price alone.  On a
    frozen object whose price is a number other than NaN the write of the
    rounded price throws a [TypeError] instead, before the tags are looked
    at, and the heap is left as it was. *)
Theorem validateRecord_reports_every_field l o h :
  h !! l = Some o →
  validateRecord (VRef l) h
  = if throws_on_price o then (h, inl TypeError)
    else (after_price l o h, inr (verdict (VRef l) (field_errors l o h))).
Proof.
  intros Hl. destruct (throws_on_price o) eqn:Ho.
  - by apply validateRecord_throws with o.
  - by apply validateRecord_run.
Qed.

Lemma validateRecord_reports_every_field_witness :
  validateRecord (VRef 0) (Sample.named "   " (of_ratio false 1234567 10000))
  = if throws_on_price
         (OPlain (<["name" := VStr "   "]>
            (<["price" := VNum (of_ratio false 1234567 10000)]>
               Sample.validRecord)))
    then (Sample.named "   " (of_ratio false 1234567 10000), inl TypeError)
    else
    (after_price 0 (OPlain (<["name" := VStr "   "]>
                      (<["price" := VNum (of_ratio false 1234567 10000)]>
                         Sample.validRecord)))
       (Sample.named "   " (of_ratio false 1234567 10000)),
     inr (verdict (VRef 0)
            (field_errors 0
               (OPlain (<["name" := VStr "   "]>
                  (<["price" := VNum (of_ratio false 1234567 10000)]>
                     Sample.validRecord)))
               (Sample.named "   " (of_ratio false 1234567 10000))))).
Proof.
  apply (validateRecord_reports_every_field 0). reflexivity.
Defined.


Lemma usable_price_Some_iff v x :
  usable_price v = Some x ↔ v = VNum x ∧ x ≠ NaN.
Proof.
  split.
  - intros [-> Hx]%usable_price_Some. split; [done|]. by intros ->.
  - intros [-> Hx]. simpl. by destruct x.
Qed.

Lemma bad_tag_false_iff t :
  bad_tag t = false ↔ ∃ s, t = VStr s ∧ alphanumeric s = true.
Proof.
  unfold bad_tag. destruct t as [| | | |s|]; simpl;
    try (split; [done|by intros (? & ? & ?)]).
  rewrite negb_false_iff. split; [by eauto|]. by intros (? & [= <-] & ?).
Qed.

Lemma no_bad_tag es :
  existsb bad_tag es = false
  ↔ ∀ t, t ∈ es → ∃ s, t = VStr s ∧ alphanumeric s = true.
Proof.
  induction es as [|t es IH]; simpl.
  - split; [|done]. by intros _ t ?%elem_of_nil.
  - rewrite orb_false_iff, IH, bad_tag_false_iff. split.
    + intros [Ht Hes] t' [->|?]%elem_of_cons; auto.
    + intros Hes. split; [apply Hes; by left|].
      intros t' Ht'. apply Hes. by right.
Qed.

(** The price test does not make or unmake an array. *)
Lemma array_at_after_price l o h v :
  h !! l = Some o → array_at (after_price l o h) v = array_at h v.
Proof.
  intros Hl. unfold after_price.
  destruct (usable_price (field o "price")) as [x|] eqn:Hx; [|done].
  destruct (read_only o) eqn:Hro; [done|].
  destruct v as [| | | | |lt]; try done. simpl.
  destruct (decide (lt = l)) as [->|Hne].
  - rewrite list_lookup_insert_eq by (by eapply lookup_lt_Some). rewrite Hl.
    by destruct o.
  - by rewrite list_lookup_insert_ne.
Qed.




Lemma validateRecord_shape v h h' res :
  validateRecord v h = (h', inr res) →
  res = valid_result v ∨ ∃ e errs, res = invalid_result (e :: errs).
Proof.
  intros Hrun. destruct v as [| | | | |l];
    try (rewrite validateRecord_not_object in Hrun by done; simplify_eq;
         right; by eexists _, _).
  destruct (validateRecord_returned _ _ _ _ Hrun) as (o & Hl & Ho & _ & ->).
  unfold verdict. destruct (field_errors l o h) as [|e errs]; [by left|].
  right. by exists e, errs.
Qed.

(** X7.  The two shapes of what [validateRecord] returns, whenever it
    returns: a valid result with the candidate as its record and no errors,
    or an invalid one with no record and at least one error. *)
Theorem validateRecord_result_shape v h h' res :
  validateRecord v h = (h', inr res) →
  res = valid_result v ∨ ∃ e errs, res = invalid_result (e :: errs).
Proof. apply validateRecord_shape. Qed.

Lemma validateRecord_result_shape_witness :
  valid_result (VRef 0) = valid_result (VRef 0)
  ∨ ∃ e errs, valid_result (VRef 0) = invalid_result (e :: errs).
Proof.
  apply (validateRecord_result_shape (VRef 0) Sample.valid_heap
           Sample.valid_heap).
  vm_compute. reflexivity.
Defined.

(** X8.  A price that is missing, not a number, or NaN is reported and not
    touched: [validateRecord] returns an invalid result with the error of
    the price in it, and leaves the whole heap as it was. *)
Theorem validateRecord_bad_price l o h :
  h !! l = Some o → (∀ x, field o "price" = VNum x → x = NaN) →
  ∃ errs,
    validateRecord (VRef l) h = (h, inr (invalid_result errs))
    ∧ "Price is required and must be a number." ∈ errs.
Proof.
  intros Hl Hprice.
  assert (usable_price (field o "price") = None) as Hx.
  { destruct (usable_price _) as [x|] eqn:Hx; [|done].
    apply usable_price_Some in Hx as [Hp Hx]. by rewrite (Hprice x Hp) in Hx. }
  rewrite (validateRecord_run l o h Hl)
    by (unfold throws_on_price; rewrite Hx; apply andb_false_r).
  exists (field_errors l o h). unfold after_price. rewrite Hx.
  assert ("Price is required and must be a number." ∈ field_errors l o h) as Hin.
  { unfold field_errors. rewrite Hx. rewrite !elem_of_app. right. right.
    left. apply list_elem_of_here. }
  split; [|done]. destruct (field_errors l o h); [|done].
  by apply elem_of_nil in Hin.
Qed.

Lemma validateRecord_bad_price_witness :
  ∃ errs,
    validateRecord (VRef 0) (Sample.priced NaN)
    = (Sample.priced NaN, inr (invalid_result errs))
    ∧ "Price is required and must be a number." ∈ errs.
Proof.
  apply (validateRecord_bad_price 0
           (OPlain (<["price" := VNum NaN]> Sample.validRecord))).
  - reflexivity.
  - intros x. vm_compute. intros [= <-]. reflexivity.
Defined.

(** X9.  [validateRecord] makes no object, and writes to none but the
    candidate: every other object of the heap, the array of tags among
    them, is after the call what it was before. *)
Theorem validateRecord_writes_candidate_only v h :
  writes_to v h (validateRecord v h).1.
Proof.
  destruct (validateRecord v h) as [h' r] eqn:Hrun.
  by eapply validateRecord_writes.
Qed.


(** ** [updateRecordWithValidation] *)

(** The steps of a call that returns: the copy at [lc], the stamp, the loop
    over the keys of the change set, and the validation of the copy, whose
    result is the result of the call. *)
Lemma update_returns_steps depth now base updates h h' res :
  updateRecordWithValidation depth now base updates h = (h', inr res) →
  ∃ lc hc cps keys h3 h4,
    deepCopy depth base h = (hc, inr (VRef lc))
    ∧ length h ≤ lc < length hc ∧ hc !! lc = Some (OPlain cps)
    ∧ h3 = <[lc := OPlain (<["updatedAt" := VRef (length hc)]> cps)]>
             (hc ++ [ODate (Some now)])
    ∧ own_keys updates h3 = (h3, inr keys)
    ∧ forM keys (apply_update (VRef lc) updates) h3 = (h4, inr ())
    ∧ validateRecord (VRef lc) h4 = (h', inr res).
Proof.
  intros Hrun. unfold updateRecordWithValidation in Hrun.
  inv_bind Hrun as hc copy Hcopy.
  destruct (deepCopy_frame _ _ _ _ _ Hcopy) as [Hpre Hfresh].
  inv_bind Hrun as h2 stamp Hstamp.
  unfold new_Date, alloc in Hstamp. simplify_eq.
  inv_bind Hrun as h3 u Hset. destruct u.
  apply set_prop_inv in Hset as (lc & cps & -> & Hlc2 & ->).
  assert (length h ≤ lc) as Hlo.
  { destruct (Hfresh _ eq_refl) as [[<- Hprim]|(? & [= <-] & ?)]; [|done].
    by destruct (Hprim lc). }
  assert (lc < length hc) as Hhi.
  { pose proof (lookup_lt_Some _ _ _ Hlc2) as Hlt.
    rewrite length_app in Hlt. simpl in Hlt.
    destruct (decide (lc = length hc)) as [->|]; [|lia].
    by rewrite list_lookup_middle in Hlc2. }
  assert (hc !! lc = Some (OPlain cps)) as Hlc.
  { by rewrite lookup_app_l in Hlc2. }
  inv_bind Hrun as h3' keys Hkeys.
  pose proof (own_keys_heap _ _ _ _ Hkeys) as ->.
  inv_bind Hrun as h4 u Hloop. destruct u.
  inv_bind Hrun as h5 vres Hval.
  eexists lc, hc, cps, keys, _, h4. do 6 (split; [done|]).
  destruct (validateRecord_shape _ _ _ _ Hval) as [->|(e & errs & ->)];
    simpl in Hrun; unfold ret in Hrun; by simplify_eq.
Qed.

(** What a call that returns a valid result has done to the copy: [P4] are
    its properties when the loop is over, [x] its price then, which the
    validation has rounded. *)
Lemma update_valid_inv depth now base updates h h' res :
  value_of h updates →
  updateRecordWithValidation depth now base updates h = (h', inr res) →
  isValid res = true →
  ∃ lc hc cps (P4 : gmap string value) x,
    deepCopy depth base h = (hc, inr (VRef lc))
    ∧ length h ≤ lc < length hc ∧ hc !! lc = Some (OPlain cps)
    ∧ res = valid_result (VRef lc)
    ∧ P4 !! "price" = Some (VNum x) ∧ x ≠ NaN
    ∧ h' !! lc = Some (OPlain (<["price" := VNum (round2 x)]> P4))
    ∧ writes_to (VRef lc) (hc ++ [ODate (Some now)]) h'
    ∧ (∀ k, change_set h updates !! k = None →
         P4 !! k = <["updatedAt" := VRef (length hc)]> cps !! k)
    ∧ (∀ k nv, change_set h updates !! k = Some nv →
         ∃ hi (Pi : gmap string value) hi' (Pi' : gmap string value),
           h `prefix_of` hi
           ∧ writes_to (VRef lc) (hc ++ [ODate (Some now)]) hi
           ∧ hi !! lc = Some (OPlain Pi)
           ∧ Pi !! k = <["updatedAt" := VRef (length hc)]> cps !! k
           ∧ apply_update (VRef lc) updates k hi = (hi', inr ())
           ∧ hi' !! lc = Some (OPlain Pi') ∧ Pi' !! k = P4 !! k).
Proof.
  intros Hwf Hrun Hvalid.
  destruct (update_returns_steps _ _ _ _ _ _ _ Hrun)
    as (lc & hc & cps & keys & h3 & h4 & Hcopy & [Hlo Hhi] & Hlc & Hh3 & Hkeys
        & Hloop & Hval).
  destruct (deepCopy_frame _ _ _ _ _ Hcopy) as [Hpre _].
  set (h2 := hc ++ [ODate (Some now)]) in *.
  set (P3 := <["updatedAt" := VRef (length hc)]> cps) in *.
  assert (h2 !! lc = Some (OPlain cps)) as Hlc2.
  { by apply lookup_app_l_Some. }
  assert (writes_to (VRef lc) h2 h3) as Hw3.
  { eapply set_prop_writes. rewrite Hh3. by apply set_prop_plain. }
  assert (h3 !! lc = Some (OPlain P3)) as Hlc3.
  { rewrite Hh3. apply list_lookup_insert_eq. by eapply lookup_lt_Some. }
  assert (∀ hi, writes_to (VRef lc) h2 hi → h `prefix_of` hi) as Hkeep.
  { intros hi Hw. eapply writes_to_prefix; [|done|by intros ? [= <-]].
    etrans; [done|]. apply prefix_of_alloc. }
  apply (own_keys_change_set h) in Hkeys; [|by apply Hkeep|done].
  destruct (update_loop lc updates keys) with (h := h3) (P := P3) (h' := h4) (u := ())
    as (P4 & Hlc4 & Hw4 & Hout & Hin); [|done|done|].
  { subst keys. apply NoDup_fst_map_to_list. }
  pose proof (validateRecord_writes _ _ _ _ Hval) as Hw5.
  destruct (validateRecord_valid_inv _ _ _ _ Hval Hvalid)
    as (l & o & [= <-] & Hl & Hh' & Herrs & ->).
  rewrite Hlc4 in Hl. simplify_eq.
  destruct (field_errors_nil _ _ _ Herrs) as (_ & _ & [x Hx] & _).
  pose proof Hx as [Hp Hnan]%usable_price_Some_iff.
  exists lc, hc, cps, P4, x. do 4 (split; [done|]).
  split. { unfold field in Hp. simpl in Hp. by destruct (P4 !! "price"); simplify_eq/=. }
  split; [done|]. split.
  { unfold after_price. rewrite Hx. apply list_lookup_insert_eq.
    by eapply lookup_lt_Some. }
  split; [by repeat (etrans; [eassumption|])|]. split.
  - intros k Hk. apply Hout. rewrite elem_of_own_keys, Hk. by intros [].
  - intros k nv Hk.
    destruct (Hin k) as (hi & Pi & hi' & Pi' & Hwi & ? & ? & ? & ? & ?).
    { rewrite elem_of_own_keys, Hk. by eexists. }
    exists hi, Pi, hi', Pi'.
    assert (writes_to (VRef lc) h2 hi) by (by etrans).
    split; [by apply Hkeep|]. by repeat (split; [done|]).
Qed.


(** X10.  What [updateRecordWithValidation] returns is what [validateRecord]
    returns on its modified copy, a new object: a valid result with that
    copy, or an invalid one with the errors of the validation as they are,
    at least one, and no record. *)
Theorem update_returns_validation depth now base updates h h' res :
  updateRecordWithValidation depth now base updates h = (h', inr res) →
  ∃ lc hm,
    length h ≤ lc ∧ h `prefix_of` hm
    ∧ validateRecord (VRef lc) hm = (h', inr res)
    ∧ (res = valid_result (VRef lc) ∨ ∃ e errs, res = invalid_result (e :: errs)).
Proof.
  intros Hrun.
  destruct (update_returns_steps _ _ _ _ _ _ _ Hrun)
    as (lc & hc & cps & keys & h3 & h4 & Hcopy & [Hlo Hhi] & Hlc & Hh3 & Hkeys
        & Hloop & Hval).
  destruct (deepCopy_frame _ _ _ _ _ Hcopy) as [Hpre _].
  exists lc, h4. split; [done|]. split; [|split; [done|]].
  - eapply (forM_invariant (λ hi, h `prefix_of` hi)); [| |done].
    + intros key hi hi' r _ Hhi' Hturn. apply apply_update_writes in Hturn.
      eapply writes_to_prefix; [done..|]. by intros ? [= <-].
    + rewrite Hh3. apply prefix_of_store; [|done].
      etrans; [done|]. apply prefix_of_alloc.
  - by eapply validateRecord_shape.
Qed.

Lemma update_returns_validation_witness :
  ∃ lc hm,
    length Sample.renamed ≤ lc ∧ Sample.renamed `prefix_of` hm
    ∧ validateRecord (VRef lc) hm
      = ((updateRecordWithValidation 3 Sample.clock (VRef 0) (VRef 4)
            Sample.renamed).1, inr (valid_result (VRef 7)))
    ∧ (valid_result (VRef 7) = valid_result (VRef lc)
       ∨ ∃ e errs, valid_result (VRef 7) = invalid_result (e :: errs)).
Proof.
  apply (update_returns_validation 3 Sample.clock (VRef 0) (VRef 4)
           Sample.renamed).
  vm_compute. reflexivity.
Defined.

(** X11.  A base record that is not an object ([null], [undefined], a
    primitive) makes [updateRecordWithValidation] throw a [TypeError]: the
    copy of such a value is the value itself, and the stamp cannot be set
    on it. *)
Theorem update_base_not_object depth now base updates h :
  (∀ l, base ≠ VRef l) →
  (updateRecordWithValidation (S depth) now base updates h).2 = inl TypeError.
Proof.
  intros Hbase. unfold updateRecordWithValidation.
  rewrite (run_bind _ _ _ _ _ (deepCopy_primitive depth base h Hbase)).
  unfold new_Date, alloc, bind, set_prop, throw.
  destruct base; try done. by destruct (Hbase l).
Qed.

Lemma update_base_not_object_witness :
  (updateRecordWithValidation 3 Sample.clock VNull (VRef 4) Sample.renamed).2
  = inl TypeError.
Proof. apply (update_base_not_object 2 Sample.clock VNull). intros l. discriminate. Defined.


(** X12.  In a heap where no object has an own property named [__proto__],
    when the base record is a structure that [deepCopy] can walk, the
    record of a valid result has, under every key that the change set does
    not have, [updatedAt] and [price] apart, an own property equal in depth
    to that of the base (none when the base has none).  Its price, when the
    change set has none, is the price of the base rounded to two decimal
    places. *)
Theorem update_keeps_other_fields depth now lb ps updates h h' res :
  proto_free h = true →
  h !! lb = Some (OPlain ps) → fits depth h (VRef lb) = true →
  value_of h updates →
  updateRecordWithValidation depth now (VRef lb) updates h = (h', inr res) →
  isValid res = true →
  ∃ lc o', record res = Some (VRef lc) ∧ h' !! lc = Some o'
    ∧ (∀ k, change_set h updates !! k = None → k ≠ "updatedAt" → k ≠ "price" →
         deep_equal depth h (field (OPlain ps) k) h' (field o' k))
    ∧ (change_set h updates !! "price" = None →
         ∃ x, field (OPlain ps) "price" = VNum x
              ∧ field o' "price" = VNum (round2 x)).
Proof.
  intros _ Hlb Hfits Hwf Hrun Hvalid.
  destruct (update_valid_inv _ _ _ _ _ _ _ Hwf Hrun Hvalid)
    as (lc & hc & cps & P4 & x & Hcopy & [Hlo Hhi] & Hlc & -> & Hprice & Hnan
        & Hlc' & [_ Hw] & Hout & _).
  destruct (deepCopy_spec _ _ _ Hfits) as (hc' & v' & Hcopy' & Hspec).
  assert (hc' = hc ∧ v' = VRef lc) as [-> ->]
    by (rewrite Hcopy in Hcopy'; by simplify_eq).
  destruct depth as [|d]; [done|]. simpl in Hspec. rewrite Hlb in Hspec.
  destruct Hspec as (l' & cps' & [= <-] & _ & Hlc'' & Hprops).
  assert (cps' = cps) as -> by (rewrite Hlc in Hlc''; by simplify_eq).
  eexists lc, _. split; [done|]. split; [done|]. split.
  - intros k Hk Hstamp Hkprice. unfold field. cbn [fields].
    rewrite lookup_insert_ne, (Hout _ Hk), lookup_insert_ne by done.
    destruct (Hprops k) as [y y' Hy|]; [|done].
    cbn [default]. apply deep_equal_S. eapply copy_of_deep_equal.
    eapply (copy_of_kept _ _ _ hc _ (S lc) (S lc)); [done| |done].
    intros l o Hl Hlook. rewrite Hw by (intros [= ->]; lia).
    by apply lookup_app_l_Some.
  - intros Hk. exists x. unfold field. cbn [fields].
    rewrite lookup_insert_eq. split; [|done].
    rewrite (Hout _ Hk), lookup_insert_ne in Hprice by done.
    destruct (Hprops "price") as [y y' Hy|]; [|done]. simplify_eq. simpl.
    symmetry. by eapply copy_of_primitive.
Qed.

Lemma update_keeps_other_fields_witness :
  ∃ lc o',
    Some (VRef 7) = Some (VRef lc)
    ∧ (updateRecordWithValidation 3 Sample.clock (VRef 0) (VRef 4)
         Sample.renamed).1 !! lc = Some o'
    ∧ (∀ k, change_set Sample.renamed (VRef 4) !! k = None →
         k ≠ "updatedAt" → k ≠ "price" →
         deep_equal 3 Sample.renamed (field (OPlain Sample.validRecord) k)
           (updateRecordWithValidation 3 Sample.clock (VRef 0) (VRef 4)
              Sample.renamed).1
           (field o' k))
    ∧ (change_set Sample.renamed (VRef 4) !! "price" = None →
         ∃ x, field (OPlain Sample.validRecord) "price" = VNum x
              ∧ field o' "price" = VNum (round2 x)).
Proof.
  apply (update_keeps_other_fields 3 Sample.clock 0 Sample.validRecord (VRef 4)
           Sample.renamed _ (valid_result (VRef 7))).
  - vm_compute. reflexivity.
  - reflexivity.
  - vm_compute. reflexivity.
  - intros l [= <-]. vm_compute. lia.
  - vm_compute. reflexivity.
  - reflexivity.
Defined.

(** *** The turn for [price] *)

Lemma num_strict_eq_refl x : x ≠ NaN → Num.strict_eq x x = true.
Proof.
  destruct x as [|s|s|s m e]; try done; intros _; simpl.
  - by destruct s.
  - unfold cmp_scaled. rewrite Z.leb_refl, Z.sub_diag, Z.mul_1_r, Z.compare_refl.
    by destruct s.
Qed.

Lemma cmp_scaled_Eq_sym m1 e1 m2 e2 :
  cmp_scaled m1 e1 m2 e2 = Eq → cmp_scaled m2 e2 m1 e1 = Eq.
Proof.
  unfold cmp_scaled.
  destruct (Z.leb_spec e1 e2), (Z.leb_spec e2 e1);
    rewrite !Z.compare_eq_iff; try lia.
  assert (e1 = e2) as -> by lia. rewrite Z.sub_diag. lia.
Qed.

Lemma num_strict_eq_sym x y : Num.strict_eq x y = true → Num.strict_eq y x = true.
Proof.
  destruct x as [|s1|s1|s1 m1 e1], y as [|s2|s2|s2 m2 e2]; try done; simpl.
  - by destruct s1, s2.
  - intros [Hs Hc]%andb_true_iff.
    destruct (cmp_scaled (Z.pos m1) e1 (Z.pos m2) e2) eqn:Hcmp; try done.
    rewrite (cmp_scaled_Eq_sym _ _ _ _ Hcmp). by destruct s1, s2.
Qed.

(** The price of the change set is a number: it is written unless the old
    price is a number too and both round to the same number. *)
Lemma apply_update_price lc P updates xn h :
  h !! lc = Some (OPlain P) →
  get_prop updates "price" h = (h, inr (VNum xn)) →
  apply_update (VRef lc) updates "price" h
  = (if match default VUndefined (P !! "price") with
        | VNum xo => Num.strict_eq (round2 xn) (round2 xo)
        | _ => false
        end
     then h else <[lc := OPlain (<["price" := VNum xn]> P)]> h, inr ()).
Proof.
  intros Hlc Hget. unfold apply_update.
  rewrite (run_bind _ _ _ _ _ Hget).
  rewrite (run_bind _ _ _ _ _ (get_prop_plain lc P "price" h Hlc)).
  rewrite (bool_decide_eq_true_2 ("price" = "price")) by done.
  rewrite !typeof_is_number. cbn [andb].
  destruct (default VUndefined (P !! "price")) as [| | |xo| |l] eqn:Hold.
  4:{ unfold toFixed, bind, ret. fold (round2 xn). fold (round2 xo).
      destruct (Num.strict_eq _ _); cbn [negb]; [done|].
      by apply set_prop_plain. }
  all: rewrite (run_bind _ _ _ _ _ (isArray_run _ _)).
  all: rewrite (run_bind _ _ _ _ _ (isArray_run _ _)).
  all: rewrite (bool_decide_eq_false_2 ("price" = "tags")) by done.
  all: cbn [andb strict_eq negb]; by apply set_prop_plain.
Qed.

(** X13.  A price in the change set, when it is a number: the record of a
    valid result has a price that is, as a number, the new price rounded to
    two decimal places, whether the loop has written the new price or has
    left the old one because both round alike. *)
Theorem update_applies_price depth now base updates h h' res xn :
  value_of h updates →
  updateRecordWithValidation depth now base updates h = (h', inr res) →
  isValid res = true →
  change_set h updates !! "price" = Some (VNum xn) →
  ∃ lc o' y, record res = Some (VRef lc) ∧ h' !! lc = Some o'
    ∧ field o' "price" = VNum y ∧ Num.strict_eq y (round2 xn) = true.
Proof.
  intros Hwf Hrun Hvalid Hk.
  destruct (update_valid_inv _ _ _ _ _ _ _ Hwf Hrun Hvalid)
    as (lc & hc & cps & P4 & x & Hcopy & [Hlo Hhi] & Hlc & -> & Hprice & Hnan
        & Hlc' & _ & _ & Hin).
  destruct (Hin _ _ Hk)
    as (hi & Pi & hi' & Pi' & Hpre & _ & Hlci & HPi & Hturn & Hlci' & HPi').
  rewrite (apply_update_price lc Pi updates xn hi) in Hturn;
    [|done|by eapply get_prop_change_set].
  eexists lc, _, (round2 x). split; [done|]. split; [done|].
  split; [unfold field; cbn [fields]; by rewrite lookup_insert_eq|].
  assert (∀ z, z ≠ NaN → Num.strict_eq (round2 z) (round2 z) = true) as Hrefl.
  { intros z Hz. apply num_strict_eq_refl. intros Heq.
    assert (Num.isNaN (round2 z) = false) as Hr
      by (apply round2_not_NaN; by destruct z).
    by rewrite Heq in Hr. }
  assert (hi' = <[lc := OPlain (<["price" := VNum xn]> Pi)]> hi → x = xn) as Hwritten.
  { intros ->. rewrite list_lookup_insert_eq in Hlci' by (by eapply lookup_lt_Some).
    simplify_eq. rewrite lookup_insert_eq in HPi'. congruence. }
  destruct (default VUndefined (Pi !! "price")) as [| | |xo| |l] eqn:Hold;
    try (injection Hturn as Hturn; symmetry in Hturn;
         rewrite (Hwritten Hturn) in Hnan |- *; by apply Hrefl).
  destruct (Num.strict_eq (round2 xn) (round2 xo)) eqn:Hsame;
    injection Hturn as Hturn; symmetry in Hturn.
  - subst hi'. assert (Pi' = Pi) as -> by (rewrite Hlci in Hlci'; by simplify_eq).
    assert (Pi !! "price" = Some (VNum xo)) as Hxo
      by (by destruct (Pi !! "price"); simplify_eq/=).
    rewrite <- HPi', Hxo in Hprice. simplify_eq. by apply num_strict_eq_sym.
  - rewrite (Hwritten Hturn) in Hnan |- *. by apply Hrefl.
Qed.


Lemma update_applies_price_witness :
  ∃ lc o' y,
    Some (VRef 5) = Some (VRef lc)
    ∧ (updateRecordWithValidation 3 Sample.clock (VRef 0) (VRef 4) repriced).1
        !! lc = Some o'
    ∧ field o' "price" = VNum y
    ∧ Num.strict_eq y (round2 (of_ratio false 50004 1000)) = true.
Proof.
  apply (update_applies_price 3 Sample.clock (VRef 0) (VRef 4) repriced _
           (valid_result (VRef 5))).
  - intros l [= <-]. vm_compute. lia.
  - vm_compute. reflexivity.
  - reflexivity.
  - vm_compute. reflexivity.
Defined.

(** *** The turn for any other key *)

Lemma strict_eq_cases a b :
  strict_eq a b = true →
  a = b ∨ ∃ x y, a = VNum x ∧ b = VNum y ∧ Num.strict_eq x y = true.
Proof.
  destruct a, b; try done; simpl;
    try (intros ->%bool_decide_eq_true; by left); try (by left).
  intros Heq. right. by eexists _, _.
Qed.

(** X14.  In a heap where no object has an own property named [__proto__],
    for a key of the change set other than [price] and [tags], the record
    of a valid result has under it the value of the change set itself (for
    an object, the very object of the change set, not a copy), or, when both
    are numbers, a number equal to it. *)
Theorem update_applies_change depth now base updates h h' res k nv :
  proto_free h = true →
  value_of h updates →
  updateRecordWithValidation depth now base updates h = (h', inr res) →
  isValid res = true →
  k ≠ "price" → k ≠ "tags" → change_set h updates !! k = Some nv →
  ∃ lc o', record res = Some (VRef lc) ∧ h' !! lc = Some o'
    ∧ (field o' k = nv
       ∨ ∃ x y, nv = VNum x ∧ field o' k = VNum y ∧ Num.strict_eq x y = true).
Proof.
  intros _ Hwf Hrun Hvalid Hprice Htags Hk.
  destruct (update_valid_inv _ _ _ _ _ _ _ Hwf Hrun Hvalid)
    as (lc & hc & cps & P4 & x & Hcopy & [Hlo Hhi] & Hlc & -> & _ & _
        & Hlc' & _ & _ & Hin).
  destruct (Hin _ _ Hk)
    as (hi & Pi & hi' & Pi' & Hpre & _ & Hlci & HPi & Hturn & Hlci' & HPi').
  rewrite (apply_update_other lc Pi updates k nv hi) in Hturn;
    [|done|done|done|by eapply get_prop_change_set].
  eexists lc, _. split; [done|]. split; [done|].
  unfold field. cbn [fields]. rewrite lookup_insert_ne, <- HPi' by done.
  destruct (strict_eq nv (default VUndefined (Pi !! k))) eqn:Hsame;
    injection Hturn as <-.
  - assert (Pi' = Pi) as -> by (rewrite Hlci in Hlci'; by simplify_eq).
    destruct (strict_eq_cases _ _ Hsame) as [->|(y & z & -> & Hz & ?)]; [by left|].
    right. exists y, z. by rewrite Hz.
  - rewrite list_lookup_insert_eq in Hlci' by (by eapply lookup_lt_Some).
    simplify_eq. left. by rewrite lookup_insert_eq.
Qed.

Lemma update_applies_change_witness :
  ∃ lc o',
    Some (VRef 7) = Some (VRef lc)
    ∧ (updateRecordWithValidation 3 Sample.clock (VRef 0) (VRef 4)
         Sample.renamed).1 !! lc = Some o'
    ∧ (field o' "name" = VStr "Updated Product"
       ∨ ∃ x y, VStr "Updated Product" = VNum x ∧ field o' "name" = VNum y
                ∧ Num.strict_eq x y = true).
Proof.
  apply (update_applies_change 3 Sample.clock (VRef 0) (VRef 4) Sample.renamed _
           (valid_result (VRef 7))).
  - vm_compute. reflexivity.
  - intros l [= <-]. vm_compute. lia.
  - vm_compute. reflexivity.
  - reflexivity.
  - vm_compute. discriminate.
  - vm_compute. discriminate.
  - vm_compute. reflexivity.
Defined.


(** *** The turn for [tags] on arrays of strings *)

Lemma insert_sorted_perm s l : insert_sorted s l ≡ₚ s :: l.
Proof.
  induction l as [|t l IH]; simpl; [done|].
  destruct (String.leb s t); [done|]. rewrite IH. apply Permutation_swap.
Qed.

Lemma sort_strings_perm l : sort_strings l ≡ₚ l.
Proof.
  induction l as [|s l IH]; simpl; [done|].
  rewrite insert_sorted_perm. by f_equiv.
Qed.

Lemma insert_sorted_sorted s l :
  StronglySorted String.le l → StronglySorted String.le (insert_sorted s l).
Proof.
  induction 1 as [|t l Hl IH Ht]; simpl.
  { repeat constructor. }
  destruct (String.leb s t) eqn:Hst.
  - constructor; [by constructor|]. constructor.
    + unfold String.le. by rewrite Hst.
    + eapply Forall_impl; [done|]. intros u Hu. etrans; [|done].
      unfold String.le. by rewrite Hst.
  - constructor; [done|]. rewrite insert_sorted_perm. constructor; [|done].
    destruct (total String.le s t) as [Hle|Hle]; [|done].
    unfold String.le in Hle. by rewrite Hst in Hle.
Qed.

Lemma sort_strings_sorted l : StronglySorted String.le (sort_strings l).
Proof.
  induction l as [|s l IH]; simpl; [constructor|]. by apply insert_sorted_sorted.
Qed.

(** Sorted copies are the same exactly when one array has the strings of the
    other, each as many times. *)
Lemma sort_strings_eq sn so : sort_strings sn = sort_strings so ↔ sn ≡ₚ so.
Proof.
  split.
  - intros Heq. by rewrite <- (sort_strings_perm sn), Heq, sort_strings_perm.
  - intros Hperm. apply (StronglySorted_unique String.le);
      [apply sort_strings_sorted..|].
    by rewrite !sort_strings_perm.
Qed.

Lemma append_assoc (s1 s2 s3 : string) : (s1 +:+ s2) +:+ s3 = s1 +:+ s2 +:+ s3.
Proof.
  induction s1 as [|a s1 IH]; [done|].
  change (String a ((s1 +:+ s2) +:+ s3) = String a (s1 +:+ s2 +:+ s3)).
  by rewrite IH.
Qed.

Lemma json_unescape_escape c r : json_unescape (json_escape c +:+ r) = Some (c, r).
Proof. destruct c as [[] [] [] [] [] [] [] []]; reflexivity. Qed.

Lemma json_string_body_inj s1 s2 r1 r2 :
  json_string_body s1 +:+ quote +:+ r1 = json_string_body s2 +:+ quote +:+ r2 →
  s1 = s2 ∧ r1 = r2.
Proof.
  revert s2. induction s1 as [|c1 s1 IH]; intros [|c2 s2]; cbn [json_string_body].
  - intros Heq. by injection Heq.
  - rewrite append_assoc. intros Heq.
    pose proof (f_equal json_unescape Heq) as Hc.
    rewrite json_unescape_escape in Hc. injection Hc as <- _.
    discriminate Heq.
  - rewrite append_assoc. intros Heq.
    pose proof (f_equal json_unescape Heq) as Hc.
    rewrite json_unescape_escape in Hc. injection Hc as -> _.
    discriminate Heq.
  - rewrite !append_assoc. intros Heq.
    pose proof (f_equal json_unescape Heq) as Hc.
    rewrite !json_unescape_escape in Hc. injection Hc as -> Hrest.
    destruct (IH _ Hrest) as [-> ->]. done.
Qed.

Lemma json_items_cons s l :
  json_items (s :: l) +:+ "]"
  = quote +:+ json_string_body s +:+ quote
    +:+ match l with [] => "]" | _ => "," +:+ json_items l +:+ "]" end.
Proof.
  destruct l as [|t l]; cbn [json_items]; unfold json_string;
    by rewrite !append_assoc.
Qed.

Lemma json_items_inj l1 l2 :
  json_items l1 +:+ "]" = json_items l2 +:+ "]" → l1 = l2.
Proof.
  revert l2. induction l1 as [|s1 l1 IH]; intros [|s2 l2].
  - done.
  - rewrite json_items_cons. intros Heq. discriminate Heq.
  - rewrite json_items_cons. intros Heq. discriminate Heq.
  - rewrite !json_items_cons. intros Heq. injection Heq as Heq.
    apply json_string_body_inj in Heq as [-> Hrest]. f_equal.
    destruct l1 as [|t1 l1], l2 as [|t2 l2]; try done; try discriminate Hrest.
    injection Hrest as Hrest. by apply IH.
Qed.

Lemma apply_update_tags_perm lc P updates ln lo sn so h :
  h !! lc = Some (OPlain P) →
  get_prop updates "tags" h = (h, inr (VRef ln)) →
  P !! "tags" = Some (VRef lo) →
  h !! ln = Some (OArray (VStr <$> sn)) → h !! lo = Some (OArray (VStr <$> so)) →
  (sn ≡ₚ so ∧ apply_update (VRef lc) updates "tags" h = (h, inr ()))
  ∨ (¬ sn ≡ₚ so
     ∧ apply_update (VRef lc) updates "tags" h
       = (<[lc := OPlain (<["tags" := VRef ln]> P)]> h, inr ())).
Proof.
  intros Hlc Hget Hold Hln Hlo.
  rewrite (apply_update_tags lc P updates ln lo sn so h) by done.
  destruct (bool_decide _) eqn:Hsame.
  - left. split; [|done]. apply bool_decide_eq_true in Hsame.
    injection Hsame as Hsame. by apply sort_strings_eq, json_items_inj.
  - right. split; [|done]. apply bool_decide_eq_false in Hsame.
    intros Hperm. apply Hsame. apply sort_strings_eq in Hperm. by rewrite Hperm.
Qed.


(** X15.  Tags in the change set, when they and the tags of the base are
    arrays of strings.  If one array has the strings of the other, each as
    many times, in whatever order, the record of a valid result keeps the
    tags of the base, in their order, in an array of its own.  If not, its
    tags are the array of the change set itself, not a copy of it. *)
Theorem update_replaces_tags depth now lb ps lt so updates lt' sn h h' res :
  h !! lb = Some (OPlain ps) → fits depth h (VRef lb) = true →
  value_of h updates →
  ps !! "tags" = Some (VRef lt) → h !! lt = Some (OArray (VStr <$> so)) →
  change_set h updates !! "tags" = Some (VRef lt') →
  h !! lt' = Some (OArray (VStr <$> sn)) →
  updateRecordWithValidation depth now (VRef lb) updates h = (h', inr res) →
  isValid res = true →
  ∃ lc o', record res = Some (VRef lc) ∧ h' !! lc = Some o'
    ∧ ((sn ≡ₚ so
        ∧ ∃ lt2, field o' "tags" = VRef lt2 ∧ length h ≤ lt2
                 ∧ h' !! lt2 = Some (OArray (VStr <$> so)))
       ∨ (¬ sn ≡ₚ so ∧ field o' "tags" = VRef lt'
          ∧ h' !! lt' = Some (OArray (VStr <$> sn)))).
Proof.
  intros Hlb Hfits Hwf Htags Hlt Hk Hlt' Hrun Hvalid.
  pose proof (updateRecordWithValidation_frame _ _ _ _ _ _ _ Hrun) as Hframe.
  destruct (update_valid_inv _ _ _ _ _ _ _ Hwf Hrun Hvalid)
    as (lc & hc & cps & P4 & x & Hcopy & [Hlo Hhi] & Hlc & -> & _ & _
        & Hlc' & [_ Hw] & _ & Hin).
  destruct (deepCopy_spec _ _ _ Hfits) as (hc' & v' & Hcopy' & Hspec).
  assert (hc' = hc ∧ v' = VRef lc) as [-> ->]
    by (rewrite Hcopy in Hcopy'; by simplify_eq).
  destruct depth as [|d]; [done|]. simpl in Hspec. rewrite Hlb in Hspec.
  destruct Hspec as (l' & cps' & [= <-] & _ & Hlc'' & Hprops).
  assert (cps' = cps) as -> by (rewrite Hlc in Hlc''; by simplify_eq).
  assert (∃ lt2, cps !! "tags" = Some (VRef lt2) ∧ S lc ≤ lt2
                 ∧ hc !! lt2 = Some (OArray (VStr <$> so)))
    as (lt2 & Hctags & Hlt2lo & Hlt2).
  { pose proof (Hprops "tags") as Ht. rewrite Htags in Ht.
    inversion Ht as [? x' Hx Heq1 Heq2|]. symmetry in Heq2.
    destruct (copy_of_strings d h lt so hc (S lc) x' Hlt Hx)
      as (lt2 & -> & ? & ?).
    by exists lt2. }
  destruct (Hin _ _ Hk)
    as (hi & Pi & hi' & Pi' & Hpre & [_ Hwi] & Hlci & HPi & Hturn & Hlci' & HPi').
  rewrite lookup_insert_ne, Hctags in HPi by done.
  eexists lc, _. split; [done|]. split; [done|].
  unfold field. cbn [fields]. rewrite lookup_insert_ne, <- HPi' by done.
  destruct (apply_update_tags_perm lc Pi updates lt' lt2 sn so hi)
    as [[Hperm Hsame]|[Hperm Hwritten]];
    [done|by eapply get_prop_change_set|done|by eapply prefix_lookup_Some| | |].
  { rewrite Hwi by (intros [= ->]; lia). by apply lookup_app_l_Some. }
  - left. split; [done|]. rewrite Hsame in Hturn. injection Hturn as <-.
    assert (Pi' = Pi) as -> by (rewrite Hlci in Hlci'; by simplify_eq).
    exists lt2. rewrite HPi. split; [done|]. split; [lia|].
    rewrite Hw by (intros [= ->]; lia). by apply lookup_app_l_Some.
  - right. split; [done|]. rewrite Hwritten in Hturn. injection Hturn as <-.
    rewrite list_lookup_insert_eq in Hlci' by (by eapply lookup_lt_Some).
    simplify_eq. rewrite lookup_insert_eq. split; [done|].
    by eapply prefix_lookup_Some.
Qed.

Lemma update_replaces_tags_witness :
  ∃ lc o',
    Some (VRef 6) = Some (VRef lc)
    ∧ (updateRecordWithValidation 3 Sample.clock (VRef 0) (VRef 4) retagged).1
        !! lc = Some o'
    ∧ ((["new"; "tags"] ≡ₚ ["electronics"; "gadget"]
        ∧ ∃ lt2, field o' "tags" = VRef lt2 ∧ length retagged ≤ lt2
                 ∧ (updateRecordWithValidation 3 Sample.clock (VRef 0) (VRef 4)
                      retagged).1 !! lt2
                   = Some (OArray (VStr <$> ["electronics"; "gadget"])))
       ∨ (¬ ["new"; "tags"] ≡ₚ ["electronics"; "gadget"]
          ∧ field o' "tags" = VRef 5
          ∧ (updateRecordWithValidation 3 Sample.clock (VRef 0) (VRef 4)
               retagged).1 !! 5
            = Some (OArray (VStr <$> ["new"; "tags"])))).
Proof.
  apply (update_replaces_tags 3 Sample.clock 0 Sample.validRecord 1
           ["electronics"; "gadget"] (VRef 4) 5 ["new"; "tags"] retagged _
           (valid_result (VRef 6))).
  - reflexivity.
  - vm_compute. reflexivity.
  - intros l [= <-]. vm_compute. lia.
  - vm_compute. reflexivity.
  - reflexivity.
  - vm_compute. reflexivity.
  - reflexivity.
  - vm_compute. reflexivity.
  - reflexivity.
Defined.


(** *** An empty change set *)

Lemma copy_of_primitives d h h' lo es es' :
  (∀ x, x ∈ es → ∀ l, x ≠ VRef l) →
  Forall2 (λ x x', copy_of d h x h' lo x') es es' → es' = es.
Proof.
  intros Hprim Hes. induction Hes as [|x x' es es' Hx Hes IH]; [done|].
  f_equal.
  - destruct d as [|d]; [done|]. destruct x as [| | | | |l]; try done.
    destruct (Hprim (VRef l) ltac:(by left) l eq_refl).
  - apply IH. intros y Hy. apply Hprim. by right.
Qed.

(** The copy of a record that passes the four tests passes them, whatever
    its [updatedAt]. *)
Lemma copy_validates d h lb ps hc lc (cps P3 : gmap string value) h3 :
  h !! lb = Some (OPlain ps) → field_errors lb (OPlain ps) h = [] →
  (∀ k, option_Forall2 (λ x x', copy_of d h x hc (S lc) x') (ps !! k) (cps !! k)) →
  (∀ l o, S lc ≤ l → hc !! l = Some o → h3 !! l = Some o) →
  h3 !! lc = Some (OPlain P3) →
  (∀ k, k ≠ "updatedAt" → P3 !! k = cps !! k) →
  field_errors lc (OPlain P3) h3 = [].
Proof.
  intros Hlb Herrs Hprops Hkeep Hlc3 HP3.
  destruct (field_errors_nil _ _ _ Herrs)
    as (Hid & Hname & [x Hprice] & es & Hes & Hgood).
  rewrite array_at_after_price in Hes by done.
  assert (∀ k, k ≠ "updatedAt" → (∀ l, field (OPlain ps) k ≠ VRef l) →
               field (OPlain P3) k = field (OPlain ps) k) as Hfield.
  { intros k Hk Hprim. rewrite <- (copy_field_primitive _ _ _ _ _ _ _ Hprops Hprim).
    unfold field. simpl. by rewrite HP3. }
  destruct (usable_price_Some _ _ Hprice) as [Hp _].
  assert (∃ lt2, field (OPlain P3) "tags" = VRef lt2
                 ∧ h3 !! lt2 = Some (OArray es)) as (lt2 & Hftags & Hlt2).
  { unfold field in Hes |- *. cbn [fields] in Hes |- *. rewrite HP3 by done.
    destruct (Hprops "tags") as [t t' Ht|]; [|done]. cbn [default] in Hes |- *.
    destruct t as [| | | | |lt]; try done. simpl in Hes.
    destruct (h !! lt) as [[|es0| |]|] eqn:Hlt; try done. simplify_eq.
    destruct d as [|d]; [done|]. simpl in Ht. rewrite Hlt in Ht.
    destruct Ht as (lt2 & es' & -> & Hlo & Hlt2 & Hcopy).
    exists lt2. split; [done|].
    assert (es' = es) as ->; [|by apply Hkeep].
    eapply copy_of_primitives; [|done].
    intros t Ht l ->.
    by destruct (proj1 (no_bad_tag es) Hgood _ Ht) as (? & ? & ?). }
  unfold field_errors.
  rewrite (Hfield "id"), (Hfield "name"), (Hfield "price"), Hftags;
    [|done|by rewrite Hp|done|by apply blank_false|done|by apply blank_false].
  rewrite Hid, Hname, Hprice, array_at_after_price by done.
  simpl. by rewrite Hlt2, Hgood.
Qed.

(** X16.  An empty change set on a base record that is valid, and that
    [deepCopy] can walk, is accepted: the call returns a valid result, with
    a new record. *)
Theorem update_empty_change_set depth now lb ps lu h :
  h !! lb = Some (OPlain ps) → fits depth h (VRef lb) = true →
  (validateRecord (VRef lb) h).2 = inr (valid_result (VRef lb)) →
  h !! lu = Some (OPlain ∅) →
  ∃ h' lc,
    updateRecordWithValidation depth now (VRef lb) (VRef lu) h
    = (h', inr (valid_result (VRef lc)))
    ∧ length h ≤ lc.
Proof.
  intros Hlb Hfits Hbase Hlu.
  rewrite (validateRecord_run lb _ h Hlb eq_refl) in Hbase. simpl in Hbase.
  injection Hbase as Hbase.
  destruct (verdict_valid _ _ _ Hbase eq_refl) as [Herrs _].
  destruct (deepCopy_spec _ _ _ Hfits) as (hc & v' & Hcopy & Hspec).
  destruct (deepCopy_frame _ _ _ _ _ Hcopy) as [Hpre _].
  destruct depth as [|d]; [done|]. simpl in Hspec. rewrite Hlb in Hspec.
  destruct Hspec as (lc & cps & -> & Hlo & Hlc & Hprops).
  pose proof (lookup_lt_Some _ _ _ Hlc) as Hhi.
  set (h2 := hc ++ [ODate (Some now)]).
  set (P3 := <["updatedAt" := VRef (length hc)]> cps).
  set (h3 := <[lc := OPlain P3]> h2).
  assert (h2 !! lc = Some (OPlain cps)) as Hlc2 by (by apply lookup_app_l_Some).
  assert (h3 !! lc = Some (OPlain P3)) as Hlc3.
  { apply list_lookup_insert_eq. by eapply lookup_lt_Some. }
  assert (∀ l o, l ≠ lc → hc !! l = Some o → h3 !! l = Some o) as Hkeep.
  { intros l o Hne Hl. unfold h3. rewrite list_lookup_insert_ne by done.
    by apply lookup_app_l_Some. }
  assert (h3 !! lu = Some (OPlain ∅)) as Hlu3.
  { apply Hkeep; [apply lookup_lt_Some in Hlu; lia|].
    by eapply prefix_lookup_Some. }
  assert (field_errors lc (OPlain P3) h3 = []) as Herrs3.
  { eapply (copy_validates d h lb ps hc lc cps); [done..| |done|].
    - intros l o Hl. apply Hkeep. lia.
    - intros k Hk. unfold P3. by rewrite lookup_insert_ne. }
  exists (after_price lc (OPlain P3) h3), lc. split; [|done].
  unfold updateRecordWithValidation.
  rewrite (run_bind _ _ _ _ _ Hcopy).
  rewrite (run_bind _ _ _ h2 (VRef (length hc))
             (eq_refl : new_Date (Some now) hc = (h2, _))).
  rewrite (run_bind _ _ _ _ _ (set_prop_plain lc cps "updatedAt" _ h2 Hlc2)).
  rewrite (run_bind _ _ _ _ _ (own_keys_plain lu _ h3 Hlu3)).
  rewrite map_to_list_empty. simpl.
  rewrite (run_bind _ _ _ h3 () (eq_refl : ret () h3 = _)).
  rewrite (run_bind _ _ _ _ _ (validateRecord_run lc _ h3 Hlc3 eq_refl)).
  by rewrite Herrs3.
Qed.

Lemma update_empty_change_set_witness :
  ∃ h' lc,
    updateRecordWithValidation 3 Sample.clock (VRef 0) (VRef 4) unchanged
    = (h', inr (valid_result (VRef lc)))
    ∧ length unchanged ≤ lc.
Proof.
  apply (update_empty_change_set 3 Sample.clock 0 Sample.validRecord 4 unchanged).
  - reflexivity.
  - vm_compute. reflexivity.
  - vm_compute. reflexivity.
  - reflexivity.
Defined.


(** *** Errors are returned, not thrown *)











(** *** A change set that makes the record invalid *)










